(** * EVMIX core: a shallow embedding of the interpreter and its trace

    The development follows the TypeScript sources of [evmix-core]:
    [types/Word256.ts], [types/Address.ts], [state/Stack.ts],
    [state/MachineState.ts], [trace/TraceEvent.ts], [trace/TraceCollector.ts],
    [host/Host.ts], [host/MemoryHost.ts], [opcodes/*.ts] and
    [interpreter/Interpreter.ts].

    - [bigint] values are [Z]; a [number] that holds an integer is a [Z] too,
      and [Number(bigint)] is written out with its rounding to 53 bits.
    - A [Uint8Array] is a [list byte].
    - Objects that the code mutates are threaded explicitly: every handler is
      a function from the mutable objects to the mutated objects and a
      completion (normal, or a thrown exception).
    - Trace events are the plain objects that [TraceEventBuilder] returns,
      with their fields in the order of the object literal. *)

From Stdlib Require Import ZArith List String Ascii Bool Lia.
From Stdlib Require Import DecimalString DecimalZ DecimalPos.
From Stdlib.Strings Require Import Byte.
From stdpp Require Import base gmap strings list.

Local Open Scope string_scope.
Local Open Scope list_scope.
Local Open Scope Z_scope.

(** ** The language runtime: exceptions, strings, numbers *)

Module JS.

(** The exception classes that can reach [Interpreter.step]. [StackError]
    is the class of [state/Stack.ts]; the others are built in. Every one of
    them is an [instanceof Error]. *)
Inductive Exn : Type :=
| StackError (msg : string)
| Error (msg : string)
| TypeError (msg : string)
| RangeError (msg : string).

Definition message (e : Exn) : string :=
  match e with
  | StackError m | Error m | TypeError m | RangeError m => m
  end.

Definition instanceof_StackError (e : Exn) : bool :=
  match e with StackError _ => true | _ => false end.

(** How a call completes. *)
Inductive Completion (A : Type) : Type :=
| Normal (a : A)
| Throw (e : Exn).
Arguments Normal {A} a.
Arguments Throw {A} e.

(** *** Bytes *)

Definition byte_to_Z (b : byte) : Z := Z.of_N (Byte.to_N b).

(** Storing a number into a [Uint8Array] keeps it modulo 256. *)
Definition byte_of_Z (z : Z) : byte :=
  default x00 (Byte.of_N (Z.to_N (z mod 256))).

(** *** Strings *)

Fixpoint repeat_char (n : nat) (c : ascii) : string :=
  match n with
  | O => ""
  | S k => String c (repeat_char k c)
  end.

(** [s.padStart(n, c)] for a one-character filler. *)
Definition padStart (n : nat) (c : ascii) (s : string) : string :=
  repeat_char (n - String.length s) c +:+ s.

Fixpoint startsWith (pre s : string) : bool :=
  match pre, s with
  | EmptyString, _ => true
  | String a pre', String b s' => Ascii.eqb a b && startsWith pre' s'
  | String _ _, EmptyString => false
  end.

(** [s.slice(n)] for [0 <= n]. *)
Fixpoint slice_from (n : nat) (s : string) : string :=
  match n, s with
  | O, _ => s
  | S k, String _ s' => slice_from k s'
  | S _, EmptyString => ""
  end.

(** [s.includes(sub)]. *)
Fixpoint includes (sub s : string) : bool :=
  startsWith sub s ||
  match s with
  | EmptyString => false
  | String _ s' => includes sub s'
  end.

(** *** Radix conversions *)

Definition lowerHexDigits : string := "0123456789abcdef".
Definition upperHexLetters : string := "ABCDEF".

(** The position of a character in a string of digits, counted from [i]. *)
Fixpoint indexFrom (c : ascii) (digits : string) (i : Z) : option Z :=
  match digits with
  | EmptyString => None
  | String d rest => if Ascii.eqb c d then Some i else indexFrom c rest (i + 1)
  end.

(** The digit that prints [d], for [0 <= d < 16]. *)
Definition hex_digit (d : Z) : ascii :=
  match String.get (Z.to_nat d) lowerHexDigits with
  | Some c => c
  | None => "f"%char
  end.

Fixpoint hex_digits (fuel : nat) (z : Z) (acc : string) : string :=
  match fuel with
  | O => acc
  | S f =>
      if z =? 0 then acc
      else hex_digits f (z / 16) (String (hex_digit (z mod 16)) acc)
  end.

(** [z.toString(16)]: lower-case digits, no leading zero, ["0"] for zero,
    a minus sign for negatives. *)
Definition toString16 (z : Z) : string :=
  if z =? 0 then "0"
  else if z <? 0 then
    String "-" (hex_digits (S (Z.to_nat (Z.log2 (- z)))) (- z) "")
  else hex_digits (S (Z.to_nat (Z.log2 z))) z "".

(** [z.toString()] / [z.toString(10)] and the rendering of an integer in a
    template literal. *)
Definition toString10 (z : Z) : string :=
  NilZero.string_of_int (Z.to_int z).

(** The value of a hexadecimal digit of either case. *)
Definition hex_value (c : ascii) : option Z :=
  match indexFrom c lowerHexDigits 0 with
  | Some v => Some v
  | None => indexFrom c upperHexLetters 10
  end.

(** The test [/^[0-9a-fA-F]*$/]. *)
Fixpoint isHexString (s : string) : bool :=
  match s with
  | EmptyString => true
  | String c s' =>
      match hex_value c with
      | Some _ => isHexString s'
      | None => false
      end
  end.

Fixpoint parse_hex (s : string) (acc : Z) : Z :=
  match s with
  | EmptyString => acc
  | String c s' => parse_hex s' (acc * 16 + default 0 (hex_value c))
  end.

(** [BigInt('0x' + digits)] on a non-empty string of hex digits. *)
Definition BigInt_of_hex (digits : string) : Z := parse_hex digits 0.

(** [BigInt(s)] on a decimal string; [None] stands for the SyntaxError. *)
Definition BigInt_of_decimal (s : string) : option Z :=
  option_map Z.of_int (NilZero.int_of_string s).

(** *** Numbers *)

(** [Number(z)] for a bigint: exact below 2^53, otherwise rounded to a
    53-bit significand, ties to even. The result is an integer-valued
    double, kept as the [Z] it denotes (no bigint of the program reaches
    2^1024, where the result would be [Infinity]). *)
Definition Number_of_bigint (z : Z) : Z :=
  let a := Z.abs z in
  if a <? 2 ^ 53 then z
  else
    let e := Z.log2 a - 52 in
    let q := Z.shiftr a e in
    let r := a mod 2 ^ e in
    let half := 2 ^ (e - 1) in
    let q' := if (half <? r) || ((r =? half) && Z.odd q) then q + 1 else q in
    Z.sgn z * (q' * 2 ^ e).

(** [Math.ceil(n / 32)] for a non-negative integer-valued [n]: the
    division by a power of two is exact in a double. *)
Definition ceil_div32 (n : Z) : Z := (n + 31) / 32.

(** The largest length [new Uint8Array(n)] accepts before it throws a
    RangeError: the bound of the language's [ToIndex]. An engine may refuse
    smaller lengths; none accepts a larger one. *)
Definition MAX_TYPED_ARRAY_LENGTH : Z := 2 ^ 53 - 1.

End JS.

Export JS (Completion, Normal, Throw).

(** ** [types/Word256.ts] *)

Definition MAX_UINT256 : Z := Z.shiftl 1 256 - 1.
Definition WORD_SIZE : Z := 32.

Module Word256.

Record t : Type := mk { value : Z }.

(** The private constructor: [this.value = value & MAX_UINT256]. Every
    other way to obtain a [Word256] goes through it. *)
Definition new (v : Z) : t := mk (Z.land v MAX_UINT256).

Definition from (v : Z) : t := new v.
Definition fromNumber (v : Z) : t := new v.

Definition fromHex (hex : string) : Completion t :=
  let cleaned := if JS.startsWith "0x" hex then JS.slice_from 2 hex else hex in
  if negb (JS.isHexString cleaned) then
    Throw (JS.Error ("Invalid hex string: " +:+ hex))
  else
    Normal (new (if String.eqb cleaned "" then 0 else JS.BigInt_of_hex cleaned)).

Definition fromBytes (bytes : list byte) : Completion t :=
  if Z.of_nat (length bytes) >? 32 then
    Throw (JS.Error ("Byte array too long: "
                     +:+ JS.toString10 (Z.of_nat (length bytes)) +:+ " > 32"))
  else
    Normal (new (fold_left
                   (fun value b => Z.lor (Z.shiftl value 8) (JS.byte_to_Z b))
                   bytes 0)).

Definition zero : t := new 0.
Definition one : t := new 1.
Definition max : t := new MAX_UINT256.

Definition toHex (w : t) : string :=
  JS.padStart 64 "0" (JS.toString16 (value w)).

Definition toHexWith0x (w : t) : string := "0x" +:+ toHex w.

(** The loop [for (i = 31; i >= 0; i--) { bytes[i] = val & 0xff; val >>= 8 }]:
    [n] positions remain to be filled, [acc] holds the ones already set. *)
Fixpoint toBytes_loop (n : nat) (val : Z) (acc : list byte) : list byte :=
  match n with
  | O => acc
  | S k => toBytes_loop k (Z.shiftr val 8) (JS.byte_of_Z (Z.land val 255) :: acc)
  end.

Definition toBytes (w : t) : list byte := toBytes_loop 32 (value w) [].

Definition toDecimalString (w : t) : string := JS.toString10 (value w).

Definition isZero (w : t) : bool := value w =? 0.
Definition isNonZero (w : t) : bool := negb (value w =? 0).

Definition add (a b : t) : t := new (value a + value b).
Definition sub (a b : t) : t := new (value a - value b).
Definition mul (a b : t) : t := new (value a * value b).

Definition div (a b : t) : t :=
  if value b =? 0 then zero else new (Z.quot (value a) (value b)).

Definition mod_ (a b : t) : t :=
  if value b =? 0 then zero else new (Z.rem (value a) (value b)).

(** The loop of [exp], square and multiply: one iteration of
    [while (exponent > 0n)] per unit of [fuel]. The exponent is halved at
    every iteration, so its number of bits is enough fuel. *)
Fixpoint exp_loop (fuel : nat) (base exponent result : Z) : Z :=
  match fuel with
  | O => result
  | S fuel' =>
      if exponent >? 0 then
        let result :=
          if negb (Z.land exponent 1 =? 0)
          then Z.land (result * base) MAX_UINT256 else result in
        exp_loop fuel' (Z.land (base * base) MAX_UINT256) (Z.shiftr exponent 1) result
      else result
  end.

Definition exp (a b : t) : t :=
  new (exp_loop (S (Z.to_nat (Z.log2 (value b)))) (value a) (value b) 1).

Definition eq (a b : t) : bool := value a =? value b.
Definition lt (a b : t) : bool := value a <? value b.
Definition gt (a b : t) : bool := value a >? value b.

Definition and (a b : t) : t := new (Z.land (value a) (value b)).
Definition or (a b : t) : t := new (Z.lor (value a) (value b)).
Definition xor (a b : t) : t := new (Z.lxor (value a) (value b)).
Definition not (a : t) : t := new (Z.lnot (value a)).

Definition shl (a shift : t) : t :=
  if value shift >=? 256 then zero else new (Z.shiftl (value a) (value shift)).

Definition shr (a shift : t) : t :=
  if value shift >=? 256 then zero else new (Z.shiftr (value a) (value shift)).

Definition getByte (w : t) (index : Z) : Z :=
  if (index <? 0) || (index >=? 32) then 0
  else Z.land (Z.shiftr (value w) ((31 - index) * 8)) 255.

Definition equals (a b : t) : bool := value a =? value b.

End Word256.

(** ** [types/Address.ts] *)

Module Address.

Record t : Type := mk { value : Z }.

Definition new (v : Z) : t := mk (Z.land v (Z.shiftl 1 160 - 1)).

Definition from (v : Z) : t := new v.

Definition fromHex (hex : string) : Completion t :=
  let cleaned := if JS.startsWith "0x" hex then JS.slice_from 2 hex else hex in
  if negb (JS.isHexString cleaned) then
    Throw (JS.Error ("Invalid hex string: " +:+ hex))
  else if Z.of_nat (String.length cleaned) >? 40 then
    Throw (JS.Error ("Address hex string too long: "
                     +:+ JS.toString10 (Z.of_nat (String.length cleaned))
                     +:+ " > 40"))
  else
    Normal (new (if String.eqb cleaned "" then 0 else JS.BigInt_of_hex cleaned)).

Definition fromBytes (bytes : list byte) : Completion t :=
  if Z.of_nat (length bytes) >? 20 then
    Throw (JS.Error ("Byte array too long: "
                     +:+ JS.toString10 (Z.of_nat (length bytes)) +:+ " > 20"))
  else
    Normal (new (fold_left
                   (fun value b => Z.lor (Z.shiftl value 8) (JS.byte_to_Z b))
                   bytes 0)).

Definition zero : t := new 0.

Definition toHex (a : t) : string :=
  JS.padStart 40 "0" (JS.toString16 (value a)).

Definition toHexWith0x (a : t) : string := "0x" +:+ toHex a.

(** The loop of [toBytes] is the one of [Word256.toBytes], over 20
    positions. *)
Definition toBytes (a : t) : list byte := Word256.toBytes_loop 20 (value a) [].

Definition equals (a b : t) : bool := value a =? value b.

End Address.

(** ** [state/HaltReason.ts] *)

Inductive HaltReason : Type :=
| STOP | RETURN | REVERT | OUT_OF_GAS | INVALID_OPCODE
| STACK_UNDERFLOW | STACK_OVERFLOW | INVALID_JUMP | INVALID_INSTRUCTION.

(** The enum is a string enum: at run time a reason is this string. *)
Definition HaltReason_string (r : HaltReason) : string :=
  match r with
  | STOP => "STOP"
  | RETURN => "RETURN"
  | REVERT => "REVERT"
  | OUT_OF_GAS => "OUT_OF_GAS"
  | INVALID_OPCODE => "INVALID_OPCODE"
  | STACK_UNDERFLOW => "STACK_UNDERFLOW"
  | STACK_OVERFLOW => "STACK_OVERFLOW"
  | INVALID_JUMP => "INVALID_JUMP"
  | INVALID_INSTRUCTION => "INVALID_INSTRUCTION"
  end.

(** ** [state/Stack.ts] *)

Definition MAX_STACK_DEPTH : Z := 1024.

Module Stack.

(** [items] is kept top first: the array element [items[length - 1 - d]]
    of the source is the element at position [d] here. *)
Record t : Type := mk { items : list Word256.t }.

Definition new : t := mk [].

Definition depth (s : t) : Z := Z.of_nat (length (items s)).

Definition push (s : t) (value : Word256.t) : t * Completion unit :=
  if depth s >=? MAX_STACK_DEPTH then
    (s, Throw (JS.StackError ("Stack overflow: cannot push beyond "
                              +:+ JS.toString10 MAX_STACK_DEPTH +:+ " items")))
  else (mk (value :: items s), Normal tt).

Definition pop (s : t) : t * Completion Word256.t :=
  match items s with
  | [] => (s, Throw (JS.StackError "Stack underflow: cannot pop from empty stack"))
  | top :: rest => (mk rest, Normal top)
  end.

Definition peek (s : t) : Completion Word256.t :=
  match items s with
  | [] => Throw (JS.StackError "Stack underflow: cannot peek empty stack")
  | top :: _ => Normal top
  end.

Definition peekAt (s : t) (d : Z) : Completion Word256.t :=
  if (d <? 0) || (d >=? depth s) then
    Throw (JS.StackError ("Stack index out of bounds: " +:+ JS.toString10 d))
  else
    match items s !! Z.to_nat d with
    | Some w => Normal w
    | None => (* not reached: [d] is in range *)
        Throw (JS.StackError ("Stack index out of bounds: " +:+ JS.toString10 d))
    end.

Definition isEmpty (s : t) : bool := depth s =? 0.
Definition hasAtLeast (s : t) (n : Z) : bool := depth s >=? n.
Definition hasSpaceFor (s : t) (n : Z) : bool := depth s + n <=? MAX_STACK_DEPTH.

Definition swap (s : t) (n : Z) : t * Completion unit :=
  if (n <? 1) || (n >? 16) then
    (s, Throw (JS.StackError ("Invalid swap depth: " +:+ JS.toString10 n
                              +:+ " (must be 1-16)")))
  else if depth s <? n + 1 then
    (s, Throw (JS.StackError ("Stack underflow: need " +:+ JS.toString10 (n + 1)
                              +:+ " items for SWAP" +:+ JS.toString10 n)))
  else
    match items s !! 0%nat, items s !! Z.to_nat n with
    | Some temp, Some other =>
        (mk (<[Z.to_nat n := temp]> (<[0%nat := other]> (items s))), Normal tt)
    | _, _ => (s, Normal tt) (* not reached: both positions exist *)
    end.

Definition dup (s : t) (n : Z) : t * Completion unit :=
  if (n <? 1) || (n >? 16) then
    (s, Throw (JS.StackError ("Invalid dup depth: " +:+ JS.toString10 n
                              +:+ " (must be 1-16)")))
  else if depth s <? n then
    (s, Throw (JS.StackError ("Stack underflow: need " +:+ JS.toString10 n
                              +:+ " items for DUP" +:+ JS.toString10 n)))
  else if depth s >=? MAX_STACK_DEPTH then
    (s, Throw (JS.StackError ("Stack overflow: cannot DUP" +:+ JS.toString10 n)))
  else
    match items s !! Z.to_nat (n - 1) with
    | Some w => (mk (w :: items s), Normal tt)
    | None => (s, Normal tt) (* not reached: the position exists *)
    end.

Definition clear (s : t) : t := mk [].

(** [toArray] lists bottom to top, [toArrayReversed] top to bottom. *)
Definition toArray (s : t) : list Word256.t := rev (items s).
Definition toArrayReversed (s : t) : list Word256.t := items s.

End Stack.

(** ** [state/MachineState.ts] *)

Module MachineState.

Record t : Type := mk {
  pc : Z;
  gasRemaining : Z;
  stack : list Word256.t;
  memory : list byte;
  returnData : list byte;
  halted : bool;
  haltReason : option HaltReason
}.

Definition new (initialGas : Z) : t :=
  {| pc := 0; gasRemaining := initialGas; stack := []; memory := [];
     returnData := []; halted := false; haltReason := None |}.

Definition set_pc (st : t) (v : Z) : t :=
  {| pc := v; gasRemaining := gasRemaining st; stack := stack st;
     memory := memory st; returnData := returnData st;
     halted := halted st; haltReason := haltReason st |}.

Definition set_gasRemaining (st : t) (v : Z) : t :=
  {| pc := pc st; gasRemaining := v; stack := stack st;
     memory := memory st; returnData := returnData st;
     halted := halted st; haltReason := haltReason st |}.

Definition set_memory (st : t) (v : list byte) : t :=
  {| pc := pc st; gasRemaining := gasRemaining st; stack := stack st;
     memory := v; returnData := returnData st;
     halted := halted st; haltReason := haltReason st |}.

Definition set_returnData (st : t) (v : list byte) : t :=
  {| pc := pc st; gasRemaining := gasRemaining st; stack := stack st;
     memory := memory st; returnData := v;
     halted := halted st; haltReason := haltReason st |}.

Definition halt (st : t) (reason : HaltReason) : t :=
  {| pc := pc st; gasRemaining := gasRemaining st; stack := stack st;
     memory := memory st; returnData := returnData st;
     halted := true; haltReason := Some reason |}.

Definition chargeGas (st : t) (amount : Z) : t * Completion unit :=
  if gasRemaining st <? amount then
    (halt st OUT_OF_GAS, Throw (JS.Error "Out of gas"))
  else
    (set_gasRemaining st (gasRemaining st - amount), Normal tt).

Definition getStackDepth (st : t) : Z := Z.of_nat (length (stack st)).
Definition hasStackItems (st : t) (n : Z) : bool :=
  Z.of_nat (length (stack st)) >=? n.

Definition getMemorySize (st : t) : Z := Z.of_nat (length (memory st)).

(** C(w) = 3 w + w^2 / 512 on bigints. *)
Definition memoryCost (words : Z) : Z := words * 3 + words ^ 2 / 512.

Definition expandMemory (st : t) (offset len : Z) : t * Completion Z :=
  if len =? 0 then (st, Normal 0)
  else
    let requiredSize := offset + len in
    let currentSize := getMemorySize st in
    if requiredSize <=? currentSize then (st, Normal 0)
    else
      let newSize := JS.ceil_div32 requiredSize * 32 in
      let currentWords := currentSize / 32 in
      let newWords := newSize / 32 in
      let expansionCost := memoryCost newWords - memoryCost currentWords in
      if newSize >? JS.MAX_TYPED_ARRAY_LENGTH then
        (st, Throw (JS.RangeError "Invalid typed array length"))
      else
        (set_memory st
           (memory st ++ repeat x00 (Z.to_nat (newSize - currentSize))),
         Normal expansionCost).

(** [this.memory.slice(a, b)] for [0 <= a]. *)
Definition slice (m : list byte) (a b : Z) : list byte :=
  take (Z.to_nat (b - a)) (drop (Z.to_nat a) m).

Definition readMemory (st : t) (offset len : Z) : t * Completion (list byte) :=
  if len =? 0 then (st, Normal [])
  else
    let '(st1, r) :=
      if offset + len >? getMemorySize st then expandMemory st offset len
      else (st, Normal 0) in
    match r with
    | Throw e => (st1, Throw e)
    | Normal _ => (st1, Normal (slice (memory st1) offset (offset + len)))
    end.

Definition writeMemory (st : t) (offset : Z) (data : list byte)
  : t * Completion unit :=
  if Z.of_nat (length data) =? 0 then (st, Normal tt)
  else
    let '(st1, r) :=
      if offset + Z.of_nat (length data) >? getMemorySize st
      then expandMemory st offset (Z.of_nat (length data))
      else (st, Normal 0) in
    match r with
    | Throw e => (st1, Throw e)
    | Normal _ =>
        if offset + Z.of_nat (length data) >? getMemorySize st1 then
          (st1, Throw (JS.RangeError "offset is out of bounds"))
        else
          (set_memory st1
             (take (Z.to_nat offset) (memory st1) ++ data
              ++ drop (Z.to_nat offset + length data) (memory st1)),
           Normal tt)
    end.

End MachineState.

(** ** [trace/TraceEvent.ts] *)

(** The values a trace event is made of, as they exist at run time. An
    object keeps its properties in insertion order. *)
#[warnings="-register-all"] Inductive JSValue : Type :=
| JSNumber (n : Z)
| JSBigInt (z : Z)
| JSString (s : string)
| JSBoolean (b : bool)
| JSArray (elems : list JSValue)
| JSObject (props : list (string * JSValue)).

Definition TraceEvent : Type := JSValue.

(** Induction on a value together with the values nested in it. *)
Section JSValueInduction.
Variable P : JSValue -> Prop.
Hypothesis Hnum : forall n, P (JSNumber n).
Hypothesis Hbig : forall z, P (JSBigInt z).
Hypothesis Hstr : forall s, P (JSString s).
Hypothesis Hbool : forall b, P (JSBoolean b).
Hypothesis Harr : forall elems, Forall P elems -> P (JSArray elems).
Hypothesis Hobj : forall props, Forall (fun kv => P (snd kv)) props -> P (JSObject props).

Fixpoint JSValue_nested_ind (v : JSValue) : P v :=
  match v with
  | JSNumber n => Hnum n
  | JSBigInt z => Hbig z
  | JSString s => Hstr s
  | JSBoolean b => Hbool b
  | JSArray elems =>
      Harr elems
        ((fix go (l : list JSValue) : Forall P l :=
            match l with
            | [] => @List.Forall_nil _ P
            | x :: r => @List.Forall_cons _ P x r (JSValue_nested_ind x) (go r)
            end) elems)
  | JSObject props =>
      Hobj props
        ((fix go (l : list (string * JSValue)) : Forall (fun kv => P (snd kv)) l :=
            match l with
            | [] => @List.Forall_nil _ (fun kv => P (snd kv))
            | x :: r => @List.Forall_cons _ (fun kv => P (snd kv)) x r (JSValue_nested_ind (snd x)) (go r)
            end) props)
  end.
End JSValueInduction.

(** [obj[key]]; [None] is [undefined]. *)
Fixpoint get_prop (key : string) (props : list (string * JSValue)) : option JSValue :=
  match props with
  | [] => None
  | (k, v) :: rest => if String.eqb k key then Some v else get_prop key rest
  end.

Definition prop (key : string) (v : JSValue) : option JSValue :=
  match v with
  | JSObject props => get_prop key props
  | _ => None
  end.

Definition event_type (e : TraceEvent) : option string :=
  match prop "type" e with
  | Some (JSString s) => Some s
  | _ => None
  end.

Module TraceEventBuilder.

Definition base (type : string) (index pc gas : Z) : list (string * JSValue) :=
  [("type", JSString type); ("index", JSNumber index); ("pc", JSNumber pc);
   ("gasRemaining", JSBigInt gas)].

Definition opcodeStart (index pc gas opcode : Z) (name : string) : TraceEvent :=
  JSObject (base "opcode.start" index pc gas
            ++ [("opcode", JSNumber opcode); ("opcodeName", JSString name)]).

Definition stackPush (index pc gas : Z) (value : Word256.t) : TraceEvent :=
  JSObject (base "stack.push" index pc gas
            ++ [("value", JSString (Word256.toHexWith0x value))]).

Definition stackPop (index pc gas : Z) (value : Word256.t) : TraceEvent :=
  JSObject (base "stack.pop" index pc gas
            ++ [("value", JSString (Word256.toHexWith0x value))]).

(** [Array.from(data, b => b.toString(16).padStart(2, '0')).join('')] *)
Definition hex_of_bytes (data : list byte) : string :=
  fold_right
    (fun b acc => JS.padStart 2 "0" (JS.toString16 (JS.byte_to_Z b)) +:+ acc)
    "" data.

Definition memoryWrite (index pc gas offset : Z) (data : list byte) : TraceEvent :=
  JSObject (base "memory.write" index pc gas
            ++ [("offset", JSNumber offset);
                ("data", JSString ("0x" +:+ hex_of_bytes data))]).

Definition memoryRead (index pc gas offset len : Z) : TraceEvent :=
  JSObject (base "memory.read" index pc gas
            ++ [("offset", JSNumber offset); ("length", JSNumber len)]).

Definition storageRead (index pc gas : Z) (address : Address.t)
           (key value : Word256.t) : TraceEvent :=
  JSObject (base "storage.read" index pc gas
            ++ [("address", JSString (Address.toHexWith0x address));
                ("key", JSString (Word256.toHexWith0x key));
                ("value", JSString (Word256.toHexWith0x value))]).

Definition storageWrite (index pc gas : Z) (address : Address.t)
           (key value : Word256.t) : TraceEvent :=
  JSObject (base "storage.write" index pc gas
            ++ [("address", JSString (Address.toHexWith0x address));
                ("key", JSString (Word256.toHexWith0x key));
                ("value", JSString (Word256.toHexWith0x value))]).

Definition gasCharge (index pc gas amount : Z) (reason : string) : TraceEvent :=
  JSObject (base "gas.charge" index pc gas
            ++ [("amount", JSString (JS.toString10 amount));
                ("reason", JSString reason)]).

Definition jump (index pc gas from to : Z) (conditional taken : bool) : TraceEvent :=
  JSObject (base "jump" index pc gas
            ++ [("from", JSNumber from); ("to", JSNumber to);
                ("conditional", JSBoolean conditional);
                ("taken", JSBoolean taken)]).

Definition halt (index pc gas : Z) (reason : HaltReason) : TraceEvent :=
  JSObject (base "halt" index pc gas
            ++ [("reason", JSString (HaltReason_string reason))]).

(** The class ends here: it has no static member [log]. The expression
    [TraceEventBuilder.log(...)] of [opcodes/logging.ts] evaluates its
    arguments and then fails with this exception, its callee being
    [undefined]. *)
Definition log_is_not_a_function : JS.Exn :=
  JS.TypeError "TraceEventBuilder.log is not a function".

End TraceEventBuilder.

(** ** [trace/TraceCollector.ts] *)

Module JSON.

(** A JSON text is represented by the value it denotes: a [JSValue] without
    bigints. The engine's printer and parser are inverse on such values and
    are not modelled character by character. *)
Definition text : Type := JSValue.

(** [JSON.stringify(v, replacer, 2)] with the replacer of
    [TraceCollector.toJSON], which is applied to every property value
    before it is serialised:
    [(_key, value) => typeof value === 'bigint' ? value.toString() : value]. *)
Fixpoint stringify_bigints_as_strings (v : JSValue) : text :=
  match v with
  | JSBigInt z => JSString (JS.toString10 z)
  | JSArray elems => JSArray (map stringify_bigints_as_strings elems)
  | JSObject props =>
      JSObject (map (fun kv => (fst kv, stringify_bigints_as_strings (snd kv))) props)
  | JSNumber _ | JSString _ | JSBoolean _ => v
  end.

Definition parse (json : text) : JSValue := json.

End JSON.

Module TraceCollector.

Record t : Type := mk {
  events : list TraceEvent;
  nextIndex : Z
}.

Definition new : t := {| events := []; nextIndex := 0 |}.

Definition record (c : t) (event : TraceEvent) : t :=
  {| events := events c ++ [event]; nextIndex := nextIndex c |}.

(** [return this.nextIndex++] *)
Definition getNextIndex (c : t) : t * Z :=
  ({| events := events c; nextIndex := nextIndex c + 1 |}, nextIndex c).

Definition getEvents (c : t) : list TraceEvent := events c.

Definition getEventsByType (c : t) (type : string) : list TraceEvent :=
  List.filter
    (fun e => match event_type e with
              | Some s => String.eqb s type
              | None => false
              end)
    (events c).

Definition getEventCount (c : t) : Z := Z.of_nat (length (events c)).

Definition clear (c : t) : t := {| events := []; nextIndex := 0 |}.

Definition toJSON (c : t) : JSON.text :=
  JSON.stringify_bigints_as_strings (JSArray (events c)).

Definition fromJSON (json : JSON.text) : Completion t :=
  match JSON.parse json with
  | JSArray parsed =>
      Normal {| events := parsed; nextIndex := Z.of_nat (length parsed) |}
  | _ => Throw (JS.Error "Invalid trace JSON: expected array of events")
  end.

Definition clone (c : t) : t :=
  {| events := events c; nextIndex := nextIndex c |}.

End TraceCollector.

(** ** [host/Host.ts] and [host/MemoryHost.ts] *)

Record LogEntry : Type := mkLogEntry {
  log_address : Address.t;
  log_topics : list Word256.t;
  log_data : list byte
}.

(** The interface, over the state [H] of an implementation: the two methods
    that mutate return the new state. *)
Class Host (H : Type) : Type := {
  sload : H -> Address.t -> Word256.t -> Word256.t;
  sstore : H -> Address.t -> Word256.t -> Word256.t -> H;
  log : H -> LogEntry -> H;
  getLogs : H -> list LogEntry;
  getAddress : H -> Address.t
}.

Module MemoryHost.

Record t : Type := mk {
  storage : gmap string Word256.t;
  logs : list LogEntry;
  address : Address.t
}.

(** [new MemoryHost()] and [new MemoryHost(address)]. *)
Definition new (a : option Address.t) : t :=
  {| storage := ∅; logs := []; address := default Address.zero a |}.

(** Storage key format: ["address:key"]. *)
Definition storageKey (a : Address.t) (key : Word256.t) : string :=
  Address.toHex a +:+ ":" +:+ Word256.toHex key.

Definition sload (h : t) (a : Address.t) (key : Word256.t) : Word256.t :=
  default Word256.zero (storage h !! storageKey a key).

Definition sstore (h : t) (a : Address.t) (key value : Word256.t) : t :=
  if Word256.isZero value then
    {| storage := delete (storageKey a key) (storage h);
       logs := logs h; address := address h |}
  else
    {| storage := <[storageKey a key := value]> (storage h);
       logs := logs h; address := address h |}.

Definition log (h : t) (entry : LogEntry) : t :=
  {| storage := storage h; logs := logs h ++ [entry]; address := address h |}.

Definition getLogs (h : t) : list LogEntry := logs h.
Definition getAddress (h : t) : Address.t := address h.

Definition setAddress (h : t) (a : Address.t) : t :=
  {| storage := storage h; logs := logs h; address := a |}.

Definition clearStorage (h : t) : t :=
  {| storage := ∅; logs := logs h; address := address h |}.

Definition clearLogs (h : t) : t :=
  {| storage := storage h; logs := []; address := address h |}.

Definition getStorageSize (h : t) : Z := Z.of_nat (size (storage h)).

End MemoryHost.

#[export] Instance MemoryHost_Host : Host MemoryHost.t := {|
  sload := MemoryHost.sload;
  sstore := MemoryHost.sstore;
  log := MemoryHost.log;
  getLogs := MemoryHost.getLogs;
  getAddress := MemoryHost.getAddress
|}.

(** ** [opcodes/Opcode.ts] *)

Module Opcode.

Definition STOP : Z := 0x00.
Definition ADD : Z := 0x01.
Definition MUL : Z := 0x02.
Definition SUB : Z := 0x03.
Definition DIV : Z := 0x04.
Definition CALLDATALOAD : Z := 0x35.
Definition CALLDATASIZE : Z := 0x36.
Definition CALLDATACOPY : Z := 0x37.
Definition POP : Z := 0x50.
Definition MLOAD : Z := 0x51.
Definition MSTORE : Z := 0x52.
Definition MSTORE8 : Z := 0x53.
Definition SLOAD : Z := 0x54.
Definition SSTORE : Z := 0x55.
Definition JUMP : Z := 0x56.
Definition JUMPI : Z := 0x57.
Definition PC : Z := 0x58.
Definition MSIZE : Z := 0x59.
Definition JUMPDEST : Z := 0x5b.
Definition PUSH1 : Z := 0x60.
Definition PUSH32 : Z := 0x7f.
Definition DUP1 : Z := 0x80.
Definition DUP16 : Z := 0x8f.
Definition SWAP1 : Z := 0x90.
Definition SWAP16 : Z := 0x9f.
Definition LOG0 : Z := 0xa0.
Definition LOG1 : Z := 0xa1.
Definition LOG2 : Z := 0xa2.
Definition LOG3 : Z := 0xa3.
Definition LOG4 : Z := 0xa4.
Definition RETURN : Z := 0xf3.
Definition REVERT : Z := 0xfd.
Definition INVALID : Z := 0xfe.

(** The reverse mapping [Opcode[opcode]] of the numeric enum; [None] is
    [undefined]. *)
Definition enum_name (opcode : Z) : option string :=
  match opcode with
  | 0x00 => Some "STOP" | 0x01 => Some "ADD" | 0x02 => Some "MUL"
  | 0x03 => Some "SUB" | 0x04 => Some "DIV" | 0x05 => Some "SDIV"
  | 0x06 => Some "MOD" | 0x07 => Some "SMOD" | 0x08 => Some "ADDMOD"
  | 0x09 => Some "MULMOD" | 0x0a => Some "EXP" | 0x0b => Some "SIGNEXTEND"
  | 0x10 => Some "LT" | 0x11 => Some "GT" | 0x12 => Some "SLT"
  | 0x13 => Some "SGT" | 0x14 => Some "EQ" | 0x15 => Some "ISZERO"
  | 0x16 => Some "AND" | 0x17 => Some "OR" | 0x18 => Some "XOR"
  | 0x19 => Some "NOT" | 0x1a => Some "BYTE" | 0x1b => Some "SHL"
  | 0x1c => Some "SHR" | 0x1d => Some "SAR"
  | 0x20 => Some "KECCAK256"
  | 0x30 => Some "ADDRESS" | 0x31 => Some "BALANCE" | 0x32 => Some "ORIGIN"
  | 0x33 => Some "CALLER" | 0x34 => Some "CALLVALUE"
  | 0x35 => Some "CALLDATALOAD" | 0x36 => Some "CALLDATASIZE"
  | 0x37 => Some "CALLDATACOPY" | 0x38 => Some "CODESIZE"
  | 0x39 => Some "CODECOPY" | 0x3a => Some "GASPRICE"
  | 0x50 => Some "POP" | 0x51 => Some "MLOAD" | 0x52 => Some "MSTORE"
  | 0x53 => Some "MSTORE8" | 0x54 => Some "SLOAD" | 0x55 => Some "SSTORE"
  | 0x56 => Some "JUMP" | 0x57 => Some "JUMPI" | 0x58 => Some "PC"
  | 0x59 => Some "MSIZE" | 0x5a => Some "GAS" | 0x5b => Some "JUMPDEST"
  | 0x60 => Some "PUSH1" | 0x7f => Some "PUSH32"
  | 0x80 => Some "DUP1" | 0x8f => Some "DUP16"
  | 0x90 => Some "SWAP1" | 0x9f => Some "SWAP16"
  | 0xa0 => Some "LOG0" | 0xa1 => Some "LOG1" | 0xa2 => Some "LOG2"
  | 0xa3 => Some "LOG3" | 0xa4 => Some "LOG4"
  | 0xf3 => Some "RETURN" | 0xfd => Some "REVERT" | 0xfe => Some "INVALID"
  | _ => None
  end.

Definition getOpcodeName (opcode : Z) : string :=
  if (opcode >=? 0x60) && (opcode <=? 0x7f) then
    "PUSH" +:+ JS.toString10 (opcode - 0x5f)
  else if (opcode >=? 0x80) && (opcode <=? 0x8f) then
    "DUP" +:+ JS.toString10 (opcode - 0x7f)
  else if (opcode >=? 0x90) && (opcode <=? 0x9f) then
    "SWAP" +:+ JS.toString10 (opcode - 0x8f)
  else
    match enum_name opcode with
    | Some name => name
    | None => "UNKNOWN(0x" +:+ JS.padStart 2 "0" (JS.toString16 opcode) +:+ ")"
    end.

Definition isPushOpcode (opcode : Z) : bool :=
  (opcode >=? 0x60) && (opcode <=? 0x7f).

Definition getPushBytes (opcode : Z) : Z :=
  if negb (isPushOpcode opcode) then 0 else opcode - 0x5f.

End Opcode.

(** ** The mutable objects and the handlers' calling convention *)

(** A handler receives [state], [stack], [trace] (and for some [host]) by
    reference and mutates them; when it throws, the mutations made so far
    stay. [M A] is such a computation. *)
Record Objects (H : Type) : Type := mkObjects {
  state : MachineState.t;
  stack : Stack.t;
  trace : TraceCollector.t;
  host : H
}.
Arguments mkObjects {H}.
Arguments state {H}.
Arguments stack {H}.
Arguments trace {H}.
Arguments host {H}.

Definition M (H A : Type) : Type := Objects H -> Objects H * Completion A.

Definition ret {H A} (a : A) : M H A := fun o => (o, Normal a).

Definition throw {H A} (e : JS.Exn) : M H A := fun o => (o, Throw e).

Definition bind {H A B} (m : M H A) (k : A -> M H B) : M H B :=
  fun o =>
    match m o with
    | (o1, Normal a) => k a o1
    | (o1, Throw e) => (o1, Throw e)
    end.

Declare Scope handler_scope.
Delimit Scope handler_scope with handler.
Notation "x <- c ;; k" := (bind c (fun x => k))
  (at level 100, c at next level, right associativity) : handler_scope.
Notation "c ;; k" := (bind c (fun _ => k))
  (at level 100, right associativity) : handler_scope.
Local Open Scope handler_scope.

Section Primitives.
Context {H : Type}.

Definition onState {A} (f : MachineState.t -> MachineState.t * Completion A) : M H A :=
  fun o =>
    let '(st, r) := f (state o) in
    (mkObjects st (stack o) (trace o) (host o), r).

Definition onStack {A} (f : Stack.t -> Stack.t * Completion A) : M H A :=
  fun o =>
    let '(s, r) := f (stack o) in
    (mkObjects (state o) s (trace o) (host o), r).

Definition currentState : M H MachineState.t := fun o => (o, Normal (state o)).

Definition chargeGas (amount : Z) : M H unit :=
  onState (fun st => MachineState.chargeGas st amount).

Definition halt (reason : HaltReason) : M H unit :=
  onState (fun st => (MachineState.halt st reason, Normal tt)).

Definition setPc (v : Z) : M H unit :=
  onState (fun st => (MachineState.set_pc st v, Normal tt)).

(** [state.pc += n] *)
Definition advancePc (n : Z) : M H unit :=
  onState (fun st => (MachineState.set_pc st (MachineState.pc st + n), Normal tt)).

Definition setReturnData (d : list byte) : M H unit :=
  onState (fun st => (MachineState.set_returnData st d, Normal tt)).

Definition expandMemory (offset len : Z) : M H Z :=
  onState (fun st => MachineState.expandMemory st offset len).

Definition readMemory (offset len : Z) : M H (list byte) :=
  onState (fun st => MachineState.readMemory st offset len).

Definition writeMemory (offset : Z) (data : list byte) : M H unit :=
  onState (fun st => MachineState.writeMemory st offset data).

Definition push (w : Word256.t) : M H unit :=
  onStack (fun s => Stack.push s w).

Definition pop : M H Word256.t := onStack Stack.pop.

Definition peekAt (d : Z) : M H Word256.t :=
  onStack (fun s => (s, Stack.peekAt s d)).

Definition dup (n : Z) : M H unit := onStack (fun s => Stack.dup s n).
Definition swap (n : Z) : M H unit := onStack (fun s => Stack.swap s n).

Definition getNextIndex : M H Z :=
  fun o =>
    let '(c, i) := TraceCollector.getNextIndex (trace o) in
    (mkObjects (state o) (stack o) c (host o), Normal i).

Definition record (event : TraceEvent) : M H unit :=
  fun o =>
    (mkObjects (state o) (stack o) (TraceCollector.record (trace o) event) (host o),
     Normal tt).

(** The recurring pair of statements
    [const e = TraceEventBuilder.f(trace.getNextIndex(), state.pc,
    state.gasRemaining, ...); trace.record(e)]: [mk] is the builder with its
    remaining arguments supplied. *)
Definition emit (mk : Z -> Z -> Z -> TraceEvent) : M H unit :=
  index <- getNextIndex ;;
  st <- currentState ;;
  record (mk index (MachineState.pc st) (MachineState.gasRemaining st)).

End Primitives.

(** ** [opcodes/arithmetic.ts] *)

Section Arithmetic.
Context {H : Type}.

Definition executeAdd : M H unit :=
  chargeGas 3 ;;
  emit (fun i pc gas => TraceEventBuilder.gasCharge i pc gas 3 "ADD") ;;
  b <- pop ;;
  emit (fun i pc gas => TraceEventBuilder.stackPop i pc gas b) ;;
  a <- pop ;;
  emit (fun i pc gas => TraceEventBuilder.stackPop i pc gas a) ;;
  let result := Word256.add a b in
  push result ;;
  emit (fun i pc gas => TraceEventBuilder.stackPush i pc gas result) ;;
  advancePc 1.

Definition executeMul : M H unit :=
  chargeGas 5 ;;
  emit (fun i pc gas => TraceEventBuilder.gasCharge i pc gas 5 "MUL") ;;
  b <- pop ;;
  emit (fun i pc gas => TraceEventBuilder.stackPop i pc gas b) ;;
  a <- pop ;;
  emit (fun i pc gas => TraceEventBuilder.stackPop i pc gas a) ;;
  let result := Word256.mul a b in
  push result ;;
  emit (fun i pc gas => TraceEventBuilder.stackPush i pc gas result) ;;
  advancePc 1.

Definition executeSub : M H unit :=
  chargeGas 3 ;;
  emit (fun i pc gas => TraceEventBuilder.gasCharge i pc gas 3 "SUB") ;;
  b <- pop ;;
  emit (fun i pc gas => TraceEventBuilder.stackPop i pc gas b) ;;
  a <- pop ;;
  emit (fun i pc gas => TraceEventBuilder.stackPop i pc gas a) ;;
  let result := Word256.sub a b in
  push result ;;
  emit (fun i pc gas => TraceEventBuilder.stackPush i pc gas result) ;;
  advancePc 1.

Definition executeDiv : M H unit :=
  chargeGas 5 ;;
  emit (fun i pc gas => TraceEventBuilder.gasCharge i pc gas 5 "DIV") ;;
  b <- pop ;;
  emit (fun i pc gas => TraceEventBuilder.stackPop i pc gas b) ;;
  a <- pop ;;
  emit (fun i pc gas => TraceEventBuilder.stackPop i pc gas a) ;;
  let result := Word256.div a b in
  push result ;;
  emit (fun i pc gas => TraceEventBuilder.stackPush i pc gas result) ;;
  advancePc 1.

End Arithmetic.

(** ** [opcodes/system.ts] *)

Definition executeStop {H : Type} : M H unit := halt STOP.

(** ** [opcodes/controlflow.ts] *)

(** The scan of [buildJumpDestinations]: one iteration of the [while] loop
    per unit of [fuel]. The index grows at every iteration, so the length of
    the bytecode is enough fuel. *)
Fixpoint buildJumpDestinations_loop (fuel : nat) (bytecode : list byte)
         (i : Z) (validDests : gset Z) : gset Z :=
  match fuel with
  | O => validDests
  | S fuel' =>
      if i <? Z.of_nat (length bytecode) then
        let opcode := JS.byte_to_Z (nth (Z.to_nat i) bytecode x00) in
        if opcode =? 0x5b then
          buildJumpDestinations_loop fuel' bytecode (i + 1) (validDests ∪ {[ i ]})
        else if (opcode >=? 0x60) && (opcode <=? 0x7f) then
          let numBytes := opcode - 0x5f in
          buildJumpDestinations_loop fuel' bytecode (i + (1 + numBytes)) validDests
        else
          buildJumpDestinations_loop fuel' bytecode (i + 1) validDests
      else validDests
  end.

Definition buildJumpDestinations (bytecode : list byte) : gset Z :=
  buildJumpDestinations_loop (length bytecode) bytecode 0 ∅.

Section ControlFlow.
Context {H : Type}.

Definition executePC : M H unit :=
  chargeGas 2 ;;
  emit (fun i pc gas => TraceEventBuilder.gasCharge i pc gas 2 "PC") ;;
  st <- currentState ;;
  let pcValue := Word256.from (MachineState.pc st) in
  push pcValue ;;
  emit (fun i pc gas => TraceEventBuilder.stackPush i pc gas pcValue) ;;
  advancePc 1.

Definition executeJUMPDEST : M H unit :=
  chargeGas 1 ;;
  emit (fun i pc gas => TraceEventBuilder.gasCharge i pc gas 1 "JUMPDEST") ;;
  advancePc 1.

Definition executeJUMP (bytecode : list byte) (validJumpDests : gset Z) : M H unit :=
  chargeGas 8 ;;
  emit (fun i pc gas => TraceEventBuilder.gasCharge i pc gas 8 "JUMP") ;;
  dest <- pop ;;
  emit (fun i pc gas => TraceEventBuilder.stackPop i pc gas dest) ;;
  let destPC := JS.Number_of_bigint (Word256.value dest) in
  emit (fun i pc gas => TraceEventBuilder.jump i pc gas pc destPC false true) ;;
  if destPC >=? Z.of_nat (length bytecode) then halt INVALID_JUMP
  else if negb (bool_decide (destPC ∈ validJumpDests)) then halt INVALID_JUMP
  else setPc destPC.

Definition executeJUMPI (bytecode : list byte) (validJumpDests : gset Z) : M H unit :=
  chargeGas 10 ;;
  emit (fun i pc gas => TraceEventBuilder.gasCharge i pc gas 10 "JUMPI") ;;
  condition <- pop ;;
  emit (fun i pc gas => TraceEventBuilder.stackPop i pc gas condition) ;;
  dest <- pop ;;
  emit (fun i pc gas => TraceEventBuilder.stackPop i pc gas dest) ;;
  let shouldJump := negb (Word256.value condition =? 0) in
  let destPC := JS.Number_of_bigint (Word256.value dest) in
  emit (fun i pc gas => TraceEventBuilder.jump i pc gas pc destPC true shouldJump) ;;
  if negb shouldJump then advancePc 1
  else if destPC >=? Z.of_nat (length bytecode) then halt INVALID_JUMP
  else if negb (bool_decide (destPC ∈ validJumpDests)) then halt INVALID_JUMP
  else setPc destPC.

End ControlFlow.

(** ** [opcodes/stack.ts] *)

Section StackOps.
Context {H : Type}.

Definition executePOP : M H unit :=
  chargeGas 2 ;;
  emit (fun i pc gas => TraceEventBuilder.gasCharge i pc gas 2 "POP") ;;
  value <- pop ;;
  emit (fun i pc gas => TraceEventBuilder.stackPop i pc gas value) ;;
  advancePc 1.

Definition executeDUP (opcode : Z) : M H unit :=
  let n := opcode - 0x7f in
  chargeGas 3 ;;
  emit (fun i pc gas =>
          TraceEventBuilder.gasCharge i pc gas 3 ("DUP" +:+ JS.toString10 n)) ;;
  value <- peekAt (n - 1) ;;
  dup n ;;
  emit (fun i pc gas => TraceEventBuilder.stackPush i pc gas value) ;;
  advancePc 1.

(** No pop or push event is emitted for SWAP: the source treats it as one
    atomic in-place operation. *)
Definition executeSWAP (opcode : Z) : M H unit :=
  let n := opcode - 0x8f in
  chargeGas 3 ;;
  emit (fun i pc gas =>
          TraceEventBuilder.gasCharge i pc gas 3 ("SWAP" +:+ JS.toString10 n)) ;;
  swap n ;;
  advancePc 1.

End StackOps.

(** ** [opcodes/memory.ts] *)

(** [let value = 0n; for (b of data) value = (value << 8n) | BigInt(b)] *)
Definition bytesToBigInt (data : list byte) : Z :=
  fold_left (fun value b => Z.lor (Z.shiftl value 8) (JS.byte_to_Z b)) data 0.

Section MemoryOps.
Context {H : Type}.

Definition executeMLOAD : M H unit :=
  chargeGas 3 ;;
  emit (fun i pc gas => TraceEventBuilder.gasCharge i pc gas 3 "MLOAD") ;;
  offsetWord <- pop ;;
  emit (fun i pc gas => TraceEventBuilder.stackPop i pc gas offsetWord) ;;
  let offset := JS.Number_of_bigint (Word256.value offsetWord) in
  expansionCost <- expandMemory offset 32 ;;
  (if expansionCost >? 0 then
     chargeGas expansionCost ;;
     emit (fun i pc gas =>
             TraceEventBuilder.gasCharge i pc gas expansionCost
               "MLOAD memory expansion")
   else ret tt) ;;
  data <- readMemory offset 32 ;;
  emit (fun i pc gas => TraceEventBuilder.memoryRead i pc gas offset 32) ;;
  let value := bytesToBigInt data in
  (* pad with zeros if fewer than 32 bytes were read *)
  let value := Nat.iter (32 - length data) (fun v => Z.shiftl v 8) value in
  let result := Word256.from value in
  push result ;;
  emit (fun i pc gas => TraceEventBuilder.stackPush i pc gas result) ;;
  advancePc 1.

Definition executeMSTORE : M H unit :=
  chargeGas 3 ;;
  emit (fun i pc gas => TraceEventBuilder.gasCharge i pc gas 3 "MSTORE") ;;
  offsetWord <- pop ;;
  emit (fun i pc gas => TraceEventBuilder.stackPop i pc gas offsetWord) ;;
  value <- pop ;;
  emit (fun i pc gas => TraceEventBuilder.stackPop i pc gas value) ;;
  let offset := JS.Number_of_bigint (Word256.value offsetWord) in
  expansionCost <- expandMemory offset 32 ;;
  (if expansionCost >? 0 then
     chargeGas expansionCost ;;
     emit (fun i pc gas =>
             TraceEventBuilder.gasCharge i pc gas expansionCost
               "MSTORE memory expansion")
   else ret tt) ;;
  let bytes := Word256.toBytes_loop 32 (Word256.value value) [] in
  writeMemory offset bytes ;;
  emit (fun i pc gas => TraceEventBuilder.memoryWrite i pc gas offset bytes) ;;
  advancePc 1.

Definition executeMSTORE8 : M H unit :=
  chargeGas 3 ;;
  emit (fun i pc gas => TraceEventBuilder.gasCharge i pc gas 3 "MSTORE8") ;;
  offsetWord <- pop ;;
  emit (fun i pc gas => TraceEventBuilder.stackPop i pc gas offsetWord) ;;
  value <- pop ;;
  emit (fun i pc gas => TraceEventBuilder.stackPop i pc gas value) ;;
  let offset := JS.Number_of_bigint (Word256.value offsetWord) in
  expansionCost <- expandMemory offset 1 ;;
  (if expansionCost >? 0 then
     chargeGas expansionCost ;;
     emit (fun i pc gas =>
             TraceEventBuilder.gasCharge i pc gas expansionCost
               "MSTORE8 memory expansion")
   else ret tt) ;;
  let byte := [JS.byte_of_Z (Z.land (Word256.value value) 255)] in
  writeMemory offset byte ;;
  emit (fun i pc gas => TraceEventBuilder.memoryWrite i pc gas offset byte) ;;
  advancePc 1.

Definition executeMSIZE : M H unit :=
  chargeGas 2 ;;
  emit (fun i pc gas => TraceEventBuilder.gasCharge i pc gas 2 "MSIZE") ;;
  st <- currentState ;;
  let size := Word256.from (MachineState.getMemorySize st) in
  push size ;;
  emit (fun i pc gas => TraceEventBuilder.stackPush i pc gas size) ;;
  advancePc 1.

End MemoryOps.

(** ** [opcodes/data.ts] *)

(** [n] bytes of calldata from [offset] on, zero past the end:
    [data[i] = offset + i < calldata.length ? calldata[offset + i] : 0]. *)
Definition calldataWindow (calldata : list byte) (offset : Z) (n : nat) : list byte :=
  map (fun i =>
         if offset + Z.of_nat i <? Z.of_nat (length calldata)
         then nth (Z.to_nat (offset + Z.of_nat i)) calldata x00
         else x00)
      (seq 0 n).

Section DataOps.
Context {H : Type}.

Definition executeCALLDATALOAD (calldata : list byte) : M H unit :=
  chargeGas 3 ;;
  emit (fun i pc gas => TraceEventBuilder.gasCharge i pc gas 3 "CALLDATALOAD") ;;
  offsetWord <- pop ;;
  emit (fun i pc gas => TraceEventBuilder.stackPop i pc gas offsetWord) ;;
  let offset := JS.Number_of_bigint (Word256.value offsetWord) in
  let data := calldataWindow calldata offset 32 in
  let result := Word256.from (bytesToBigInt data) in
  push result ;;
  emit (fun i pc gas => TraceEventBuilder.stackPush i pc gas result) ;;
  advancePc 1.

Definition executeCALLDATASIZE (calldata : list byte) : M H unit :=
  chargeGas 2 ;;
  emit (fun i pc gas => TraceEventBuilder.gasCharge i pc gas 2 "CALLDATASIZE") ;;
  let size := Word256.from (Z.of_nat (length calldata)) in
  push size ;;
  emit (fun i pc gas => TraceEventBuilder.stackPush i pc gas size) ;;
  advancePc 1.

Definition executeCALLDATACOPY (calldata : list byte) : M H unit :=
  chargeGas 3 ;;
  emit (fun i pc gas => TraceEventBuilder.gasCharge i pc gas 3 "CALLDATACOPY") ;;
  destOffsetWord <- pop ;;
  emit (fun i pc gas => TraceEventBuilder.stackPop i pc gas destOffsetWord) ;;
  offsetWord <- pop ;;
  emit (fun i pc gas => TraceEventBuilder.stackPop i pc gas offsetWord) ;;
  lengthWord <- pop ;;
  emit (fun i pc gas => TraceEventBuilder.stackPop i pc gas lengthWord) ;;
  let destOffset := JS.Number_of_bigint (Word256.value destOffsetWord) in
  let offset := JS.Number_of_bigint (Word256.value offsetWord) in
  let len := JS.Number_of_bigint (Word256.value lengthWord) in
  let wordCount := JS.ceil_div32 len in
  let copyGas := wordCount * 3 in
  (if copyGas >? 0 then
     chargeGas copyGas ;;
     emit (fun i pc gas =>
             TraceEventBuilder.gasCharge i pc gas copyGas "CALLDATACOPY copy cost")
   else ret tt) ;;
  (if len >? 0 then
     expansionCost <- expandMemory destOffset len ;;
     if expansionCost >? 0 then
       chargeGas expansionCost ;;
       emit (fun i pc gas =>
               TraceEventBuilder.gasCharge i pc gas expansionCost
                 "CALLDATACOPY memory expansion")
     else ret tt
   else ret tt) ;;
  (* const data = new Uint8Array(length) *)
  (if len >? JS.MAX_TYPED_ARRAY_LENGTH
   then throw (JS.RangeError "Invalid typed array length")
   else ret tt) ;;
  let data := calldataWindow calldata offset (Z.to_nat len) in
  (if len >? 0 then
     writeMemory destOffset data ;;
     emit (fun i pc gas => TraceEventBuilder.memoryWrite i pc gas destOffset data)
   else ret tt) ;;
  advancePc 1.

Definition executeRETURN : M H unit :=
  offsetWord <- pop ;;
  emit (fun i pc gas => TraceEventBuilder.stackPop i pc gas offsetWord) ;;
  lengthWord <- pop ;;
  emit (fun i pc gas => TraceEventBuilder.stackPop i pc gas lengthWord) ;;
  let offset := JS.Number_of_bigint (Word256.value offsetWord) in
  let len := JS.Number_of_bigint (Word256.value lengthWord) in
  (if len >? 0 then
     expansionCost <- expandMemory offset len ;;
     (if expansionCost >? 0 then
        chargeGas expansionCost ;;
        emit (fun i pc gas =>
                TraceEventBuilder.gasCharge i pc gas expansionCost
                  "RETURN memory expansion")
      else ret tt) ;;
     data <- readMemory offset len ;;
     setReturnData data
   else setReturnData []) ;;
  halt RETURN.

Definition executeREVERT : M H unit :=
  offsetWord <- pop ;;
  emit (fun i pc gas => TraceEventBuilder.stackPop i pc gas offsetWord) ;;
  lengthWord <- pop ;;
  emit (fun i pc gas => TraceEventBuilder.stackPop i pc gas lengthWord) ;;
  let offset := JS.Number_of_bigint (Word256.value offsetWord) in
  let len := JS.Number_of_bigint (Word256.value lengthWord) in
  (if len >? 0 then
     expansionCost <- expandMemory offset len ;;
     (if expansionCost >? 0 then
        chargeGas expansionCost ;;
        emit (fun i pc gas =>
                TraceEventBuilder.gasCharge i pc gas expansionCost
                  "REVERT memory expansion")
      else ret tt) ;;
     data <- readMemory offset len ;;
     setReturnData data
   else setReturnData []) ;;
  halt REVERT.

End DataOps.

(** ** [opcodes/storage.ts] and [opcodes/logging.ts] *)

Section HostOps.
Context {H : Type} `{Host H}.

Definition hostGetAddress : M H Address.t :=
  fun o => (o, Normal (getAddress (host o))).

Definition hostSload (a : Address.t) (key : Word256.t) : M H Word256.t :=
  fun o => (o, Normal (sload (host o) a key)).

Definition hostSstore (a : Address.t) (key value : Word256.t) : M H unit :=
  fun o =>
    (mkObjects (state o) (stack o) (trace o) (sstore (host o) a key value),
     Normal tt).

Definition hostLog (entry : LogEntry) : M H unit :=
  fun o =>
    (mkObjects (state o) (stack o) (trace o) (log (host o) entry), Normal tt).

Definition executeSLOAD : M H unit :=
  chargeGas 200 ;;
  key <- pop ;;
  address <- hostGetAddress ;;
  value <- hostSload address key ;;
  emit (fun i pc gas => TraceEventBuilder.storageRead i pc gas address key value) ;;
  push value ;;
  advancePc 1.

Definition executeSSTORE : M H unit :=
  key <- pop ;;
  value <- pop ;;
  address <- hostGetAddress ;;
  currentValue <- hostSload address key ;;
  let gasCost :=
    if Word256.isZero currentValue && negb (Word256.isZero value)
    then 20000 else 5000 in
  chargeGas gasCost ;;
  emit (fun i pc gas => TraceEventBuilder.storageWrite i pc gas address key value) ;;
  hostSstore address key value ;;
  advancePc 1.

(** The call [TraceEventBuilder.log(trace.getNextIndex(), state.pc,
    state.gasRemaining, address, topics, data)]: the arguments are
    evaluated, which advances the index counter, and the call fails. *)
Definition callTraceEventBuilderLog (address : Address.t)
           (topics : list Word256.t) (data : list byte) : M H TraceEvent :=
  index <- getNextIndex ;;
  st <- currentState ;;
  throw TraceEventBuilder.log_is_not_a_function.

(** The part that LOG0..LOG4 share once the operands are popped;
    [topicGas] is [t * 375] for [t] topics. *)
Definition logTail (offset len topicGas : Z) (topics : list Word256.t) : M H unit :=
  let gasCost := 375 + topicGas in
  let gasCost := gasCost + 8 * len in
  expansionCost <- expandMemory offset len ;;
  let gasCost := gasCost + expansionCost in
  chargeGas gasCost ;;
  data <- readMemory offset len ;;
  address <- hostGetAddress ;;
  hostLog {| log_address := address; log_topics := topics; log_data := data |} ;;
  event <- callTraceEventBuilderLog address topics data ;;
  record event ;;
  advancePc 1.

Definition executeLOG0 : M H unit :=
  offsetWord <- pop ;;
  let offset := JS.Number_of_bigint (Word256.value offsetWord) in
  lengthWord <- pop ;;
  let len := JS.Number_of_bigint (Word256.value lengthWord) in
  logTail offset len 0 [].

Definition executeLOG1 : M H unit :=
  offsetWord <- pop ;;
  let offset := JS.Number_of_bigint (Word256.value offsetWord) in
  lengthWord <- pop ;;
  let len := JS.Number_of_bigint (Word256.value lengthWord) in
  topic0 <- pop ;;
  logTail offset len 375 [topic0].

Definition executeLOG2 : M H unit :=
  offsetWord <- pop ;;
  let offset := JS.Number_of_bigint (Word256.value offsetWord) in
  lengthWord <- pop ;;
  let len := JS.Number_of_bigint (Word256.value lengthWord) in
  topic0 <- pop ;;
  topic1 <- pop ;;
  logTail offset len (2 * 375) [topic0; topic1].

Definition executeLOG3 : M H unit :=
  offsetWord <- pop ;;
  let offset := JS.Number_of_bigint (Word256.value offsetWord) in
  lengthWord <- pop ;;
  let len := JS.Number_of_bigint (Word256.value lengthWord) in
  topic0 <- pop ;;
  topic1 <- pop ;;
  topic2 <- pop ;;
  logTail offset len (3 * 375) [topic0; topic1; topic2].

Definition executeLOG4 : M H unit :=
  offsetWord <- pop ;;
  let offset := JS.Number_of_bigint (Word256.value offsetWord) in
  lengthWord <- pop ;;
  let len := JS.Number_of_bigint (Word256.value lengthWord) in
  topic0 <- pop ;;
  topic1 <- pop ;;
  topic2 <- pop ;;
  topic3 <- pop ;;
  logTail offset len (4 * 375) [topic0; topic1; topic2; topic3].

End HostOps.

(** ** [interpreter/Interpreter.ts] *)

Module Interpreter.
Section WithHost.
Context {H : Type} `{Host H}.

Record InterpreterConfig : Type := mkConfig {
  config_bytecode : list byte;
  config_initialGas : Z;
  config_calldata : option (list byte);
  config_host : H
}.

(** [state], [stack], [trace] and [host] are the fields of [objs]. *)
Record t : Type := mk {
  bytecode : list byte;
  calldata : list byte;
  objs : Objects H;
  validJumpDests : gset Z
}.

Definition new (config : InterpreterConfig) : t :=
  {| bytecode := config_bytecode config;
     calldata := default [] (config_calldata config);
     objs := mkObjects (MachineState.new (config_initialGas config))
                       Stack.new TraceCollector.new (config_host config);
     validJumpDests := buildJumpDestinations (config_bytecode config) |}.

Definition getState (i : t) : MachineState.t := state (objs i).
Definition getStack (i : t) : Stack.t := stack (objs i).
Definition getTrace (i : t) : TraceCollector.t := trace (objs i).
Definition getHost (i : t) : H := host (objs i).
Definition isHalted (i : t) : bool := MachineState.halted (getState i).
Definition getHaltReason (i : t) : option HaltReason :=
  MachineState.haltReason (getState i).

(** Runs a computation on the interpreter's objects. *)
Definition on (i : t) {A} (m : M H A) : t * Completion A :=
  let '(o, r) := m (objs i) in
  ({| bytecode := bytecode i; calldata := calldata i; objs := o;
      validJumpDests := validJumpDests i |}, r).

(** [bytecode[i]]; [None] is [undefined]. *)
Definition byteAt (code : list byte) (i : Z) : option Z :=
  if i <? 0 then None else JS.byte_to_Z <$> code !! Z.to_nat i.

Definition executePush (code : list byte) (opcode : Z) : M H unit :=
  let numBytes := Opcode.getPushBytes opcode in
  chargeGas 3 ;;
  emit (fun i pc gas =>
          TraceEventBuilder.gasCharge i pc gas 3 ("PUSH" +:+ JS.toString10 numBytes)) ;;
  st <- currentState ;;
  let value :=
    fold_left
      (fun value i =>
         if MachineState.pc st + Z.of_nat i <? Z.of_nat (length code)
         then Z.lor (Z.shiftl value 8)
                    (default 0 (byteAt code (MachineState.pc st + Z.of_nat i)))
         else Z.shiftl value 8)
      (seq 1 (Z.to_nat numBytes)) 0 in
  let word := Word256.from value in
  push word ;;
  emit (fun i pc gas => TraceEventBuilder.stackPush i pc gas word) ;;
  advancePc (1 + numBytes).

Definition executeOpcode (code data : list byte) (dests : gset Z) (opcode : Z)
  : M H unit :=
  if Opcode.isPushOpcode opcode then executePush code opcode
  else if (opcode >=? 0x80) && (opcode <=? 0x8f) then executeDUP opcode
  else if (opcode >=? 0x90) && (opcode <=? 0x9f) then executeSWAP opcode
  else if opcode =? Opcode.STOP then executeStop
  else if opcode =? Opcode.ADD then executeAdd
  else if opcode =? Opcode.MUL then executeMul
  else if opcode =? Opcode.SUB then executeSub
  else if opcode =? Opcode.DIV then executeDiv
  else if opcode =? Opcode.POP then executePOP
  else if opcode =? Opcode.MLOAD then executeMLOAD
  else if opcode =? Opcode.MSTORE then executeMSTORE
  else if opcode =? Opcode.MSTORE8 then executeMSTORE8
  else if opcode =? Opcode.MSIZE then executeMSIZE
  else if opcode =? Opcode.CALLDATALOAD then executeCALLDATALOAD data
  else if opcode =? Opcode.CALLDATASIZE then executeCALLDATASIZE data
  else if opcode =? Opcode.CALLDATACOPY then executeCALLDATACOPY data
  else if opcode =? Opcode.RETURN then executeRETURN
  else if opcode =? Opcode.REVERT then executeREVERT
  else if opcode =? Opcode.PC then executePC
  else if opcode =? Opcode.JUMP then executeJUMP code dests
  else if opcode =? Opcode.JUMPI then executeJUMPI code dests
  else if opcode =? Opcode.JUMPDEST then executeJUMPDEST
  else if opcode =? Opcode.SLOAD then executeSLOAD
  else if opcode =? Opcode.SSTORE then executeSSTORE
  else if opcode =? Opcode.LOG0 then executeLOG0
  else if opcode =? Opcode.LOG1 then executeLOG1
  else if opcode =? Opcode.LOG2 then executeLOG2
  else if opcode =? Opcode.LOG3 then executeLOG3
  else if opcode =? Opcode.LOG4 then executeLOG4
  else halt INVALID_OPCODE.

(** The [try { ... } catch (error) { ... }] of [step]. *)
Definition tryDispatch (m : M H unit) : M H unit :=
  fun o =>
    match m o with
    | (o1, Normal _) => (o1, Normal tt)
    | (o1, Throw error) =>
        if JS.instanceof_StackError error then
          let reason :=
            if JS.includes "overflow" (JS.message error)
            then STACK_OVERFLOW else STACK_UNDERFLOW in
          halt reason o1
        else if String.eqb (JS.message error) "Out of gas" then
          (o1, Normal tt) (* already halted in chargeGas *)
        else (o1, Throw error)
    end.

Definition step (i : t) : t * Completion bool :=
  if MachineState.halted (getState i) then (i, Normal false)
  else if MachineState.pc (getState i) >=? Z.of_nat (length (bytecode i)) then
    on i (halt STOP ;;
          emit (fun idx pc gas => TraceEventBuilder.halt idx pc gas STOP) ;;
          ret false)
  else
    match byteAt (bytecode i) (MachineState.pc (getState i)) with
    | None =>
        (* [getOpcodeName(undefined)] reads [undefined.toString] *)
        (i, Throw (JS.TypeError
                     "Cannot read properties of undefined (reading 'toString')"))
    | Some opcode =>
        let opcodeName := Opcode.getOpcodeName opcode in
        on i (emit (fun idx pc gas =>
                      TraceEventBuilder.opcodeStart idx pc gas opcode opcodeName) ;;
              tryDispatch
                (executeOpcode (bytecode i) (calldata i) (validJumpDests i) opcode) ;;
              st <- currentState ;;
              match MachineState.halted st, MachineState.haltReason st with
              | true, Some reason =>
                  emit (fun idx pc gas => TraceEventBuilder.halt idx pc gas reason) ;;
                  ret false
              | _, _ => ret (negb (MachineState.halted st))
              end)
    end.

(** How [run] ends: it returns, it lets an exception escape, or the loop
    is still going when the fuel of the model is spent. *)
Inductive RunOutcome : Type :=
| Returned
| Raised (e : JS.Exn)
| Running.

(** [while (this.step()) {}], at most [fuel] calls of [step]. *)
Fixpoint run (fuel : nat) (i : t) : t * RunOutcome :=
  match fuel with
  | O => (i, Running)
  | S fuel' =>
      match step i with
      | (i1, Throw e) => (i1, Raised e)
      | (i1, Normal true) => run fuel' i1
      | (i1, Normal false) => (i1, Returned)
      end
  end.

End WithHost.
End Interpreter.

(** ** Notions used to state the properties *)

(** *** Gas accounting over a trace *)

(** The amount of a [gas.charge] event, read back as the tests do:
    [BigInt(event.amount)]. Any other value counts for nothing. *)
Definition gasChargeAmount (e : TraceEvent) : Z :=
  match prop "amount" e with
  | Some (JSString s) => default 0 (JS.BigInt_of_decimal s)
  | _ => 0
  end.

(** [getEventsByType('gas.charge').reduce((sum, e) => sum + BigInt(e.amount), 0n)] *)
Definition totalGasCharged (c : TraceCollector.t) : Z :=
  fold_left (fun sum e => sum + gasChargeAmount e)
            (TraceCollector.getEventsByType c "gas.charge") 0.

(** *** The order of the events of one handler *)

Definition hasType (type : string) (e : TraceEvent) : bool :=
  match event_type e with
  | Some s => String.eqb s type
  | None => false
  end.

Definition isGasCharge : TraceEvent -> bool := hasType "gas.charge".
Definition isStackPop : TraceEvent -> bool := hasType "stack.pop".
Definition isStackPush : TraceEvent -> bool := hasType "stack.push".

(** Events of a side effect: memory, storage, jump, log. *)
Definition isSideEffect (e : TraceEvent) : bool :=
  hasType "memory.write" e || hasType "memory.read" e
  || hasType "storage.read" e || hasType "storage.write" e
  || hasType "jump" e || hasType "log" e.

(** After the pops: dynamic gas charges and side effects in any order, then
    only pushes. *)
Fixpoint pushesOnly (evs : list TraceEvent) : bool :=
  match evs with
  | [] => true
  | e :: rest => isStackPush e && pushesOnly rest
  end.

Fixpoint dynamicThenPushes (evs : list TraceEvent) : bool :=
  match evs with
  | [] => true
  | e :: rest =>
      if isGasCharge e || isSideEffect e then dynamicThenPushes rest
      else pushesOnly evs
  end.

Fixpoint popsThenRest (evs : list TraceEvent) : bool :=
  match evs with
  | [] => true
  | e :: rest => if isStackPop e then popsThenRest rest else dynamicThenPushes evs
  end.

(** The order as the specification words it: the baseline gas charge first,
    then the pops, then dynamic charges and side effects, then the pushes. *)
Definition orderedWithBaseline (evs : list TraceEvent) : bool :=
  match evs with
  | [] => false
  | e :: rest => isGasCharge e && popsThenRest rest
  end.

(** The same order for a handler that may have stopped before its baseline
    charge was recorded ([evs] empty), or that has no baseline charge
    ([baseline = false]). *)
Definition handlerOrder (baseline : bool) (evs : list TraceEvent) : bool :=
  match evs with
  | [] => true
  | _ => if baseline then orderedWithBaseline evs else popsThenRest evs
  end.

(** The [value] fields of the events of one type, in trace order. *)
Definition valuesOf (type : string) (evs : list TraceEvent) : list (option JSValue) :=
  map (prop "value") (List.filter (hasType type) evs).

Definition hexValues (ws : list Word256.t) : list (option JSValue) :=
  map (fun w => Some (JSString (Word256.toHexWith0x w))) ws.

(** The opcodes whose handler starts with a gas charge of a fixed non-zero
    amount. STOP, RETURN and REVERT have none, nor has the default case of
    the dispatcher. *)
Definition hasBaseline (opcode : Z) : bool :=
  Opcode.isPushOpcode opcode
  || ((opcode >=? 0x80) && (opcode <=? 0x9f))
  || existsb (Z.eqb opcode)
       [Opcode.ADD; Opcode.MUL; Opcode.SUB; Opcode.DIV; Opcode.POP;
        Opcode.MLOAD; Opcode.MSTORE; Opcode.MSTORE8; Opcode.MSIZE;
        Opcode.CALLDATALOAD; Opcode.CALLDATASIZE; Opcode.CALLDATACOPY;
        Opcode.PC; Opcode.JUMP; Opcode.JUMPI; Opcode.JUMPDEST].

Definition isStorageOrLog (opcode : Z) : bool :=
  existsb (Z.eqb opcode)
    [Opcode.SLOAD; Opcode.SSTORE; Opcode.LOG0; Opcode.LOG1; Opcode.LOG2;
     Opcode.LOG3; Opcode.LOG4].

Definition isSwap (opcode : Z) : bool := (opcode >=? 0x90) && (opcode <=? 0x9f).

(** *** Trace content up to the rendering of bigints *)

(** [sameContent v j]: [j] is [v] with every bigint replaced by a decimal
    string that reads back as that bigint. *)
#[warnings="-register-all"] Inductive sameContent : JSValue -> JSValue -> Prop :=
| sc_number n : sameContent (JSNumber n) (JSNumber n)
| sc_string s : sameContent (JSString s) (JSString s)
| sc_boolean b : sameContent (JSBoolean b) (JSBoolean b)
| sc_bigint z s :
    JS.BigInt_of_decimal s = Some z -> sameContent (JSBigInt z) (JSString s)
| sc_array vs js :
    Forall2 sameContent vs js -> sameContent (JSArray vs) (JSArray js)
| sc_object ps qs :
    Forall2 (fun p q => fst p = fst q /\ sameContent (snd p) (snd q)) ps qs ->
    sameContent (JSObject ps) (JSObject qs).

(** The round trip as the specification words it. *)
Definition roundTripsExactly (c : TraceCollector.t) : Prop :=
  exists c',
    TraceCollector.fromJSON (TraceCollector.toJSON c) = Normal c'
    /\ TraceCollector.events c' = TraceCollector.events c
    /\ TraceCollector.getEventCount c' = TraceCollector.getEventCount c
    /\ TraceCollector.nextIndex c' = Z.of_nat (length (TraceCollector.events c)).

(** *** Instruction boundaries *)

(** [reach code i j]: decoding from index [i], one instruction after the
    other, arrives at index [j]. *)
Inductive reach (code : list byte) : Z -> Z -> Prop :=
| reach_here i : reach code i i
| reach_next i b j :
    Interpreter.byteAt code i = Some b ->
    reach code (i + 1 + Opcode.getPushBytes b) j ->
    reach code i j.

(** An index where an opcode starts, as opposed to one inside the immediate
    data of a PUSH. *)
Definition opcodePosition (code : list byte) (j : Z) : Prop := reach code 0 j.

(** [i] lies in the immediate data of the PUSH at opcode position [p]. *)
Definition insidePushData (code : list byte) (i : Z) : Prop :=
  exists p b,
    opcodePosition code p
    /\ Interpreter.byteAt code p = Some b
    /\ Opcode.isPushOpcode b = true
    /\ p < i <= p + Opcode.getPushBytes b.

(** *** Concrete programs *)

Definition bytes (l : list Z) : list byte := map JS.byte_of_Z l.

(** An interpreter over a fresh [MemoryHost], as the tests build it. *)
Definition interpreterFor (code : list Z) (initialGas : Z) : @Interpreter.t MemoryHost.t :=
  Interpreter.new
    (Interpreter.mkConfig (bytes code) initialGas None (MemoryHost.new None)).

(** *** What a handler records, and what it leaves alone *)

(** [recordsInOrder baseline swaps m]: whatever [m] does, the events it adds
    to the trace are in the order of [handlerOrder baseline]; when [m]
    completes and has a baseline charge, that event is there; the StackPop
    events carry the words taken from the top of the stack, in order, and
    the StackPush events the words put on it. A SWAP ([swaps = true])
    rearranges the stack in place and records neither. *)
Definition recordsInOrder {H A} (baseline swaps : bool) (m : M H A) : Prop :=
  forall o o' r,
    m o = (o', r) ->
    exists evs popped pushed rest,
      TraceCollector.events (trace o') = TraceCollector.events (trace o) ++ evs
      /\ handlerOrder baseline evs = true
      /\ (forall a, r = Normal a -> baseline = true -> evs <> [])
      /\ Stack.items (stack o) = popped ++ rest
      /\ valuesOf "stack.pop" evs = hexValues popped
      /\ valuesOf "stack.push" evs = hexValues pushed
      /\ length (Stack.items (stack o')) = (length pushed + length rest)%nat
      /\ (swaps = false -> Stack.items (stack o') = rev pushed ++ rest).

(** The order as the specification claims it for every handler that
    completes. *)
Definition recordsInClaimedOrder {H A} (m : M H A) : Prop :=
  forall o o' a,
    m o = (o', Normal a) ->
    exists evs,
      TraceCollector.events (trace o') = TraceCollector.events (trace o) ++ evs
      /\ orderedWithBaseline evs = true.

(** [m] leaves the [stack] field of the machine state as it found it. *)
Definition keepsStateStack {H A} (m : M H A) : Prop :=
  forall o, MachineState.stack (state (fst (m o))) = MachineState.stack (state o).

(** *** Gas charged by one computation *)

(** The sum of the amounts of the [gas.charge] events of a list. *)
Definition sumCharges (evs : list TraceEvent) : Z :=
  fold_left (fun sum e => sum + gasChargeAmount e)
            (List.filter (hasType "gas.charge") evs) 0.

(** [chargesRecorded m]: the gas that [m] takes from the machine is the sum
    of the GasCharge events that it records. *)
Definition chargesRecorded {H A} (m : M H A) : Prop :=
  forall o o' r,
    m o = (o', r) ->
    exists evs,
      TraceCollector.events (trace o') = TraceCollector.events (trace o) ++ evs
      /\ MachineState.gasRemaining (state o) - MachineState.gasRemaining (state o')
         = sumCharges evs.

(** No byte of the code is the opcode of SLOAD, SSTORE or LOG0..LOG4. *)
Definition withoutStorageAndLog (code : list byte) : Prop :=
  Forall (fun b => isStorageOrLog (JS.byte_to_Z b) = false) code.

(** The state of an interpreter after a step that ran a handler to a halt. *)
Definition haltedBy {H : Type} (i : @Interpreter.t H) (consumed : Z)
           (rest : list Word256.t) (handlerEvents : Z -> list TraceEvent)
           (count : Z) (reason : HaltReason) : @Interpreter.t H :=
  let st := Interpreter.getState i in
  let tr := Interpreter.getTrace i in
  let idx := TraceCollector.nextIndex tr in
  let gas := MachineState.gasRemaining st - consumed in
  {| Interpreter.bytecode := Interpreter.bytecode i;
     Interpreter.calldata := Interpreter.calldata i;
     Interpreter.objs :=
       mkObjects
         (MachineState.halt (MachineState.set_gasRemaining st gas) reason)
         (Stack.mk rest)
         (TraceCollector.mk
            (TraceCollector.events tr ++ handlerEvents idx
             ++ [TraceEventBuilder.halt (idx + count) (MachineState.pc st) gas reason])
            (idx + count + 1))
         (Interpreter.getHost i);
     Interpreter.validJumpDests := Interpreter.validJumpDests i |}.


(** An ADD on the stack [3; 5]. *)
Definition addObjects : Objects MemoryHost.t :=
  mkObjects (MachineState.new 100)
            (Stack.mk [Word256.from 3; Word256.from 5])
            TraceCollector.new (MemoryHost.new None).

(** A RETURN of 32 bytes of fresh memory. *)
Definition returnObjects : Objects MemoryHost.t :=
  mkObjects (MachineState.new 100)
            (Stack.mk [Word256.from 0; Word256.from 32])
            TraceCollector.new (MemoryHost.new None).

(** The interpreter of [60 5b 60 01 56] after its two PUSH1: the stack
    holds the destination 1, the index of a 0x5B byte that is the immediate
    data of the first PUSH1, and JUMP is next. *)
Definition jumpIntoPushData : @Interpreter.t MemoryHost.t :=
  fst (Interpreter.step
         (fst (Interpreter.step (interpreterFor [0x60; 0x5b; 0x60; 0x01; 0x56] 100)))).

(** *** Relations that every handler maintains *)

(** The exception a call ended with, if any. *)
Definition thrown {A} (r : Completion A) : option JS.Exn :=
  match r with
  | Normal _ => None
  | Throw e => Some e
  end.

Definition raised (r : Interpreter.RunOutcome) : option JS.Exn :=
  match r with
  | Interpreter.Raised e => Some e
  | Interpreter.Returned | Interpreter.Running => None
  end.

(** [upholds R m]: however [m] ends, [R] relates the objects before, the
    objects after and the exception thrown. *)
Definition upholds {H A} (R : Objects H -> Objects H -> option JS.Exn -> Prop)
           (m : M H A) : Prop :=
  forall o, R o (fst (m o)) (thrown (snd (m o))).

(** Every builder of [TraceEventBuilder] stores its first argument in the
    [index] field. *)
Definition wellBuilt (mk : Z -> Z -> Z -> TraceEvent) : Prop :=
  forall index pc gas, prop "index" (mk index pc gas) = Some (JSNumber index).

(** What it takes for [R] to hold of every handler, of [step] and of [run]:
    it composes along a sequence of statements, it survives the [catch] of
    [step], and each operation on the state, the stack, the trace and the
    host maintains it. *)
Record Upheld {H : Type} {HH : Host H}
       (R : Objects H -> Objects H -> option JS.Exn -> Prop) : Prop := {
  upheld_refl : forall o, R o o None;
  upheld_seq : forall o1 o2 o3 x, R o1 o2 None -> R o2 o3 x -> R o1 o3 x;
  upheld_raise : forall o e,
    JS.instanceof_StackError e = false -> JS.message e <> "Out of gas" ->
    R o o (Some e);
  upheld_catch_stack : forall o1 o2 msg reason,
    R o1 o2 (Some (JS.StackError msg)) -> R o1 (fst (halt reason o2)) None;
  upheld_catch_gas : forall o1 o2 e,
    JS.instanceof_StackError e = false -> JS.message e = "Out of gas" ->
    R o1 o2 (Some e) -> R o1 o2 None;
  upheld_chargeGas : forall amount, upholds R (chargeGas amount);
  upheld_halt : forall reason, upholds R (halt reason);
  upheld_setPc : forall v, upholds R (setPc v);
  upheld_advancePc : forall n, upholds R (advancePc n);
  upheld_setReturnData : forall d, upholds R (setReturnData d);
  upheld_expandMemory : forall offset len, upholds R (expandMemory offset len);
  upheld_readMemory : forall offset len, upholds R (readMemory offset len);
  upheld_writeMemory : forall offset data, upholds R (writeMemory offset data);
  upheld_push : forall w, upholds R (push w);
  upheld_pop : upholds R pop;
  upheld_peekAt : forall d, upholds R (peekAt d);
  upheld_dup : forall n, upholds R (dup n);
  upheld_swap : forall n, upholds R (swap n);
  upheld_emit : forall mk, wellBuilt mk -> upholds R (emit mk);
  upheld_callTraceEventBuilderLog : forall a topics data,
    upholds R (callTraceEventBuilderLog a topics data);
  upheld_hostSstore : forall a k v, upholds R (hostSstore a k v);
  upheld_hostLog : forall entry, upholds R (hostLog entry)
}.

(** *** Invariants of an execution *)

(** The gas left is not negative. *)
Definition gasNonNegative {H} (o o' : Objects H) (x : option JS.Exn) : Prop :=
  0 <= MachineState.gasRemaining (state o) ->
  0 <= MachineState.gasRemaining (state o').

(** The operand stack holds at most [MAX_STACK_DEPTH] words. *)
Definition depthBounded {H} (o o' : Objects H) (x : option JS.Exn) : Prop :=
  Stack.depth (stack o) <= MAX_STACK_DEPTH ->
  Stack.depth (stack o') <= MAX_STACK_DEPTH.

(** The trace only grows: the events recorded so far stay, in place, and
    the index counter does not go back. *)
Definition appendOnly {H} (o o' : Objects H) (x : option JS.Exn) : Prop :=
  (exists evs,
     TraceCollector.events (trace o') = TraceCollector.events (trace o) ++ evs)
  /\ TraceCollector.nextIndex (trace o) <= TraceCollector.nextIndex (trace o').

(** A halted machine has a halt reason. *)
Definition haltedWithReason (st : MachineState.t) : Prop :=
  MachineState.halted st = true -> MachineState.haltReason st <> None.

Definition keepsHaltReason {H} (o o' : Objects H) (x : option JS.Exn) : Prop :=
  haltedWithReason (state o) -> haltedWithReason (state o').

(** The event at position [k] of the trace has index [k]. *)
Definition numberedEvents (c : TraceCollector.t) : Prop :=
  forall (k : nat) e,
    TraceCollector.events c !! k = Some e ->
    prop "index" e = Some (JSNumber (Z.of_nat k)).

(** The same, and the next index to hand out is the number of events. *)
Definition numbered (c : TraceCollector.t) : Prop :=
  numberedEvents c
  /\ TraceCollector.nextIndex c = Z.of_nat (length (TraceCollector.events c)).

(** The numbering is kept; the one call that takes an index without
    recording an event is the failing [TraceEventBuilder.log]. *)
Definition keepsNumbering {H} (o o' : Objects H) (x : option JS.Exn) : Prop :=
  numbered (trace o) ->
  numberedEvents (trace o')
  /\ (x <> Some TraceEventBuilder.log_is_not_a_function -> numbered (trace o')).

(** An error with the message of [chargeGas] leaves the machine halted. *)
Definition outOfGasHalts {H} (o o' : Objects H) (x : option JS.Exn) : Prop :=
  forall e,
    x = Some e -> JS.instanceof_StackError e = false ->
    JS.message e = "Out of gas" ->
    MachineState.halted (state o') = true.

(** *** Gas as a measure of progress *)

(** [spends n m]: when [m] completes, it has taken at least [n] gas. *)
Definition spends {H A} (n : Z) (m : M H A) : Prop :=
  forall o o' a,
    m o = (o', Normal a) ->
    MachineState.gasRemaining (state o') + n <= MachineState.gasRemaining (state o).

(** [endsHalted m]: when [m] completes, the machine is halted. *)
Definition endsHalted {H A} (m : M H A) : Prop :=
  forall o o' a, m o = (o', Normal a) -> MachineState.halted (state o') = true.

(** [neverCompletes m]: [m] always throws. *)
Definition neverCompletes {H A} (m : M H A) : Prop :=
  forall o o' a, m o <> (o', Normal a).

(** A handler that completes has halted the machine or has taken gas. *)
Definition haltsOrSpends {H A} (m : M H A) : Prop :=
  forall o o' a,
    m o = (o', Normal a) ->
    MachineState.halted (state o') = true
    \/ MachineState.gasRemaining (state o') + 1
       <= MachineState.gasRemaining (state o).

(** *** Congruence modulo [n] *)

(** The congruence [eqm n] of the Standard Library, with the operations of
    [Word256] that respect it, for rewriting. *)
#[local] Instance eqm_equivalence (n : Z) : Equivalence (eqm n) := eqm_setoid n.
#[local] Instance eqm_add (n : Z) : Proper (eqm n ==> eqm n ==> eqm n) Z.add :=
  Zplus_eqm n.
#[local] Instance eqm_sub (n : Z) : Proper (eqm n ==> eqm n ==> eqm n) Z.sub :=
  Zminus_eqm n.
#[local] Instance eqm_mul (n : Z) : Proper (eqm n ==> eqm n ==> eqm n) Z.mul :=
  Zmult_eqm n.
#[local] Instance eqm_opp (n : Z) : Proper (eqm n ==> eqm n) Z.opp := Zopp_eqm n.

(** *** The outcome of one step *)

(** The opcodes for which [executeOpcode] has a case. *)
Definition hasHandler (opcode : Z) : bool :=
  Opcode.isPushOpcode opcode
  || ((opcode >=? 0x80) && (opcode <=? 0x8f))
  || ((opcode >=? 0x90) && (opcode <=? 0x9f))
  || existsb (Z.eqb opcode)
       [Opcode.STOP; Opcode.ADD; Opcode.MUL; Opcode.SUB; Opcode.DIV; Opcode.POP;
        Opcode.MLOAD; Opcode.MSTORE; Opcode.MSTORE8; Opcode.MSIZE;
        Opcode.CALLDATALOAD; Opcode.CALLDATASIZE; Opcode.CALLDATACOPY;
        Opcode.RETURN; Opcode.REVERT; Opcode.PC; Opcode.JUMP; Opcode.JUMPI;
        Opcode.JUMPDEST; Opcode.SLOAD; Opcode.SSTORE; Opcode.LOG0; Opcode.LOG1;
        Opcode.LOG2; Opcode.LOG3; Opcode.LOG4].

(** The state of an interpreter after a step that ran a handler to its end
    without halting: [consumed] gas is gone, the program counter is
    [newPc], the stack holds [items], and the step has recorded the [count]
    events [handlerEvents idx], [idx] being the first index it used. *)
Definition continuedBy {H : Type} (i : @Interpreter.t H) (consumed newPc : Z)
           (items : list Word256.t) (handlerEvents : Z -> list TraceEvent)
           (count : Z) : @Interpreter.t H :=
  let st := Interpreter.getState i in
  let tr := Interpreter.getTrace i in
  let idx := TraceCollector.nextIndex tr in
  let gas := MachineState.gasRemaining st - consumed in
  {| Interpreter.bytecode := Interpreter.bytecode i;
     Interpreter.calldata := Interpreter.calldata i;
     Interpreter.objs :=
       mkObjects
         (MachineState.set_pc (MachineState.set_gasRemaining st gas) newPc)
         (Stack.mk items)
         (TraceCollector.mk (TraceCollector.events tr ++ handlerEvents idx)
                            (idx + count))
         (Interpreter.getHost i);
     Interpreter.validJumpDests := Interpreter.validJumpDests i |}.

(** The four binary operations, each with its opcode, its gas, its name
    and the method of [Word256] it applies. *)
Definition binaryOperations
  : list (Z * Z * string * (Word256.t -> Word256.t -> Word256.t)) :=
  [(Opcode.ADD, 3, "ADD", Word256.add); (Opcode.MUL, 5, "MUL", Word256.mul);
   (Opcode.SUB, 3, "SUB", Word256.sub); (Opcode.DIV, 5, "DIV", Word256.div)].

(** The events of the pops a binary operation makes on a stack too short
    for it: none on an empty stack, one on a stack of one word. *)
Definition popsBeforeUnderflow (idx pc gas : Z) (items : list Word256.t)
  : list TraceEvent :=
  match items with
  | [] => []
  | x :: _ => [TraceEventBuilder.stackPop idx pc gas x]
  end.

(** * Properties *)

(** ** Word256 *)

Lemma MAX_UINT256_ones : MAX_UINT256 = Z.ones 256.
Proof. reflexivity. Qed.

Lemma Word256_new_value v : Word256.value (Word256.new v) = v mod 2 ^ 256.
Proof. unfold Word256.new; cbn [Word256.value]. rewrite MAX_UINT256_ones. apply Z.land_ones. lia. Qed.

Lemma Word256_new_range v : 0 <= Word256.value (Word256.new v) < 2 ^ 256.
Proof. rewrite Word256_new_value. apply Z.mod_pos_bound. lia. Qed.

Lemma Word256_new_idem v : Word256.new (Word256.value (Word256.new v)) = Word256.new v.
Proof.
  unfold Word256.new; cbn [Word256.value]. f_equal.
  rewrite <- Z.land_assoc, Z.land_diag. reflexivity.
Qed.

(** C5: Word256 arithmetic is modulo 2^256, with the guarded zero cases. *)
Theorem Word256_arithmetic_modular :
  (forall a b, Word256.value (Word256.add a b)
               = (Word256.value a + Word256.value b) mod 2 ^ 256)
  /\ (forall a b, Word256.value (Word256.sub a b)
                  = (Word256.value a - Word256.value b) mod 2 ^ 256)
  /\ (forall a b, Word256.value (Word256.mul a b)
                  = (Word256.value a * Word256.value b) mod 2 ^ 256)
  /\ Word256.add Word256.max Word256.one = Word256.zero
  /\ Word256.sub Word256.zero Word256.one = Word256.max
  /\ Word256.mul Word256.max (Word256.from 2) = Word256.from (MAX_UINT256 - 1)
  /\ (forall a, Word256.div a Word256.zero = Word256.zero)
  /\ (forall a, Word256.mod_ a Word256.zero = Word256.zero)
  /\ (forall a shift, 256 <= Word256.value shift ->
        Word256.shl a shift = Word256.zero /\ Word256.shr a shift = Word256.zero).
Proof.
  split; [intros a b; apply Word256_new_value |].
  split; [intros a b; apply Word256_new_value |].
  split; [intros a b; apply Word256_new_value |].
  split; [vm_compute; reflexivity |].
  split; [vm_compute; reflexivity |].
  split; [vm_compute; reflexivity |].
  split; [intros a; reflexivity |].
  split; [intros a; reflexivity |].
  intros a shift Hs. unfold Word256.shl, Word256.shr.
  destruct (Z.geb_spec (Word256.value shift) 256); [split; reflexivity | lia].
Qed.

Lemma Word256_arithmetic_modular_witness :
  256 <= Word256.value (Word256.from 256)
  /\ Word256.shl Word256.one (Word256.from 256) = Word256.zero
  /\ Word256.shr Word256.max (Word256.from 256) = Word256.zero.
Proof.
  assert (Hs : 256 <= Word256.value (Word256.from 256)) by (vm_compute; discriminate).
  split; [exact Hs |].
  pose proof Word256_arithmetic_modular as (_ & _ & _ & _ & _ & _ & _ & _ & Hshift).
  split.
  - exact (proj1 (Hshift Word256.one (Word256.from 256) Hs)).
  - exact (proj2 (Hshift Word256.max (Word256.from 256) Hs)).
Defined.

(** *** Bytes and big-endian folds *)

Lemma byte_to_Z_range b : 0 <= JS.byte_to_Z b < 256.
Proof.
  unfold JS.byte_to_Z. pose proof (Byte.to_N_bounded b). lia.
Qed.

Lemma byte_to_of_Z z : JS.byte_to_Z (JS.byte_of_Z z) = z mod 256.
Proof.
  unfold JS.byte_to_Z, JS.byte_of_Z.
  pose proof (Z.mod_pos_bound z 256 ltac:(lia)) as Hr.
  destruct (Byte.of_N (Z.to_N (z mod 256))) as [b|] eqn:E; simpl.
  - apply Byte.to_of_N in E. rewrite E. lia.
  - apply Byte.of_N_None_iff in E. lia.
Qed.

Lemma land_shiftl_low a b n : 0 <= n -> 0 <= b < 2 ^ n -> Z.land (Z.shiftl a n) b = 0.
Proof.
  intros Hn Hb. apply Z.bits_inj'. intros m Hm.
  rewrite Z.land_spec, Z.bits_0.
  destruct (Z.lt_ge_cases m n) as [Hlt | Hge].
  - rewrite Z.shiftl_spec_low by lia. reflexivity.
  - destruct (Z.eq_dec b 0) as [-> | Hnz];
      [rewrite Z.testbit_0_l; apply andb_false_r |].
    assert (Hlog : Z.log2 b < m).
    { apply Z.log2_lt_pow2; [lia |].
      apply Z.lt_le_trans with (2 ^ n); [lia |].
      apply Z.pow_le_mono_r; lia. }
    rewrite (Z.bits_above_log2 b m) by lia. apply andb_false_r.
Qed.

Lemma lor_shiftl_add a b n : 0 <= n -> 0 <= b < 2 ^ n -> Z.lor (Z.shiftl a n) b = a * 2 ^ n + b.
Proof.
  intros Hn Hb.
  rewrite <- Z.lxor_lor by (apply land_shiftl_low; assumption).
  rewrite <- Z.add_nocarry_lxor by (apply land_shiftl_low; assumption).
  rewrite Z.shiftl_mul_pow2 by lia. reflexivity.
Qed.

Lemma push_byte_add v b : Z.lor (Z.shiftl v 8) (JS.byte_to_Z b) = v * 256 + JS.byte_to_Z b.
Proof. rewrite lor_shiftl_add; [reflexivity | lia | apply byte_to_Z_range]. Qed.

Lemma toBytes_loop_length n : forall val acc,
  length (Word256.toBytes_loop n val acc) = (n + length acc)%nat.
Proof.
  induction n as [|k IH]; intros val acc; cbn [Word256.toBytes_loop]; [reflexivity |].
  rewrite IH. cbn [length]. lia.
Qed.

Lemma toBytes_loop_fold n : forall val acc init,
  fold_left (fun value b => Z.lor (Z.shiftl value 8) (JS.byte_to_Z b))
            (Word256.toBytes_loop n val acc) init
  = fold_left (fun value b => Z.lor (Z.shiftl value 8) (JS.byte_to_Z b)) acc
              (init * 2 ^ (8 * Z.of_nat n) + val mod 2 ^ (8 * Z.of_nat n)).
Proof.
  induction n as [|k IH]; intros val acc init.
  - cbn [Word256.toBytes_loop]. f_equal. change (2 ^ (8 * Z.of_nat 0)) with 1.
    rewrite Z.mod_1_r. lia.
  - cbn [Word256.toBytes_loop]. rewrite IH. cbn [fold_left]. f_equal.
    rewrite push_byte_add, byte_to_of_Z.
    change 255 with (Z.ones 8). rewrite Z.land_ones by lia.
    rewrite Z.shiftr_div_pow2 by lia.
    change (2 ^ 8) with 256. rewrite Z.mod_mod by lia.
    replace (8 * Z.of_nat (S k)) with (8 + 8 * Z.of_nat k) by lia.
    rewrite Z.pow_add_r by lia. change (2 ^ 8) with 256.
    rewrite (Z.rem_mul_r val 256 (2 ^ (8 * Z.of_nat k))) by lia.
    lia.
Qed.

Lemma toBytes_loop_lookup n : forall val acc (i : nat),
  (i < n)%nat ->
  Word256.toBytes_loop n val acc !! i
  = Some (JS.byte_of_Z
            (Z.land (Z.shiftr val ((Z.of_nat n - 1 - Z.of_nat i) * 8)) 255)).
Proof.
  induction n as [|k IH]; intros val acc i Hi; [lia |].
  cbn [Word256.toBytes_loop].
  destruct (Nat.eq_dec i k) as [-> | Hne].
  - assert (Hlen : forall m v a (j : nat),
               Word256.toBytes_loop m v a !! (m + j)%nat = a !! j).
    { clear. induction m as [|m IHm]; intros v a j; cbn [Word256.toBytes_loop].
      - reflexivity.
      - replace (S m + j)%nat with (m + S j)%nat by lia. rewrite IHm. reflexivity. }
    match goal with
    | |- Word256.toBytes_loop k ?v ?a !! k = _ =>
        pose proof (Hlen k v a 0%nat) as E
    end.
    rewrite Nat.add_0_r in E. rewrite E. cbn [lookup list_lookup].
    replace (Z.of_nat (S k) - 1 - Z.of_nat k) with 0 by lia.
    rewrite Z.shiftr_0_r. reflexivity.
  - rewrite IH by lia. do 3 f_equal.
    rewrite Z.shiftr_shiftr by lia. f_equal. lia.
Qed.

(** *** Hexadecimal strings *)

Lemma hex_value_digit d : 0 <= d < 16 -> JS.hex_value (JS.hex_digit d) = Some d.
Proof.
  intros Hd.
  assert (d = 0 \/ d = 1 \/ d = 2 \/ d = 3 \/ d = 4 \/ d = 5 \/ d = 6 \/ d = 7
          \/ d = 8 \/ d = 9 \/ d = 10 \/ d = 11 \/ d = 12 \/ d = 13 \/ d = 14
          \/ d = 15) as Hc by lia.
  repeat (destruct Hc as [-> | Hc]; [reflexivity |]). subst. reflexivity.
Qed.

Lemma parse_hex_digits fuel : forall z acc,
  0 <= z < 2 ^ Z.of_nat fuel ->
  JS.parse_hex (JS.hex_digits fuel z acc) 0 = JS.parse_hex acc z.
Proof.
  induction fuel as [|f IH]; intros z acc Hz; cbn [JS.hex_digits].
  - change (2 ^ Z.of_nat 0) with 1 in Hz. replace z with 0 by lia. reflexivity.
  - destruct (Z.eqb_spec z 0) as [-> | Hnz]; [reflexivity |].
    rewrite IH.
    + cbn [JS.parse_hex]. rewrite hex_value_digit by (apply Z.mod_pos_bound; lia).
      cbn [from_option id]. f_equal. pose proof (Z.div_mod z 16). lia.
    + rewrite Nat2Z.inj_succ, Z.pow_succ_r in Hz by lia.
      split; [apply Z.div_pos; lia |].
      apply Z.div_lt_upper_bound; lia.
Qed.

Lemma isHexString_digits fuel : forall z acc,
  JS.isHexString (JS.hex_digits fuel z acc) = JS.isHexString acc.
Proof.
  induction fuel as [|f IH]; intros z acc; cbn [JS.hex_digits]; [reflexivity |].
  destruct (z =? 0); [reflexivity |].
  rewrite IH. cbn [JS.isHexString].
  rewrite hex_value_digit by (apply Z.mod_pos_bound; lia). reflexivity.
Qed.

Lemma length_hex_digits fuel : forall z acc (k : nat),
  0 <= z < 16 ^ Z.of_nat k ->
  (String.length (JS.hex_digits fuel z acc) <= String.length acc + k)%nat.
Proof.
  induction fuel as [|f IH]; intros z acc k Hz; cbn [JS.hex_digits]; [lia |].
  destruct (Z.eqb_spec z 0) as [-> | Hnz]; [lia |].
  destruct k as [|k]; [change (16 ^ Z.of_nat 0) with 1 in Hz; lia |].
  specialize (IH (z / 16) (String (JS.hex_digit (z mod 16)) acc) k).
  cbn [String.length] in IH.
  rewrite Nat2Z.inj_succ, Z.pow_succ_r in Hz by lia.
  assert (0 <= z / 16 < 16 ^ Z.of_nat k).
  { split; [apply Z.div_pos; lia | apply Z.div_lt_upper_bound; lia]. }
  specialize (IH ltac:(assumption)). lia.
Qed.

Lemma toString16_parse z : 0 <= z -> JS.parse_hex (JS.toString16 z) 0 = z.
Proof.
  intros Hz. unfold JS.toString16.
  destruct (Z.eqb_spec z 0) as [-> | Hnz]; [reflexivity |].
  destruct (Z.ltb_spec z 0); [lia |].
  rewrite parse_hex_digits; [reflexivity |].
  rewrite Nat2Z.inj_succ, Z2Nat.id by apply Z.log2_nonneg.
  pose proof (Z.log2_spec z ltac:(lia)). lia.
Qed.

Lemma toString16_isHex z : 0 <= z -> JS.isHexString (JS.toString16 z) = true.
Proof.
  intros Hz. unfold JS.toString16.
  destruct (z =? 0); [reflexivity |].
  destruct (Z.ltb_spec z 0); [lia |].
  apply isHexString_digits.
Qed.

Lemma toString16_length z (k : nat) :
  (0 < k)%nat -> 0 <= z < 16 ^ Z.of_nat k -> (String.length (JS.toString16 z) <= k)%nat.
Proof.
  intros Hk Hz. unfold JS.toString16.
  destruct (z =? 0); [cbn; lia |].
  destruct (Z.ltb_spec z 0); [lia |].
  pose proof (length_hex_digits (S (Z.to_nat (Z.log2 z))) z "" k Hz) as Hl.
  cbn [String.length] in Hl. lia.
Qed.

Lemma length_repeat_char n c : String.length (JS.repeat_char n c) = n.
Proof. induction n; cbn; congruence. Qed.

Lemma string_length_app a b :
  String.length (a +:+ b) = (String.length a + String.length b)%nat.
Proof.
  induction a as [| c a IH]; [reflexivity |].
  change (String.length (String c (a +:+ b)) = S (String.length a + String.length b)).
  cbn [String.length]. rewrite IH. reflexivity.
Qed.

Lemma parse_hex_zeros n s init :
  init = 0 -> JS.parse_hex (JS.repeat_char n "0" +:+ s) init = JS.parse_hex s 0.
Proof. intros ->. induction n; cbn; auto. Qed.

Lemma isHexString_zeros n s :
  JS.isHexString (JS.repeat_char n "0" +:+ s) = JS.isHexString s.
Proof. induction n; cbn; auto. Qed.

Lemma hex_string_no_0x s : JS.isHexString s = true -> JS.startsWith "0x" s = false.
Proof.
  destruct s as [| c1 [| c2 s]]; cbn [JS.startsWith JS.isHexString]; try reflexivity.
  - intros _. apply andb_false_r.
  - destruct (Ascii.eqb_spec "0" c1) as [<- |]; [| reflexivity].
    destruct (Ascii.eqb_spec "x" c2) as [<- |]; [| reflexivity].
    cbn. discriminate.
Qed.

Lemma bigint_of_empty_or_hex s :
  (if String.eqb s "" then 0 else JS.BigInt_of_hex s) = JS.BigInt_of_hex s.
Proof. destruct s; reflexivity. Qed.

(** C6: conversions to bytes and to hex are lossless; [toBytes] gives 32
    bytes, most significant first, and [toHex] gives 64 characters, padded
    with zeros on the left. *)
Theorem Word256_conversions_roundtrip (v : Z) :
  let w := Word256.new v in
  Word256.fromBytes (Word256.toBytes w) = Normal w
  /\ Word256.fromHex (Word256.toHex w) = Normal w
  /\ length (Word256.toBytes w) = 32%nat
  /\ (forall i : nat, (i < 32)%nat ->
        Word256.toBytes w !! i
        = Some (JS.byte_of_Z (Word256.getByte w (Z.of_nat i))))
  /\ String.length (Word256.toHex w) = 64%nat
  /\ Word256.toHex w
     = JS.repeat_char (64 - String.length (JS.toString16 (Word256.value w))) "0"
       +:+ JS.toString16 (Word256.value w).
Proof.
  intros w. pose proof (Word256_new_range v) as Hr. fold w in Hr.
  assert (Hlen : length (Word256.toBytes w) = 32%nat).
  { unfold Word256.toBytes. rewrite toBytes_loop_length. reflexivity. }
  assert (Hhex : JS.isHexString (Word256.toHex w) = true).
  { unfold Word256.toHex, JS.padStart. rewrite isHexString_zeros.
    apply toString16_isHex. lia. }
  split; [| split; [| split; [exact Hlen | split; [| split; [| reflexivity]]]]].
  - unfold Word256.fromBytes. rewrite Hlen.
    change (Z.of_nat 32 >? 32) with false. cbv iota.
    f_equal. unfold Word256.toBytes. rewrite toBytes_loop_fold. cbn [fold_left].
    rewrite Z.mul_0_l, Z.add_0_l.
    change (8 * Z.of_nat 32) with 256. rewrite Z.mod_small by lia.
    apply Word256_new_idem.
  - unfold Word256.fromHex. rewrite (hex_string_no_0x _ Hhex), Hhex. cbn [negb].
    rewrite bigint_of_empty_or_hex. f_equal.
    unfold JS.BigInt_of_hex, Word256.toHex, JS.padStart.
    rewrite parse_hex_zeros by reflexivity. rewrite toString16_parse by lia.
    apply Word256_new_idem.
  - intros i Hi. unfold Word256.toBytes. rewrite toBytes_loop_lookup by exact Hi.
    unfold Word256.getByte.
    destruct (Z.ltb_spec (Z.of_nat i) 0); [lia |].
    destruct (Z.geb_spec (Z.of_nat i) 32); [lia |].
    reflexivity.
  - unfold Word256.toHex, JS.padStart. rewrite string_length_app, length_repeat_char.
    pose proof (toString16_length (Word256.value w) 64 ltac:(lia)) as Hl.
    change (16 ^ Z.of_nat 64) with (2 ^ 256) in Hl. specialize (Hl Hr). lia.
Qed.

Lemma Word256_conversions_roundtrip_witness :
  (31 < 32)%nat
  /\ Word256.toBytes (Word256.new 42) !! 31%nat
     = Some (JS.byte_of_Z (Word256.getByte (Word256.new 42) (Z.of_nat 31))).
Proof.
  assert (H31 : (31 < 32)%nat) by lia.
  split; [exact H31 |].
  pose proof (Word256_conversions_roundtrip 42) as (_ & _ & _ & Hbytes & _).
  exact (Hbytes 31%nat H31).
Defined.

(** ** MachineState *)

(** C8: charging gas is atomic. With too little gas the state is halted
    with OUT_OF_GAS, nothing is deducted and the handler is aborted by the
    exception; otherwise exactly [amount] is deducted and the halt flag is
    left as it was. *)
Theorem chargeGas_atomic (st : MachineState.t) (amount : Z) :
  (MachineState.gasRemaining st < amount ->
     exists st',
       MachineState.chargeGas st amount = (st', Throw (JS.Error "Out of gas"))
       /\ MachineState.halted st' = true
       /\ MachineState.haltReason st' = Some OUT_OF_GAS
       /\ MachineState.gasRemaining st' = MachineState.gasRemaining st
       /\ MachineState.pc st' = MachineState.pc st
       /\ MachineState.memory st' = MachineState.memory st
       /\ MachineState.returnData st' = MachineState.returnData st
       /\ forall (H A : Type) (k : unit -> M H A) (o : Objects H),
            state o = st ->
            bind (chargeGas amount) k o
            = (mkObjects st' (stack o) (trace o) (host o),
               Throw (JS.Error "Out of gas")))
  /\ (amount <= MachineState.gasRemaining st ->
        exists st',
          MachineState.chargeGas st amount = (st', Normal tt)
          /\ MachineState.gasRemaining st' = MachineState.gasRemaining st - amount
          /\ MachineState.halted st' = MachineState.halted st
          /\ MachineState.haltReason st' = MachineState.haltReason st
          /\ MachineState.pc st' = MachineState.pc st
          /\ MachineState.memory st' = MachineState.memory st
          /\ MachineState.returnData st' = MachineState.returnData st).
Proof.
  split; intros Hgas.
  - exists (MachineState.halt st OUT_OF_GAS).
    assert (Hc : MachineState.chargeGas st amount
                 = (MachineState.halt st OUT_OF_GAS, Throw (JS.Error "Out of gas"))).
    { unfold MachineState.chargeGas.
      destruct (Z.ltb_spec (MachineState.gasRemaining st) amount); [reflexivity | lia]. }
    repeat split; try exact Hc.
    intros H A k o <-. unfold bind, chargeGas, onState. rewrite Hc. reflexivity.
  - exists (MachineState.set_gasRemaining st (MachineState.gasRemaining st - amount)).
    repeat split.
    unfold MachineState.chargeGas.
    destruct (Z.ltb_spec (MachineState.gasRemaining st) amount); [lia | reflexivity].
Qed.

Lemma chargeGas_atomic_witness :
  MachineState.gasRemaining (MachineState.new 7) < 9
  /\ 3 <= MachineState.gasRemaining (MachineState.new 7)
  /\ (exists st',
        MachineState.chargeGas (MachineState.new 7) 9
        = (st', Throw (JS.Error "Out of gas"))
        /\ MachineState.gasRemaining st' = 7)
  /\ (exists st',
        MachineState.chargeGas (MachineState.new 7) 3 = (st', Normal tt)
        /\ MachineState.gasRemaining st' = 4).
Proof.
  assert (H1 : MachineState.gasRemaining (MachineState.new 7) < 9) by (cbn; lia).
  assert (H2 : 3 <= MachineState.gasRemaining (MachineState.new 7)) by (cbn; lia).
  split; [exact H1 |]. split; [exact H2 |]. split.
  - destruct (proj1 (chargeGas_atomic (MachineState.new 7) 9) H1)
      as (st' & Hc & _ & _ & Hg & _).
    exists st'. split; [exact Hc | exact Hg].
  - destruct (proj2 (chargeGas_atomic (MachineState.new 7) 3) H2)
      as (st' & Hc & Hg & _).
    exists st'. split; [exact Hc | exact Hg].
Defined.

(** ** Interpreter.step at the end of the code and after a halt *)

(** C9: with the program counter at or past the end of the bytecode, a
    running machine halts with STOP, records the Halt event and [step]
    returns false; on a halted machine [step] returns false and changes
    nothing. *)
Theorem step_past_end_or_halted {H : Type} `{Host H} (i : Interpreter.t) :
  (Interpreter.isHalted i = false ->
   Z.of_nat (length (Interpreter.bytecode i)) <= MachineState.pc (Interpreter.getState i) ->
   let st := Interpreter.getState i in
   let tr := Interpreter.getTrace i in
   Interpreter.step i
   = ({| Interpreter.bytecode := Interpreter.bytecode i;
         Interpreter.calldata := Interpreter.calldata i;
         Interpreter.objs :=
           mkObjects
             (MachineState.halt st STOP)
             (Interpreter.getStack i)
             {| TraceCollector.events :=
                  TraceCollector.events tr
                  ++ [TraceEventBuilder.halt (TraceCollector.nextIndex tr)
                        (MachineState.pc st) (MachineState.gasRemaining st) STOP];
                TraceCollector.nextIndex := TraceCollector.nextIndex tr + 1 |}
             (Interpreter.getHost i);
         Interpreter.validJumpDests := Interpreter.validJumpDests i |},
      Normal false))
  /\ (Interpreter.isHalted i = true -> Interpreter.step i = (i, Normal false)).
Proof.
  split.
  - intros Hrun Hpc st tr. unfold Interpreter.step.
    unfold Interpreter.isHalted in Hrun. rewrite Hrun.
    destruct (Z.geb_spec (MachineState.pc (Interpreter.getState i))
                (Z.of_nat (length (Interpreter.bytecode i)))); [| lia].
    reflexivity.
  - intros Hh. unfold Interpreter.step.
    unfold Interpreter.isHalted in Hh. rewrite Hh. reflexivity.
Qed.

Lemma step_past_end_or_halted_witness :
  let i := interpreterFor [] 10 in
  let i1 := fst (Interpreter.step i) in
  Interpreter.isHalted i = false
  /\ Z.of_nat (length (Interpreter.bytecode i)) <= MachineState.pc (Interpreter.getState i)
  /\ Interpreter.isHalted i1 = true
  /\ Interpreter.step i
     = (i1, Normal false)
  /\ Interpreter.getHaltReason i1 = Some STOP
  /\ TraceCollector.events (Interpreter.getTrace i1) = [TraceEventBuilder.halt 0 0 10 STOP]
  /\ Interpreter.step i1 = (i1, Normal false).
Proof.
  intros i i1.
  assert (H1 : Interpreter.isHalted i = false) by reflexivity.
  assert (H2 : Z.of_nat (length (Interpreter.bytecode i))
               <= MachineState.pc (Interpreter.getState i)) by (cbn; lia).
  assert (H3 : Interpreter.isHalted i1 = true) by reflexivity.
  pose proof (proj1 (step_past_end_or_halted i) H1 H2) as Hs.
  pose proof (proj2 (step_past_end_or_halted i1) H3) as Hh.
  repeat split; try assumption; subst i1; rewrite Hs; reflexivity.
Defined.

(** ** The trace collector's JSON round trip *)

Lemma toString10_reads_back z : JS.BigInt_of_decimal (JS.toString10 z) = Some z.
Proof.
  unfold JS.BigInt_of_decimal, JS.toString10.
  rewrite NilZero.isi.
  - cbn [option_map]. rewrite DecimalZ.of_to. reflexivity.
  - destruct z; cbn; [discriminate | |discriminate].
    intros [= E]. exact (Unsigned.to_uint_nonnil _ E).
  - destruct z; cbn; [discriminate | discriminate |].
    intros [= E]. exact (Unsigned.to_uint_nonnil _ E).
Qed.



Lemma stringify_sameContent v : sameContent v (JSON.stringify_bigints_as_strings v).
Proof.
  induction v as [n | z | s | b | elems IH | props IH] using JSValue_nested_ind;
    cbn [JSON.stringify_bigints_as_strings]; try constructor.
  - apply toString10_reads_back.
  - induction IH as [| x r Hx _ IHr]; cbn [map]; constructor; assumption.
  - induction IH as [| x r Hx _ IHr]; cbn [map]; constructor; [| assumption].
    split; [reflexivity | exact Hx].
Qed.

Lemma stringify_idempotent v :
  JSON.stringify_bigints_as_strings (JSON.stringify_bigints_as_strings v)
  = JSON.stringify_bigints_as_strings v.
Proof.
  induction v as [n | z | s | b | elems IH | props IH] using JSValue_nested_ind;
    cbn [JSON.stringify_bigints_as_strings]; try reflexivity.
  - f_equal. induction IH as [| x r Hx _ IHr]; cbn [map]; [reflexivity |].
    rewrite Hx, IHr. reflexivity.
  - f_equal. induction IH as [| x r Hx _ IHr]; cbn [map]; [reflexivity |].
    cbn [fst snd]. rewrite Hx, IHr. reflexivity.
Qed.

(** C4, as the code has it: reading back a serialised trace gives the same
    number of events, each with the same content except that every bigint
    (the [gasRemaining] of an event) is now its decimal string; the index
    counter is the number of events; serialising again gives the same JSON. *)
Theorem trace_json_roundtrip (c : TraceCollector.t) :
  exists c',
    TraceCollector.fromJSON (TraceCollector.toJSON c) = Normal c'
    /\ Forall2 sameContent (TraceCollector.events c) (TraceCollector.events c')
    /\ TraceCollector.getEventCount c' = TraceCollector.getEventCount c
    /\ TraceCollector.nextIndex c' = TraceCollector.getEventCount c'
    /\ TraceCollector.toJSON c' = TraceCollector.toJSON c.
Proof.
  eexists. split; [reflexivity |].
  cbn [TraceCollector.events TraceCollector.nextIndex].
  unfold TraceCollector.getEventCount, TraceCollector.toJSON.
  cbn [TraceCollector.events JSON.stringify_bigints_as_strings].
  repeat split.
  - induction (TraceCollector.events c) as [| e r IH]; cbn [map]; constructor;
      [apply stringify_sameContent | exact IH].
  - rewrite length_map. reflexivity.
  - f_equal. rewrite map_map. apply map_ext. intros e. apply stringify_idempotent.
Qed.

(** C4, as the specification words it, fails on a trace of one event: the
    [gasRemaining] that comes back is the string ["500"], not the bigint. *)
Lemma trace_json_roundtrip_not_exact :
  ~ roundTripsExactly
      (TraceCollector.record TraceCollector.new (TraceEventBuilder.halt 0 5 500 STOP)).
Proof.
  intros (c' & Hfrom & Hevents & _).
  vm_compute in Hfrom. injection Hfrom as <-.
  vm_compute in Hevents. discriminate Hevents.
Qed.

(** ** Jump destinations *)

Lemma Number_of_bigint_small z : Z.abs z < 2 ^ 53 -> JS.Number_of_bigint z = z.
Proof.
  intros Hz. unfold JS.Number_of_bigint.
  destruct (Z.ltb_spec (Z.abs z) (2 ^ 53)); [reflexivity | lia].
Qed.

Lemma Number_of_bigint_large z : 2 ^ 53 <= z -> 2 ^ 53 <= JS.Number_of_bigint z.
Proof.
  intros Hz. unfold JS.Number_of_bigint.
  rewrite Z.abs_eq by lia.
  destruct (Z.ltb_spec z (2 ^ 53)); [lia |].
  rewrite Z.sgn_pos by lia. rewrite Z.mul_1_l.
  pose proof (Z.log2_spec z ltac:(lia)) as [Hlo _].
  assert (Hl : 53 <= Z.log2 z) by (apply Z.log2_le_pow2; lia).
  set (e := Z.log2 z - 52) in *.
  assert (He : 0 <= e) by lia.
  assert (Hq : 2 ^ 52 <= Z.shiftr z e).
  { rewrite Z.shiftr_div_pow2 by lia.
    apply Z.div_le_lower_bound; [lia |].
    rewrite <- Z.pow_add_r by lia. replace (e + 52) with (Z.log2 z) by lia. exact Hlo. }
  assert (Hp : 2 ^ 53 <= 2 ^ 52 * 2 ^ e).
  { rewrite <- Z.pow_add_r by lia. apply Z.pow_le_mono_r; lia. }
  assert (Hpe : 0 < 2 ^ e) by (apply Z.pow_pos_nonneg; lia).
  destruct ((2 ^ (e - 1) <? z mod 2 ^ e)
            || (z mod 2 ^ e =? 2 ^ (e - 1)) && Z.odd (Z.shiftr z e)); nia.
Qed.

(** On a destination that a [Uint8Array] can index, the conversion to a
    number does not change the outcome of the two checks of JUMP. *)
Lemma invalid_destination_as_number (len z : Z) (dests : gset Z) :
  len < 2 ^ 53 -> 0 <= z ->
  len <= z \/ z ∉ dests ->
  (JS.Number_of_bigint z >=? len) = true
  \/ ((JS.Number_of_bigint z >=? len) = false
      /\ bool_decide (JS.Number_of_bigint z ∈ dests) = false).
Proof.
  intros Hlen Hz Hinv.
  destruct (Z.lt_ge_cases z (2 ^ 53)) as [Hsmall | Hlarge].
  - rewrite Number_of_bigint_small by lia.
    destruct (Z.geb_spec z len); [left; reflexivity |].
    right. split; [reflexivity |].
    destruct Hinv as [? | Hnot]; [lia |].
    apply bool_decide_eq_false. exact Hnot.
  - left. pose proof (Number_of_bigint_large z Hlarge).
    destruct (Z.geb_spec (JS.Number_of_bigint z) len); [reflexivity | lia].
Qed.

Lemma byteAt_Some code i b :
  Interpreter.byteAt code i = Some b ->
  0 <= i < Z.of_nat (length code)
  /\ b = JS.byte_to_Z (nth (Z.to_nat i) code x00).
Proof.
  unfold Interpreter.byteAt. destruct (Z.ltb_spec i 0); [discriminate |].
  destruct (code !! Z.to_nat i) as [x|] eqn:E; [| discriminate].
  intros [= <-]. pose proof (lookup_lt_Some _ _ _ E).
  split; [lia |]. rewrite nth_lookup, E. reflexivity.
Qed.

Lemma byteAt_in_range code i :
  0 <= i < Z.of_nat (length code) ->
  Interpreter.byteAt code i = Some (JS.byte_to_Z (nth (Z.to_nat i) code x00)).
Proof.
  intros Hi. unfold Interpreter.byteAt. destruct (Z.ltb_spec i 0); [lia |].
  destruct (code !! Z.to_nat i) as [x|] eqn:E.
  - rewrite nth_lookup, E. reflexivity.
  - apply lookup_ge_None in E. lia.
Qed.

Lemma byteAt_past_end code i :
  Z.of_nat (length code) <= i -> Interpreter.byteAt code i = None.
Proof.
  intros Hi. unfold Interpreter.byteAt. destruct (Z.ltb_spec i 0); [reflexivity |].
  rewrite lookup_ge_None_2 by lia. reflexivity.
Qed.

Lemma getPushBytes_nonneg b : 0 <= Opcode.getPushBytes b.
Proof.
  unfold Opcode.getPushBytes, Opcode.isPushOpcode.
  destruct (Z.geb_spec b 96); destruct (Z.leb_spec b 127); cbn; lia.
Qed.

Lemma reach_le code i j : reach code i j -> i <= j.
Proof.
  induction 1 as [i | i b j Hb _ IH]; [lia |].
  pose proof (getPushBytes_nonneg b). lia.
Qed.

Lemma reach_trans code i j k : reach code i j -> reach code j k -> reach code i k.
Proof.
  induction 1 as [i | i b j Hb _ IH]; intros Hjk; [exact Hjk |].
  eapply reach_next; [exact Hb | apply IH; exact Hjk].
Qed.

(** Decoding is deterministic: two indices reached from the same start lie
    on one chain. *)
Lemma reach_linear code a p i :
  reach code a p -> reach code a i -> reach code p i \/ reach code i p.
Proof.
  intros Hp. revert i.
  induction Hp as [a | a b p Hb Hp IH]; intros i Hi.
  - left. exact Hi.
  - inversion Hi as [| a' b' i' Hb' Hi']; subst.
    + right. eapply reach_next; eassumption.
    + rewrite Hb in Hb'. injection Hb' as <-. apply IH. exact Hi'.
Qed.

Lemma opcodePosition_skips_push_data code p b i :
  opcodePosition code p -> opcodePosition code i ->
  Interpreter.byteAt code p = Some b ->
  p < i -> p + 1 + Opcode.getPushBytes b <= i.
Proof.
  intros Hp Hi Hb Hlt.
  destruct (reach_linear code 0 p i Hp Hi) as [Hpi | Hip].
  - inversion Hpi as [| p' b' i' Hb' Hnext]; subst; [lia |].
    rewrite Hb in Hb'. injection Hb' as <-.
    apply reach_le in Hnext. exact Hnext.
  - apply reach_le in Hip. lia.
Qed.

Lemma buildJumpDestinations_loop_spec code fuel : forall i acc j,
  0 <= i -> Z.of_nat (length code) - i <= Z.of_nat fuel ->
  j ∈ buildJumpDestinations_loop fuel code i acc
  <-> j ∈ acc \/ (reach code i j /\ Interpreter.byteAt code j = Some 0x5b).
Proof.
  assert (Hend : forall i j, Z.of_nat (length code) <= i ->
                   reach code i j /\ Interpreter.byteAt code j = Some 0x5b -> False).
  { intros i j Hi [Hr Hb]. inversion Hr as [| i' b' j' Hb' _]; subst.
    - rewrite byteAt_past_end in Hb by lia. discriminate.
    - rewrite byteAt_past_end in Hb' by lia. discriminate. }
  induction fuel as [| fuel IH]; intros i acc j Hi Hfuel;
    cbn [buildJumpDestinations_loop].
  - split; [auto |]. intros [? | Hr]; [assumption |].
    exfalso. eapply (Hend i j); [lia | exact Hr].
  - destruct (Z.ltb_spec i (Z.of_nat (length code))) as [Hlt | Hge].
    2:{ split; [auto |]. intros [? | Hr]; [assumption |].
        exfalso. eapply (Hend i j); [lia | exact Hr]. }
    pose proof (byteAt_in_range code i ltac:(lia)) as Hb.
    set (opcode := JS.byte_to_Z (nth (Z.to_nat i) code x00)) in *.
    assert (Hstep : forall n, n = Opcode.getPushBytes opcode ->
              (reach code i j /\ Interpreter.byteAt code j = Some 0x5b)
              <-> ((i = j /\ opcode = 0x5b)
                   \/ (reach code (i + 1 + n) j
                       /\ Interpreter.byteAt code j = Some 0x5b))).
    { intros n ->. split.
      - intros [Hr Hj]. inversion Hr as [| i' b' j' Hb' Hnext]; subst.
        + left. split; [reflexivity |]. rewrite Hb in Hj. injection Hj as ->. reflexivity.
        + right. rewrite Hb in Hb'. injection Hb' as <-. split; assumption.
      - intros [[<- Hop] | [Hr Hj]].
        + split; [apply reach_here | rewrite Hb, Hop; reflexivity].
        + split; [eapply reach_next; eassumption | exact Hj]. }
    destruct (Z.eqb_spec opcode 0x5b) as [Hop | Hop].
    + rewrite IH by lia. rewrite (Hstep 0) by (rewrite Hop; reflexivity).
      rewrite elem_of_union, elem_of_singleton. replace (i + 1 + 0) with (i + 1) by lia.
      intuition congruence.
    + destruct ((opcode >=? 0x60) && (opcode <=? 0x7f)) eqn:Hpush.
      * rewrite IH by (pose proof (getPushBytes_nonneg opcode); lia).
        rewrite (Hstep (opcode - 0x5f)).
        2:{ unfold Opcode.getPushBytes, Opcode.isPushOpcode. rewrite Hpush. reflexivity. }
        replace (i + (1 + (opcode - 95))) with (i + 1 + (opcode - 95)) by lia.
        intuition congruence.
      * rewrite IH by lia. rewrite (Hstep 0).
        2:{ unfold Opcode.getPushBytes, Opcode.isPushOpcode. rewrite Hpush. reflexivity. }
        replace (i + 1 + 0) with (i + 1) by lia.
        intuition congruence.
Qed.

(** The scan keeps exactly the JUMPDEST bytes at instruction boundaries. *)
Lemma buildJumpDestinations_spec code j :
  j ∈ buildJumpDestinations code
  <-> opcodePosition code j /\ Interpreter.byteAt code j = Some 0x5b.
Proof.
  unfold buildJumpDestinations, opcodePosition.
  rewrite buildJumpDestinations_loop_spec by lia.
  rewrite elem_of_empty. tauto.
Qed.

Lemma buildJumpDestinations_excludes_push_data code j :
  insidePushData code j -> j ∉ buildJumpDestinations code.
Proof.
  intros (p & b & Hp & Hb & Hpush & Hin) Hj.
  apply buildJumpDestinations_spec in Hj as [Hpos _].
  pose proof (opcodePosition_skips_push_data code p b j Hp Hpos Hb ltac:(lia)). lia.
Qed.

(** ** The order of a handler's events *)

Ltac unfold_prims H :=
  cbv beta delta
    [bind ret throw chargeGas halt setPc advancePc setReturnData
     expandMemory readMemory writeMemory push pop peekAt dup swap
     emit getNextIndex record currentState onState onStack
     MachineState.chargeGas MachineState.expandMemory MachineState.readMemory
     MachineState.writeMemory MachineState.getMemorySize
     Stack.pop Stack.push Stack.peekAt Stack.dup Stack.swap Stack.depth] in H.

Ltac proj_simpl H :=
  cbn [fst snd state stack trace host
       MachineState.pc MachineState.gasRemaining MachineState.stack
       MachineState.memory MachineState.returnData MachineState.halted
       MachineState.haltReason MachineState.set_pc MachineState.set_gasRemaining
       MachineState.set_memory MachineState.set_returnData MachineState.halt
       Stack.items TraceCollector.events TraceCollector.nextIndex
       TraceCollector.record TraceCollector.getNextIndex] in H.

Ltac proj_simpl_goal :=
  cbn [fst snd state stack trace host
       MachineState.pc MachineState.gasRemaining MachineState.stack
       MachineState.memory MachineState.returnData MachineState.halted
       MachineState.haltReason MachineState.set_pc MachineState.set_gasRemaining
       MachineState.set_memory MachineState.set_returnData MachineState.halt
       Stack.items TraceCollector.events TraceCollector.nextIndex
       TraceCollector.record TraceCollector.getNextIndex].

Ltac head_scrut t :=
  lazymatch t with
  | (if ?b then _ else _) => head_scrut b
  | (let '(_, _) := ?x in _) => head_scrut x
  | (match ?x with Normal _ => _ | Throw _ => _ end) => head_scrut x
  | (match ?x with [] => _ | _ :: _ => _ end) => head_scrut x
  | (match ?x with Some _ => _ | None => _ end) => head_scrut x
  | (if ?b then _ else _) _ => head_scrut b
  | (match ?x with Normal _ => _ | Throw _ => _ end) _ => head_scrut x
  | (match ?x with [] => _ | _ :: _ => _ end) _ => head_scrut x
  | (match ?x with Some _ => _ | None => _ end) _ => head_scrut x
  | _ => t
  end.

Ltac exec_step H :=
  lazymatch type of H with
  | (_, _) = (_, _) => fail
  | ?lhs = _ =>
      let s := head_scrut lhs in
      destruct s eqn:?; proj_simpl H
  end.

Ltac sym_exec H := unfold_prims H; proj_simpl H; repeat exec_step H.

Ltac pops_of l :=
  lazymatch l with
  | TraceEventBuilder.stackPop _ _ _ ?w :: ?r =>
      let r' := pops_of r in constr:(w :: r')
  | _ :: ?r => pops_of r
  | _ => constr:(@nil Word256.t)
  end.

Ltac pushes_of l :=
  lazymatch l with
  | TraceEventBuilder.stackPush _ _ _ ?w :: ?r =>
      let r' := pushes_of r in constr:(w :: r')
  | _ :: ?r => pushes_of r
  | _ => constr:(@nil Word256.t)
  end.

Ltac rest_of pushed final :=
  lazymatch pushed with
  | [] => final
  | _ => lazymatch final with _ :: ?r => r end
  end.

Ltac finish_ordered E F :=
  let pp := pops_of E in
  let pu := pushes_of E in
  let rs := rest_of pu F in
  exists E, pp, pu, rs;
  split; [first [reflexivity | symmetry; apply app_nil_r] |];
  split; [reflexivity |];
  split; [intros ? ? ?; discriminate |];
  split; [reflexivity |];
  split; [reflexivity |];
  split; [reflexivity |];
  split; [reflexivity | intros _; reflexivity].

Ltac solve_ordered :=
  rewrite <- ?app_assoc; cbn [app];
  lazymatch goal with
  | |- exists _ _ _ _, ?e ++ ?E = _ /\ _ /\ _ /\ _ /\ _ /\ _ /\ length ?F = _ /\ _ =>
      finish_ordered E F
  | |- exists _ _ _ _, ?e = _ /\ _ /\ _ /\ _ /\ _ /\ _ /\ length ?F = _ /\ _ =>
      finish_ordered (@nil TraceEvent) F
  end.

Ltac ordered_by_execution :=
  intros [[pc0 gas0 sstack mem rd hl hr] [items] [evs0 idx] h] o' r Hrun;
  sym_exec Hrun;
  injection Hrun as <- <-; proj_simpl_goal; 
  try solve_ordered.

Lemma executeJUMP_invalid {H : Type} (code : list byte) (dests : gset Z)
      (st : MachineState.t) (rest : list Word256.t) (evs : list TraceEvent)
      (idx : Z) (h : H) (dest : Word256.t) :
  Z.of_nat (length code) < 2 ^ 53 ->
  0 <= Word256.value dest ->
  Z.of_nat (length code) <= Word256.value dest \/ Word256.value dest ∉ dests ->
  8 <= MachineState.gasRemaining st ->
  let pc := MachineState.pc st in
  let gas := MachineState.gasRemaining st - 8 in
  executeJUMP code dests
    (mkObjects st (Stack.mk (dest :: rest)) (TraceCollector.mk evs idx) h)
  = (mkObjects
       (MachineState.halt (MachineState.set_gasRemaining st gas) INVALID_JUMP)
       (Stack.mk rest)
       (TraceCollector.mk
          (evs ++ [TraceEventBuilder.gasCharge idx pc gas 8 "JUMP";
                   TraceEventBuilder.stackPop (idx + 1) pc gas dest;
                   TraceEventBuilder.jump (idx + 1 + 1) pc gas pc
                     (JS.Number_of_bigint (Word256.value dest)) false true])
          (idx + 1 + 1 + 1))
       h,
     Normal tt).
Proof.
  intros Hlen Hdest Hinv Hgas pc gas. subst pc gas.
  destruct st as [pc0 gas0 sstack mem rd hl hr]. cbn [MachineState.gasRemaining] in Hgas.
  unfold executeJUMP.
  cbv beta delta
    [bind ret chargeGas halt setPc pop emit getNextIndex record currentState
     onState onStack MachineState.chargeGas Stack.pop].
  proj_simpl_goal.
  destruct (Z.ltb_spec gas0 8) as [? | _]; [lia |]. proj_simpl_goal.
  destruct (invalid_destination_as_number _ _ dests Hlen Hdest Hinv)
    as [-> | [-> ->]];
    cbn [negb]; proj_simpl_goal; unfold TraceCollector.record; proj_simpl_goal;
    rewrite <- !app_assoc; cbn [app]; reflexivity.
Qed.

Lemma executeJUMPI_invalid {H : Type} (code : list byte) (dests : gset Z)
      (st : MachineState.t) (rest : list Word256.t) (evs : list TraceEvent)
      (idx : Z) (h : H) (condition dest : Word256.t) :
  Z.of_nat (length code) < 2 ^ 53 ->
  0 <= Word256.value dest ->
  Z.of_nat (length code) <= Word256.value dest \/ Word256.value dest ∉ dests ->
  Word256.value condition <> 0 ->
  10 <= MachineState.gasRemaining st ->
  let pc := MachineState.pc st in
  let gas := MachineState.gasRemaining st - 10 in
  executeJUMPI code dests
    (mkObjects st (Stack.mk (condition :: dest :: rest)) (TraceCollector.mk evs idx) h)
  = (mkObjects
       (MachineState.halt (MachineState.set_gasRemaining st gas) INVALID_JUMP)
       (Stack.mk rest)
       (TraceCollector.mk
          (evs ++ [TraceEventBuilder.gasCharge idx pc gas 10 "JUMPI";
                   TraceEventBuilder.stackPop (idx + 1) pc gas condition;
                   TraceEventBuilder.stackPop (idx + 1 + 1) pc gas dest;
                   TraceEventBuilder.jump (idx + 1 + 1 + 1) pc gas pc
                     (JS.Number_of_bigint (Word256.value dest)) true true])
          (idx + 1 + 1 + 1 + 1))
       h,
     Normal tt).
Proof.
  intros Hlen Hdest Hinv Hcond Hgas pc gas. subst pc gas.
  destruct st as [pc0 gas0 sstack mem rd hl hr]. cbn [MachineState.gasRemaining] in Hgas.
  unfold executeJUMPI.
  cbv beta delta
    [bind ret chargeGas halt setPc advancePc pop emit getNextIndex record
     currentState onState onStack MachineState.chargeGas Stack.pop].
  proj_simpl_goal.
  destruct (Z.ltb_spec gas0 10) as [? | _]; [lia |]. proj_simpl_goal.
  destruct (Z.eqb_spec (Word256.value condition) 0) as [? | _]; [contradiction |].
  cbn [negb].
  destruct (invalid_destination_as_number _ _ dests Hlen Hdest Hinv)
    as [-> | [-> ->]];
    cbn [negb]; proj_simpl_goal; unfold TraceCollector.record; proj_simpl_goal;
    rewrite <- !app_assoc; cbn [app]; reflexivity.
Qed.

(** C7: a JUMP, or a JUMPI with a non-zero condition, to a destination past
    the end of the code or outside the pre-analysed set halts with
    INVALID_JUMP; the Jump event, with [taken = true], is recorded and the
    Halt event comes right after it. The pre-analysed set holds exactly the
    0x5B bytes at instruction boundaries, so none inside PUSH data. *)
Theorem invalid_jump_halts {H : Type} `{Host H} (i : Interpreter.t)
        (dest : Word256.t) (rest : list Word256.t) :
  let st := Interpreter.getState i in
  let pc := MachineState.pc st in
  let gas := MachineState.gasRemaining st in
  Z.of_nat (length (Interpreter.bytecode i)) < 2 ^ 53 ->
  Interpreter.isHalted i = false ->
  0 <= Word256.value dest ->
  Z.of_nat (length (Interpreter.bytecode i)) <= Word256.value dest
  \/ Word256.value dest ∉ Interpreter.validJumpDests i ->
  (Interpreter.byteAt (Interpreter.bytecode i) pc = Some Opcode.JUMP ->
   8 <= gas ->
   Stack.items (Interpreter.getStack i) = dest :: rest ->
   Interpreter.step i
   = (haltedBy i 8 rest
        (fun idx =>
           [TraceEventBuilder.opcodeStart idx pc gas Opcode.JUMP "JUMP";
            TraceEventBuilder.gasCharge (idx + 1) pc (gas - 8) 8 "JUMP";
            TraceEventBuilder.stackPop (idx + 2) pc (gas - 8) dest;
            TraceEventBuilder.jump (idx + 3) pc (gas - 8) pc
              (JS.Number_of_bigint (Word256.value dest)) false true])
        4 INVALID_JUMP,
      Normal false))
  /\ (forall condition,
        Interpreter.byteAt (Interpreter.bytecode i) pc = Some Opcode.JUMPI ->
        10 <= gas ->
        Word256.value condition <> 0 ->
        Stack.items (Interpreter.getStack i) = condition :: dest :: rest ->
        Interpreter.step i
        = (haltedBy i 10 rest
             (fun idx =>
                [TraceEventBuilder.opcodeStart idx pc gas Opcode.JUMPI "JUMPI";
                 TraceEventBuilder.gasCharge (idx + 1) pc (gas - 10) 10 "JUMPI";
                 TraceEventBuilder.stackPop (idx + 2) pc (gas - 10) condition;
                 TraceEventBuilder.stackPop (idx + 3) pc (gas - 10) dest;
                 TraceEventBuilder.jump (idx + 4) pc (gas - 10) pc
                   (JS.Number_of_bigint (Word256.value dest)) true true])
             5 INVALID_JUMP,
           Normal false))
  /\ (forall code j,
        j ∈ buildJumpDestinations code
        <-> opcodePosition code j /\ Interpreter.byteAt code j = Some 0x5b)
  /\ (forall code j, insidePushData code j -> j ∉ buildJumpDestinations code).
Proof.
  intros st pc gas Hlen Hrun Hdest Hinv.
  split; [| split; [| split;
    [exact buildJumpDestinations_spec | exact buildJumpDestinations_excludes_push_data]]].
  - intros Hop Hgas Hstack.
    destruct i as [code data [st0 [items] [evs idx] h] dests].
    unfold Interpreter.isHalted, Interpreter.getState, Interpreter.getStack in *.
    cbn [Interpreter.objs Interpreter.bytecode Interpreter.validJumpDests
         state stack Stack.items] in *.
    subst st pc gas items.
    pose proof (byteAt_Some _ _ _ Hop) as [Hpc _].
    unfold Interpreter.step, Interpreter.getState.
    cbn [Interpreter.objs Interpreter.bytecode Interpreter.calldata
         Interpreter.validJumpDests state].
    rewrite Hrun.
    destruct (Z.geb_spec (MachineState.pc st0) (Z.of_nat (length code))); [lia |].
    rewrite Hop.
    change (Interpreter.executeOpcode code data dests Opcode.JUMP)
      with (executeJUMP (H:=H) code dests).
    unfold Interpreter.on, Interpreter.tryDispatch.
    cbn [Interpreter.objs Interpreter.bytecode Interpreter.calldata
         Interpreter.validJumpDests].
    cbv beta delta [bind ret emit getNextIndex record currentState halt onState].
    proj_simpl_goal. unfold TraceCollector.record. proj_simpl_goal.
    rewrite (executeJUMP_invalid code dests) by assumption.
    proj_simpl_goal. unfold haltedBy, Interpreter.getState, Interpreter.getTrace,
      Interpreter.getHost.
    cbn [Interpreter.objs Interpreter.bytecode Interpreter.calldata
         Interpreter.validJumpDests].
    proj_simpl_goal. unfold TraceCollector.record. proj_simpl_goal.
    rewrite <- !app_assoc. cbn [app].
    repeat match goal with
           | |- context [idx + 1 + 1 + 1 + 1 + 1] =>
               replace (idx + 1 + 1 + 1 + 1 + 1) with (idx + 4 + 1) by lia
           | |- context [idx + 1 + 1 + 1 + 1] =>
               replace (idx + 1 + 1 + 1 + 1) with (idx + 4) by lia
           | |- context [idx + 1 + 1 + 1] =>
               replace (idx + 1 + 1 + 1) with (idx + 3) by lia
           | |- context [idx + 1 + 1] =>
               replace (idx + 1 + 1) with (idx + 2) by lia
           end.
    reflexivity.
  - intros condition Hop Hgas Hcond Hstack.
    destruct i as [code data [st0 [items] [evs idx] h] dests].
    unfold Interpreter.isHalted, Interpreter.getState, Interpreter.getStack in *.
    cbn [Interpreter.objs Interpreter.bytecode Interpreter.validJumpDests
         state stack Stack.items] in *.
    subst st pc gas items.
    pose proof (byteAt_Some _ _ _ Hop) as [Hpc _].
    unfold Interpreter.step, Interpreter.getState.
    cbn [Interpreter.objs Interpreter.bytecode Interpreter.calldata
         Interpreter.validJumpDests state].
    rewrite Hrun.
    destruct (Z.geb_spec (MachineState.pc st0) (Z.of_nat (length code))); [lia |].
    rewrite Hop.
    change (Interpreter.executeOpcode code data dests Opcode.JUMPI)
      with (executeJUMPI (H:=H) code dests).
    unfold Interpreter.on, Interpreter.tryDispatch.
    cbn [Interpreter.objs Interpreter.bytecode Interpreter.calldata
         Interpreter.validJumpDests].
    cbv beta delta [bind ret emit getNextIndex record currentState halt onState].
    proj_simpl_goal. unfold TraceCollector.record. proj_simpl_goal.
    rewrite (executeJUMPI_invalid code dests) by assumption.
    proj_simpl_goal. unfold haltedBy, Interpreter.getState, Interpreter.getTrace,
      Interpreter.getHost.
    cbn [Interpreter.objs Interpreter.bytecode Interpreter.calldata
         Interpreter.validJumpDests].
    proj_simpl_goal. unfold TraceCollector.record. proj_simpl_goal.
    rewrite <- !app_assoc. cbn [app].
    repeat match goal with
           | |- context [idx + 1 + 1 + 1 + 1 + 1 + 1] =>
               replace (idx + 1 + 1 + 1 + 1 + 1 + 1) with (idx + 5 + 1) by lia
           | |- context [idx + 1 + 1 + 1 + 1 + 1] =>
               replace (idx + 1 + 1 + 1 + 1 + 1) with (idx + 5) by lia
           | |- context [idx + 1 + 1 + 1 + 1] =>
               replace (idx + 1 + 1 + 1 + 1) with (idx + 4) by lia
           | |- context [idx + 1 + 1 + 1] =>
               replace (idx + 1 + 1 + 1) with (idx + 3) by lia
           | |- context [idx + 1 + 1] =>
               replace (idx + 1 + 1) with (idx + 2) by lia
           end.
    reflexivity.
Qed.

Lemma invalid_jump_halts_witness :
  let i := jumpIntoPushData in
  Interpreter.isHalted i = false
  /\ Interpreter.byteAt (Interpreter.bytecode i)
       (MachineState.pc (Interpreter.getState i)) = Some Opcode.JUMP
  /\ Stack.items (Interpreter.getStack i) = [Word256.from 1; Word256.from 0x5b]
  /\ Interpreter.byteAt (Interpreter.bytecode i) 1 = Some 0x5b
  /\ insidePushData (Interpreter.bytecode i) 1
  /\ (1 ∉ Interpreter.validJumpDests i)
  /\ exists i',
       Interpreter.step i = (i', Normal false)
       /\ Interpreter.getHaltReason i' = Some INVALID_JUMP
       /\ map event_type (TraceCollector.events (Interpreter.getTrace i'))
          = map Some ["opcode.start"; "gas.charge"; "stack.push";
                      "opcode.start"; "gas.charge"; "stack.push";
                      "opcode.start"; "gas.charge"; "stack.pop"; "jump"; "halt"].
Proof.
  intros i.
  assert (Hlen : Z.of_nat (length (Interpreter.bytecode i)) < 2 ^ 53)
    by (vm_compute; reflexivity).
  assert (Hrun : Interpreter.isHalted i = false) by (vm_compute; reflexivity).
  assert (Hop : Interpreter.byteAt (Interpreter.bytecode i)
                  (MachineState.pc (Interpreter.getState i)) = Some Opcode.JUMP)
    by (vm_compute; reflexivity).
  assert (Hstack : Stack.items (Interpreter.getStack i)
                   = [Word256.from 1; Word256.from 0x5b])
    by (vm_compute; reflexivity).
  assert (Hdest : 0 <= Word256.value (Word256.from 1)) by (vm_compute; discriminate).
  assert (Hnot : 1 ∉ Interpreter.validJumpDests i).
  { apply (proj1 (bool_decide_eq_false _)). vm_compute. reflexivity. }
  assert (Hgas : 8 <= MachineState.gasRemaining (Interpreter.getState i))
    by (vm_compute; discriminate).
  assert (Hinside : insidePushData (Interpreter.bytecode i) 1).
  { exists 0, 0x60. split; [apply reach_here |].
    split; [vm_compute; reflexivity |]. split; [reflexivity |]. vm_compute.
    split; [reflexivity | discriminate]. }
  pose proof (proj1 (invalid_jump_halts i (Word256.from 1) [Word256.from 0x5b]
                       Hlen Hrun Hdest (or_intror Hnot)) Hop Hgas Hstack) as Hstep.
  repeat (split; [assumption |]).
  split; [vm_compute; reflexivity |].
  repeat (split; [assumption |]).
  eexists. split; [exact Hstep |]. split; vm_compute; reflexivity.
Defined.

(** ** The [stack] field of the machine state *)

Section KeepsStateStack.
Context {H : Type}.

Lemma keeps_ret {A} (a : A) : keepsStateStack (@ret H A a).
Proof. intros o. reflexivity. Qed.

Lemma keeps_throw {A} e : keepsStateStack (@throw H A e).
Proof. intros o. reflexivity. Qed.

Lemma keeps_bind {A B} (m : M H A) (k : A -> M H B) :
  keepsStateStack m -> (forall a, keepsStateStack (k a)) ->
  keepsStateStack (bind m k).
Proof.
  intros Hm Hk o. unfold bind. specialize (Hm o).
  destruct (m o) as [o1 [a | e]]; cbn [fst] in *.
  - rewrite Hk. exact Hm.
  - exact Hm.
Qed.

Lemma keeps_onState {A} (f : MachineState.t -> MachineState.t * Completion A) :
  (forall st, MachineState.stack (fst (f st)) = MachineState.stack st) ->
  keepsStateStack (@onState H A f).
Proof.
  intros Hf o. unfold onState. specialize (Hf (state o)).
  destruct (f (state o)) as [st r]. exact Hf.
Qed.

Lemma keeps_onStack {A} (f : Stack.t -> Stack.t * Completion A) :
  keepsStateStack (@onStack H A f).
Proof. intros o. unfold onStack. destruct (f (stack o)). reflexivity. Qed.

Lemma keeps_currentState : keepsStateStack (@currentState H).
Proof. intros o. reflexivity. Qed.

Lemma keeps_getNextIndex : keepsStateStack (@getNextIndex H).
Proof. intros o. reflexivity. Qed.

Lemma keeps_record e : keepsStateStack (@record H e).
Proof. intros o. reflexivity. Qed.

Lemma keeps_emit mk : keepsStateStack (@emit H mk).
Proof.
  unfold emit. apply keeps_bind; [apply keeps_getNextIndex | intros index].
  apply keeps_bind; [apply keeps_currentState | intros st]. apply keeps_record.
Qed.

Lemma expandMemory_stack st offset len :
  MachineState.stack (fst (MachineState.expandMemory st offset len))
  = MachineState.stack st.
Proof.
  unfold MachineState.expandMemory.
  repeat match goal with |- context [if ?b then _ else _] => destruct b end;
    reflexivity.
Qed.

Lemma keeps_chargeGas amount : keepsStateStack (@chargeGas H amount).
Proof.
  apply keeps_onState. intros st. unfold MachineState.chargeGas.
  destruct (MachineState.gasRemaining st <? amount); reflexivity.
Qed.

Lemma keeps_halt reason : keepsStateStack (@halt H reason).
Proof. apply keeps_onState. reflexivity. Qed.

Lemma keeps_setPc v : keepsStateStack (@setPc H v).
Proof. apply keeps_onState. reflexivity. Qed.

Lemma keeps_advancePc n : keepsStateStack (@advancePc H n).
Proof. apply keeps_onState. reflexivity. Qed.

Lemma keeps_setReturnData d : keepsStateStack (@setReturnData H d).
Proof. apply keeps_onState. reflexivity. Qed.

Lemma keeps_expandMemory offset len : keepsStateStack (@expandMemory H offset len).
Proof. apply keeps_onState. intros st. apply expandMemory_stack. Qed.

Lemma keeps_readMemory offset len : keepsStateStack (@readMemory H offset len).
Proof.
  apply keeps_onState. intros st. unfold MachineState.readMemory.
  destruct (len =? 0); [reflexivity |].
  destruct (offset + len >? MachineState.getMemorySize st).
  - pose proof (expandMemory_stack st offset len) as E.
    destruct (MachineState.expandMemory st offset len) as [st1 [c | e]]; exact E.
  - reflexivity.
Qed.

Lemma keeps_writeMemory offset data : keepsStateStack (@writeMemory H offset data).
Proof.
  apply keeps_onState. intros st. unfold MachineState.writeMemory.
  destruct (Z.of_nat (length data) =? 0); [reflexivity |].
  destruct (offset + Z.of_nat (length data) >? MachineState.getMemorySize st).
  - pose proof (expandMemory_stack st offset (Z.of_nat (length data))) as E.
    destruct (MachineState.expandMemory st offset (Z.of_nat (length data)))
      as [st1 [c | e]]; [| exact E].
    destruct (offset + Z.of_nat (length data) >? MachineState.getMemorySize st1);
      exact E.
  - destruct (offset + Z.of_nat (length data) >? MachineState.getMemorySize st);
      reflexivity.
Qed.

Lemma keeps_push w : keepsStateStack (@push H w).
Proof. apply keeps_onStack. Qed.

Lemma keeps_pop : keepsStateStack (@pop H).
Proof. apply keeps_onStack. Qed.

Lemma keeps_peekAt d : keepsStateStack (@peekAt H d).
Proof. apply keeps_onStack. Qed.

Lemma keeps_dup n : keepsStateStack (@dup H n).
Proof. apply keeps_onStack. Qed.

Lemma keeps_swap n : keepsStateStack (@swap H n).
Proof. apply keeps_onStack. Qed.

Context `{Host H}.

Lemma keeps_hostGetAddress : keepsStateStack hostGetAddress.
Proof. intros o. reflexivity. Qed.

Lemma keeps_hostSload a k : keepsStateStack (hostSload a k).
Proof. intros o. reflexivity. Qed.

Lemma keeps_hostSstore a k v : keepsStateStack (hostSstore a k v).
Proof. intros o. reflexivity. Qed.

Lemma keeps_hostLog entry : keepsStateStack (hostLog entry).
Proof. intros o. reflexivity. Qed.

End KeepsStateStack.

Create HintDb keeps discriminated.
#[export] Hint Resolve keeps_ret keeps_throw keeps_currentState keeps_getNextIndex
  keeps_record keeps_emit keeps_chargeGas keeps_halt keeps_setPc keeps_advancePc
  keeps_setReturnData keeps_expandMemory keeps_readMemory keeps_writeMemory
  keeps_push keeps_pop keeps_peekAt keeps_dup keeps_swap
  keeps_hostGetAddress keeps_hostSload keeps_hostSstore keeps_hostLog : keeps.

(** Walks through a handler statement by statement. *)
Ltac keeps_stack :=
  repeat first
    [ apply keeps_bind; [| intros ?]
    | progress cbv zeta
    | match goal with
      | |- keepsStateStack (if ?b then _ else _) => destruct b
      end
    | solve [auto with keeps] ].

Section HandlersKeepStateStack.
Context {H : Type} `{Host H}.

Lemma keeps_executePush code opcode : keepsStateStack (Interpreter.executePush (H:=H) code opcode).
Proof. unfold Interpreter.executePush. keeps_stack. Qed.

Lemma keeps_logTail offset len topicGas topics :
  keepsStateStack (logTail (H:=H) offset len topicGas topics).
Proof. unfold logTail, callTraceEventBuilderLog. keeps_stack. Qed.

Lemma keeps_executeOpcode code data dests opcode :
  keepsStateStack (Interpreter.executeOpcode (H:=H) code data dests opcode).
Proof.
  pose proof keeps_logTail. pose proof keeps_executePush.
  unfold Interpreter.executeOpcode.
  repeat match goal with
         | |- keepsStateStack (if ?b then _ else _) => destruct b
         end;
    unfold executeDUP, executeSWAP, executeStop, executeAdd, executeMul,
      executeSub, executeDiv, executePOP, executeMLOAD, executeMSTORE,
      executeMSTORE8, executeMSIZE, executeCALLDATALOAD, executeCALLDATASIZE,
      executeCALLDATACOPY, executeRETURN, executeREVERT, executePC,
      executeJUMP, executeJUMPI, executeJUMPDEST, executeSLOAD, executeSSTORE,
      executeLOG0, executeLOG1, executeLOG2, executeLOG3, executeLOG4;
    keeps_stack; auto.
Qed.

Lemma keeps_tryDispatch (m : M H unit) :
  keepsStateStack m -> keepsStateStack (Interpreter.tryDispatch m).
Proof.
  intros Hm o. unfold Interpreter.tryDispatch. specialize (Hm o).
  destruct (m o) as [o1 [a | e]]; cbn [fst] in *; [exact Hm |].
  destruct (JS.instanceof_StackError e).
  - rewrite keeps_halt. exact Hm.
  - destruct (String.eqb (JS.message e) "Out of gas"); exact Hm.
Qed.

Lemma step_keeps_state_stack (i : Interpreter.t) :
  MachineState.stack (Interpreter.getState (fst (Interpreter.step i)))
  = MachineState.stack (Interpreter.getState i).
Proof.
  assert (Hon : forall A (m : M H A), keepsStateStack m ->
            MachineState.stack (Interpreter.getState (fst (Interpreter.on i m)))
            = MachineState.stack (Interpreter.getState i)).
  { intros A m Hm. unfold Interpreter.on, Interpreter.getState.
    specialize (Hm (Interpreter.objs i)).
    destruct (m (Interpreter.objs i)) as [o r]. exact Hm. }
  unfold Interpreter.step.
  destruct (MachineState.halted (Interpreter.getState i)); [reflexivity |].
  destruct (MachineState.pc (Interpreter.getState i)
            >=? Z.of_nat (length (Interpreter.bytecode i))).
  - apply Hon. keeps_stack.
  - destruct (Interpreter.byteAt (Interpreter.bytecode i)
                (MachineState.pc (Interpreter.getState i))) as [opcode |];
      [| reflexivity].
    apply Hon.
    apply keeps_bind; [auto with keeps | intros _].
    apply keeps_bind; [apply keeps_tryDispatch, keeps_executeOpcode | intros _].
    apply keeps_bind; [auto with keeps | intros st].
    destruct (MachineState.halted st); [| auto with keeps].
    destruct (MachineState.haltReason st); keeps_stack.
Qed.

Lemma run_keeps_state_stack fuel : forall i : Interpreter.t,
  MachineState.stack (Interpreter.getState (fst (Interpreter.run fuel i)))
  = MachineState.stack (Interpreter.getState i).
Proof.
  induction fuel as [| fuel IH]; intros i; cbn [Interpreter.run]; [reflexivity |].
  pose proof (step_keeps_state_stack i) as Hs.
  destruct (Interpreter.step i) as [i1 [[|] | e]]; cbn [fst] in *.
  - rewrite IH. exact Hs.
  - exact Hs.
  - exact Hs.
Qed.

End HandlersKeepStateStack.

(** C10: the [stack] field of the machine state is the empty array of the
    constructor and no step writes it; the operands live in the [Stack]
    object that [getStack] returns. *)
Theorem state_stack_never_written :
  (forall (H : Type) (HH : Host H) (config : @Interpreter.InterpreterConfig H),
      MachineState.stack (Interpreter.getState (Interpreter.new config)) = [])
  /\ (forall (H : Type) (HH : Host H) (i : @Interpreter.t H),
        MachineState.stack (Interpreter.getState (fst (Interpreter.step i)))
        = MachineState.stack (Interpreter.getState i))
  /\ (forall (H : Type) (HH : Host H) (config : @Interpreter.InterpreterConfig H)
        (fuel : nat),
        MachineState.stack
          (Interpreter.getState (fst (Interpreter.run fuel (Interpreter.new config))))
        = [])
  /\ (let i := fst (Interpreter.run 10 (interpreterFor [0x60; 5; 0x00] 100)) in
      Stack.items (Interpreter.getStack i) = [Word256.from 5]
      /\ MachineState.stack (Interpreter.getState i) = []).
Proof.
  split; [reflexivity |].
  split; [intros H HH i; apply step_keeps_state_stack |].
  split; [intros H HH config fuel; rewrite run_keeps_state_stack; reflexivity |].
  vm_compute. split; reflexivity.
Qed.

Section HandlersRecordInOrder.
Context {H : Type}.

Lemma executeAdd_in_order : recordsInOrder true false (@executeAdd H).
Proof. unfold executeAdd. ordered_by_execution. Qed.

Lemma executeMul_in_order : recordsInOrder true false (@executeMul H).
Proof. unfold executeMul. ordered_by_execution. Qed.

Lemma executeSub_in_order : recordsInOrder true false (@executeSub H).
Proof. unfold executeSub. ordered_by_execution. Qed.

Lemma executeDiv_in_order : recordsInOrder true false (@executeDiv H).
Proof. unfold executeDiv. ordered_by_execution. Qed.

Lemma executeStop_in_order : recordsInOrder false false (@executeStop H).
Proof. unfold executeStop. ordered_by_execution. Qed.

Lemma executePC_in_order : recordsInOrder true false (@executePC H).
Proof. unfold executePC. ordered_by_execution. Qed.

Lemma executeJUMPDEST_in_order : recordsInOrder true false (@executeJUMPDEST H).
Proof. unfold executeJUMPDEST. ordered_by_execution. Qed.

Lemma executeJUMP_in_order code dests :
  recordsInOrder true false (@executeJUMP H code dests).
Proof. unfold executeJUMP. ordered_by_execution. Qed.

Lemma executeJUMPI_in_order code dests :
  recordsInOrder true false (@executeJUMPI H code dests).
Proof. unfold executeJUMPI. ordered_by_execution. Qed.

Lemma executePOP_in_order : recordsInOrder true false (@executePOP H).
Proof. unfold executePOP. ordered_by_execution. Qed.

Lemma executeDUP_in_order opcode : recordsInOrder true false (@executeDUP H opcode).
Proof. unfold executeDUP. ordered_by_execution. Qed.

Lemma executeSWAP_in_order opcode : recordsInOrder true true (@executeSWAP H opcode).
Proof.
  unfold executeSWAP.
  intros [[pc0 gas0 sstack mem rd hl hr] [items] [evs0 idx] h] o' r Hrun.
  sym_exec Hrun; injection Hrun as <- <-; proj_simpl_goal;
    rewrite <- ?app_assoc; cbn [app];
    lazymatch goal with
    | |- exists _ _ _ _, ?e ++ ?E = _ /\ _ => exists E, [], [], items
    | |- exists _ _ _ _, ?e = _ /\ _ => exists [], [], [], items
    end;
    (split; [first [reflexivity | symmetry; apply app_nil_r] |]);
    (split; [reflexivity |]);
    (split; [intros ? ? ?; discriminate |]);
    (split; [reflexivity |]);
    (split; [reflexivity |]);
    (split; [reflexivity |]);
    (split; [rewrite ?length_insert; reflexivity | intros ?; discriminate]).
Qed.

Lemma executeMLOAD_in_order : recordsInOrder true false (@executeMLOAD H).
Proof. unfold executeMLOAD. ordered_by_execution. Qed.

Lemma executeMSTORE_in_order : recordsInOrder true false (@executeMSTORE H).
Proof. unfold executeMSTORE. ordered_by_execution. Qed.

Lemma executeMSTORE8_in_order : recordsInOrder true false (@executeMSTORE8 H).
Proof. unfold executeMSTORE8. ordered_by_execution. Qed.

Lemma executeMSIZE_in_order : recordsInOrder true false (@executeMSIZE H).
Proof. unfold executeMSIZE. ordered_by_execution. Qed.

Lemma executeCALLDATALOAD_in_order data :
  recordsInOrder true false (@executeCALLDATALOAD H data).
Proof. unfold executeCALLDATALOAD. ordered_by_execution. Qed.

Lemma executeCALLDATASIZE_in_order data :
  recordsInOrder true false (@executeCALLDATASIZE H data).
Proof. unfold executeCALLDATASIZE. ordered_by_execution. Qed.

Lemma executeCALLDATACOPY_in_order data :
  recordsInOrder true false (@executeCALLDATACOPY H data).
Proof. unfold executeCALLDATACOPY. ordered_by_execution. Qed.

Lemma executeRETURN_in_order : recordsInOrder false false (@executeRETURN H).
Proof. unfold executeRETURN. ordered_by_execution. Qed.

Lemma executeREVERT_in_order : recordsInOrder false false (@executeREVERT H).
Proof. unfold executeREVERT. ordered_by_execution. Qed.

Lemma halt_in_order reason : recordsInOrder false false (@halt H reason).
Proof. ordered_by_execution. Qed.

Context `{Host H}.

Lemma executePush_in_order code opcode :
  recordsInOrder true false (Interpreter.executePush (H:=H) code opcode).
Proof. unfold Interpreter.executePush. ordered_by_execution. Qed.

End HandlersRecordInOrder.

Lemma in_range_true a lo hi : (a >=? lo) && (a <=? hi) = true <-> lo <= a <= hi.
Proof. rewrite andb_true_iff, Z.geb_le, Z.leb_le. tauto. Qed.

Lemma in_range_false a lo hi : (a >=? lo) && (a <=? hi) = false <-> ~ (lo <= a <= hi).
Proof. rewrite <- in_range_true. destruct ((a >=? lo) && (a <=? hi)); intuition congruence. Qed.

(** C3, as the code has it, for every opcode but SLOAD, SSTORE and
    LOG0..LOG4: the events of a handler are the baseline gas charge (when
    the opcode has one, and unless the charge itself failed), then one
    StackPop per operand popped, in the order of the stack, then dynamic
    gas charges and side-effect events, then one StackPush per result. *)
Theorem handler_events_in_order {H : Type} `{Host H}
        (code data : list byte) (dests : gset Z) (opcode : Z) :
  isStorageOrLog opcode = false ->
  recordsInOrder (hasBaseline opcode) (isSwap opcode)
                 (Interpreter.executeOpcode (H:=H) code data dests opcode).
Proof.
  intros Hnot. unfold Interpreter.executeOpcode.
  destruct (Opcode.isPushOpcode opcode) eqn:Hpush.
  { assert (hasBaseline opcode = true) as -> by (unfold hasBaseline; rewrite Hpush; reflexivity).
    assert (isSwap opcode = false) as ->.
    { apply in_range_true in Hpush. apply in_range_false. lia. }
    apply executePush_in_order. }
  destruct ((opcode >=? 128) && (opcode <=? 143)) eqn:Hdup.
  { apply in_range_true in Hdup.
    assert (hasBaseline opcode = true) as ->.
    { unfold hasBaseline. rewrite Hpush.
      rewrite (proj2 (in_range_true opcode 128 159)) by lia. reflexivity. }
    assert (isSwap opcode = false) as -> by (apply in_range_false; lia).
    apply executeDUP_in_order. }
  destruct ((opcode >=? 144) && (opcode <=? 159)) eqn:Hswap.
  { assert (isSwap opcode = true) as -> by exact Hswap.
    apply in_range_true in Hswap.
    assert (hasBaseline opcode = true) as ->.
    { unfold hasBaseline. rewrite Hpush.
      rewrite (proj2 (in_range_true opcode 128 159)) by lia. reflexivity. }
    apply executeSWAP_in_order. }
  assert (Hsw : isSwap opcode = false) by exact Hswap.
  rewrite Hsw.
  repeat match goal with
         | |- recordsInOrder _ _ (if opcode =? ?c then _ else _) =>
             destruct (Z.eqb_spec opcode c) as [-> | ?]
         end;
    try discriminate Hnot;
    try first
      [ exact executeStop_in_order | exact executeAdd_in_order
      | exact executeMul_in_order | exact executeSub_in_order
      | exact executeDiv_in_order | exact executePOP_in_order
      | exact executeMLOAD_in_order | exact executeMSTORE_in_order
      | exact executeMSTORE8_in_order | exact executeMSIZE_in_order
      | exact (executeCALLDATALOAD_in_order data)
      | exact (executeCALLDATASIZE_in_order data)
      | exact (executeCALLDATACOPY_in_order data)
      | exact executeRETURN_in_order | exact executeREVERT_in_order
      | exact executePC_in_order | exact (executeJUMP_in_order code dests)
      | exact (executeJUMPI_in_order code dests)
      | exact executeJUMPDEST_in_order ].
  assert (hasBaseline opcode = false) as ->.
  { unfold hasBaseline. rewrite Hpush. apply in_range_false in Hdup, Hswap.
    rewrite (proj2 (in_range_false opcode 128 159)) by lia.
    cbn [orb]. apply not_true_is_false. intros Hex.
    apply existsb_exists in Hex as (c & Hin & Heq).
    apply Z.eqb_eq in Heq. subst c. cbn [In] in Hin.
    repeat (destruct Hin as [Hin | Hin];
            [match goal with
             | Hne : opcode <> _ |- _ => exact (Hne (eq_sym Hin))
             end |]).
    exact Hin. }
  apply halt_in_order.
Qed.

Lemma handler_events_in_order_witness :
  isStorageOrLog Opcode.ADD = false
  /\ exists evs popped pushed rest,
       TraceCollector.events
         (trace (fst (Interpreter.executeOpcode [] [] ∅ Opcode.ADD addObjects)))
       = TraceCollector.events (trace addObjects) ++ evs
       /\ handlerOrder (hasBaseline Opcode.ADD) evs = true
       /\ Stack.items (stack addObjects) = popped ++ rest
       /\ valuesOf "stack.pop" evs = hexValues popped
       /\ valuesOf "stack.push" evs = hexValues pushed.
Proof.
  assert (Hnot : isStorageOrLog Opcode.ADD = false) by reflexivity.
  split; [exact Hnot |].
  destruct (handler_events_in_order (H:=MemoryHost.t) [] [] ∅ Opcode.ADD Hnot
              addObjects
              (fst (Interpreter.executeOpcode [] [] ∅ Opcode.ADD addObjects))
              (snd (Interpreter.executeOpcode [] [] ∅ Opcode.ADD addObjects)))
    as (evs & popped & pushed & rest & He & Ho & _ & Hs & Hp & Hq & _).
  { destruct (Interpreter.executeOpcode [] [] ∅ Opcode.ADD addObjects); reflexivity. }
  exists evs, popped, pushed, rest. repeat split; assumption.
Defined.

(** C3, as the specification words it, fails for RETURN: the handler has no
    baseline charge, so its two StackPop events come first and the gas
    charge for the memory expansion follows them. *)
Lemma RETURN_charges_gas_after_pops :
  ~ recordsInClaimedOrder
      (Interpreter.executeOpcode (H:=MemoryHost.t) [] [] ∅ Opcode.RETURN).
Proof.
  intros Hclaim.
  destruct (Hclaim returnObjects
              (fst (Interpreter.executeOpcode [] [] ∅ Opcode.RETURN returnObjects)) tt)
    as (evs & He & Ho).
  { vm_compute. reflexivity. }
  vm_compute in He. subst evs. vm_compute in Ho. discriminate Ho.
Qed.

(** ** Gas accounting outside SLOAD, SSTORE and LOG *)

Lemma sumCharges_from (evs : list TraceEvent) : forall acc,
  fold_left (fun sum e => sum + gasChargeAmount e) evs acc
  = acc + fold_left (fun sum e => sum + gasChargeAmount e) evs 0.
Proof.
  induction evs as [| e evs IH]; intros acc; cbn [fold_left]; [lia |].
  rewrite IH, (IH (0 + gasChargeAmount e)). lia.
Qed.

Lemma sumCharges_app a b : sumCharges (a ++ b) = sumCharges a + sumCharges b.
Proof.
  unfold sumCharges. rewrite List.filter_app, fold_left_app.
  apply sumCharges_from.
Qed.

Lemma sumCharges_nil : sumCharges [] = 0.
Proof. reflexivity. Qed.

Lemma sumCharges_gasCharge index pc gas amount reason rest :
  sumCharges (TraceEventBuilder.gasCharge index pc gas amount reason :: rest)
  = amount + sumCharges rest.
Proof.
  unfold sumCharges.
  change (List.filter (hasType "gas.charge")
            (TraceEventBuilder.gasCharge index pc gas amount reason :: rest))
    with (TraceEventBuilder.gasCharge index pc gas amount reason
          :: List.filter (hasType "gas.charge") rest).
  cbn [fold_left]. rewrite sumCharges_from.
  change (gasChargeAmount (TraceEventBuilder.gasCharge index pc gas amount reason))
    with (default 0 (JS.BigInt_of_decimal (JS.toString10 amount))).
  rewrite toString10_reads_back. reflexivity.
Qed.

Lemma sumCharges_other e rest :
  hasType "gas.charge" e = false -> sumCharges (e :: rest) = sumCharges rest.
Proof. intros He. unfold sumCharges. cbn [List.filter]. rewrite He. reflexivity. Qed.

(** Adds up the charges of an explicit list of events. *)
Ltac sum_charges :=
  repeat first
    [ rewrite sumCharges_gasCharge
    | rewrite sumCharges_other by reflexivity
    | rewrite sumCharges_nil ].

Lemma totalGasCharged_sumCharges c :
  totalGasCharged c = sumCharges (TraceCollector.events c).
Proof. reflexivity. Qed.

Ltac charges_by_execution :=
  intros [[pc0 gas0 sstack mem rd hl hr] [items] [evs0 idx] h] o' r Hrun;
  sym_exec Hrun;
  injection Hrun as <- <-; proj_simpl_goal;
  rewrite <- ?app_assoc; cbn [app];
  lazymatch goal with
  | |- exists _, ?e ++ ?E = _ /\ _ => exists E
  | |- exists _, ?e = _ /\ _ => exists (@nil TraceEvent)
  end;
  (split; [first [reflexivity | symmetry; apply app_nil_r] |]);
  sum_charges; lia.

Section HandlersRecordCharges.
Context {H : Type}.

Lemma executeAdd_charges : chargesRecorded (@executeAdd H).
Proof. unfold executeAdd. charges_by_execution. Qed.

Lemma executeMul_charges : chargesRecorded (@executeMul H).
Proof. unfold executeMul. charges_by_execution. Qed.

Lemma executeSub_charges : chargesRecorded (@executeSub H).
Proof. unfold executeSub. charges_by_execution. Qed.

Lemma executeDiv_charges : chargesRecorded (@executeDiv H).
Proof. unfold executeDiv. charges_by_execution. Qed.

Lemma executePC_charges : chargesRecorded (@executePC H).
Proof. unfold executePC. charges_by_execution. Qed.

Lemma executeJUMPDEST_charges : chargesRecorded (@executeJUMPDEST H).
Proof. unfold executeJUMPDEST. charges_by_execution. Qed.

Lemma executeJUMP_charges code dests : chargesRecorded (@executeJUMP H code dests).
Proof. unfold executeJUMP. charges_by_execution. Qed.

Lemma executeJUMPI_charges code dests : chargesRecorded (@executeJUMPI H code dests).
Proof. unfold executeJUMPI. charges_by_execution. Qed.

Lemma executePOP_charges : chargesRecorded (@executePOP H).
Proof. unfold executePOP. charges_by_execution. Qed.

Lemma executeDUP_charges opcode : chargesRecorded (@executeDUP H opcode).
Proof. unfold executeDUP. charges_by_execution. Qed.

Lemma executeSWAP_charges opcode : chargesRecorded (@executeSWAP H opcode).
Proof. unfold executeSWAP. charges_by_execution. Qed.

Lemma executeMLOAD_charges : chargesRecorded (@executeMLOAD H).
Proof. unfold executeMLOAD. charges_by_execution. Qed.

Lemma executeMSTORE_charges : chargesRecorded (@executeMSTORE H).
Proof. unfold executeMSTORE. charges_by_execution. Qed.

Lemma executeMSTORE8_charges : chargesRecorded (@executeMSTORE8 H).
Proof. unfold executeMSTORE8. charges_by_execution. Qed.

Lemma executeMSIZE_charges : chargesRecorded (@executeMSIZE H).
Proof. unfold executeMSIZE. charges_by_execution. Qed.

Lemma executeCALLDATALOAD_charges data : chargesRecorded (@executeCALLDATALOAD H data).
Proof. unfold executeCALLDATALOAD. charges_by_execution. Qed.

Lemma executeCALLDATASIZE_charges data : chargesRecorded (@executeCALLDATASIZE H data).
Proof. unfold executeCALLDATASIZE. charges_by_execution. Qed.

Lemma executeCALLDATACOPY_charges data : chargesRecorded (@executeCALLDATACOPY H data).
Proof. unfold executeCALLDATACOPY. charges_by_execution. Qed.

Lemma executeRETURN_charges : chargesRecorded (@executeRETURN H).
Proof. unfold executeRETURN. charges_by_execution. Qed.

Lemma executeREVERT_charges : chargesRecorded (@executeREVERT H).
Proof. unfold executeREVERT. charges_by_execution. Qed.

Lemma halt_charges reason : chargesRecorded (@halt H reason).
Proof. charges_by_execution. Qed.

Context `{Host H}.

Lemma executePush_charges code opcode :
  chargesRecorded (Interpreter.executePush (H:=H) code opcode).
Proof. unfold Interpreter.executePush. charges_by_execution. Qed.

(** The dispatcher, one case per handler. *)
Lemma executeOpcode_cases (P : M H unit -> Prop) code data dests opcode :
  isStorageOrLog opcode = false ->
  P (Interpreter.executePush code opcode) ->
  P (executeDUP opcode) -> P (executeSWAP opcode) ->
  P executeStop -> P executeAdd -> P executeMul -> P executeSub ->
  P executeDiv -> P executePOP -> P executeMLOAD -> P executeMSTORE ->
  P executeMSTORE8 -> P executeMSIZE ->
  P (executeCALLDATALOAD data) -> P (executeCALLDATASIZE data) ->
  P (executeCALLDATACOPY data) -> P executeRETURN -> P executeREVERT ->
  P executePC -> P (executeJUMP code dests) -> P (executeJUMPI code dests) ->
  P executeJUMPDEST -> P (halt INVALID_OPCODE) ->
  P (Interpreter.executeOpcode code data dests opcode).
Proof.
  intros Hnot. intros. unfold Interpreter.executeOpcode.
  repeat match goal with
         | |- P (if opcode =? ?c then _ else _) =>
             destruct (Z.eqb_spec opcode c) as [-> | ?]
         | |- P (if ?b then _ else _) => destruct b
         end;
    try assumption; discriminate Hnot.
Qed.

Lemma executeOpcode_charges code data dests opcode :
  isStorageOrLog opcode = false ->
  chargesRecorded (Interpreter.executeOpcode (H:=H) code data dests opcode).
Proof.
  intros Hnot.
  apply executeOpcode_cases;
    auto using executePush_charges, executeDUP_charges, executeSWAP_charges,
      executeAdd_charges, executeMul_charges, executeSub_charges,
      executeDiv_charges, executePOP_charges, executeMLOAD_charges,
      executeMSTORE_charges, executeMSTORE8_charges, executeMSIZE_charges,
      executeCALLDATALOAD_charges, executeCALLDATASIZE_charges,
      executeCALLDATACOPY_charges, executeRETURN_charges, executeREVERT_charges,
      executePC_charges, executeJUMP_charges, executeJUMPI_charges,
      executeJUMPDEST_charges, halt_charges.
  apply (halt_charges STOP).
Qed.

End HandlersRecordCharges.

Section StepRecordsCharges.
Context {H : Type} `{Host H}.

Lemma charges_ret {A} (a : A) : chargesRecorded (@ret H A a).
Proof.
  intros o o' r [= <- <-]. exists []. rewrite app_nil_r. split; [reflexivity |].
  rewrite sumCharges_nil. lia.
Qed.

Lemma charges_bind {A B} (m : M H A) (k : A -> M H B) :
  chargesRecorded m -> (forall a, chargesRecorded (k a)) ->
  chargesRecorded (bind m k).
Proof.
  intros Hm Hk o o' r. unfold bind.
  destruct (m o) as [o1 [a | e]] eqn:Em; intros Hrun.
  - destruct (Hm _ _ _ Em) as (evs1 & He1 & Hg1).
    destruct (Hk a _ _ _ Hrun) as (evs2 & He2 & Hg2).
    exists (evs1 ++ evs2). rewrite He2, He1, app_assoc, sumCharges_app.
    split; [reflexivity | lia].
  - injection Hrun as <- <-. exact (Hm _ _ _ Em).
Qed.

Lemma charges_emit_other (mk : Z -> Z -> Z -> TraceEvent) :
  (forall index pc gas, hasType "gas.charge" (mk index pc gas) = false) ->
  chargesRecorded (@emit H mk).
Proof.
  intros Hmk [st s [evs idx] h] o' r [= <- <-]. cbn.
  eexists. split; [reflexivity |].
  rewrite sumCharges_other by apply Hmk. rewrite sumCharges_nil. lia.
Qed.

Lemma charges_currentState : chargesRecorded (@currentState H).
Proof.
  intros o o' r [= <- <-]. exists []. rewrite app_nil_r. split; [reflexivity |].
  rewrite sumCharges_nil. lia.
Qed.

Lemma charges_tryDispatch (m : M H unit) :
  chargesRecorded m -> chargesRecorded (Interpreter.tryDispatch m).
Proof.
  intros Hm o o' r. unfold Interpreter.tryDispatch.
  destruct (m o) as [o1 [a | e]] eqn:Em.
  - intros [= <- <-]. exact (Hm _ _ _ Em).
  - destruct (Hm _ _ _ Em) as (evs & He & Hg).
    destruct (JS.instanceof_StackError e).
    + intros [= <- <-]. exists evs. split; assumption.
    + destruct (String.eqb (JS.message e) "Out of gas");
        intros [= <- <-]; exists evs; split; assumption.
Qed.

Lemma withoutStorageAndLog_byteAt code pc opcode :
  withoutStorageAndLog code ->
  Interpreter.byteAt code pc = Some opcode ->
  isStorageOrLog opcode = false.
Proof.
  intros Hcode Hop. unfold Interpreter.byteAt in Hop.
  destruct (pc <? 0); [discriminate |].
  destruct (code !! Z.to_nat pc) as [b |] eqn:Eb; [| discriminate].
  injection Hop as <-.
  unfold withoutStorageAndLog in Hcode. rewrite List.Forall_forall in Hcode.
  apply Hcode. apply list_elem_of_In. eapply list_elem_of_lookup_2. exact Eb.
Qed.

(** One step keeps the sum of the gas left and the gas charged in the
    trace. *)
Lemma step_keeps_gas_accounted (i : Interpreter.t) :
  withoutStorageAndLog (Interpreter.bytecode i) ->
  let i' := fst (Interpreter.step i) in
  Interpreter.bytecode i' = Interpreter.bytecode i
  /\ MachineState.gasRemaining (Interpreter.getState i')
     + totalGasCharged (Interpreter.getTrace i')
     = MachineState.gasRemaining (Interpreter.getState i)
       + totalGasCharged (Interpreter.getTrace i).
Proof.
  intros Hcode.
  assert (Hon : forall A (m : M H A), chargesRecorded m ->
            let i' := fst (Interpreter.on i m) in
            Interpreter.bytecode i' = Interpreter.bytecode i
            /\ MachineState.gasRemaining (Interpreter.getState i')
               + totalGasCharged (Interpreter.getTrace i')
               = MachineState.gasRemaining (Interpreter.getState i)
                 + totalGasCharged (Interpreter.getTrace i)).
  { intros A m Hm. unfold Interpreter.on, Interpreter.getState, Interpreter.getTrace.
    destruct (m (Interpreter.objs i)) as [o r] eqn:Em.
    destruct (Hm _ _ _ Em) as (evs & He & Hg).
    cbn [fst Interpreter.bytecode Interpreter.objs]. split; [reflexivity |].
    rewrite !totalGasCharged_sumCharges, He, sumCharges_app. lia. }
  unfold Interpreter.step.
  destruct (MachineState.halted (Interpreter.getState i)); [split; reflexivity |].
  destruct (MachineState.pc (Interpreter.getState i)
            >=? Z.of_nat (length (Interpreter.bytecode i))).
  - apply Hon.
    apply charges_bind; [apply halt_charges | intros _].
    apply charges_bind; [apply charges_emit_other; reflexivity | intros _].
    apply charges_ret.
  - destruct (Interpreter.byteAt (Interpreter.bytecode i)
                (MachineState.pc (Interpreter.getState i))) as [opcode |] eqn:Hop;
      [| split; reflexivity].
    apply Hon.
    apply charges_bind; [apply charges_emit_other; reflexivity | intros _].
    apply charges_bind.
    { apply charges_tryDispatch, executeOpcode_charges.
      eapply withoutStorageAndLog_byteAt; eassumption. }
    intros _. apply charges_bind; [apply charges_currentState | intros st].
    destruct (MachineState.halted st); [| apply charges_ret].
    destruct (MachineState.haltReason st); [| apply charges_ret].
    apply charges_bind; [apply charges_emit_other; reflexivity | intros _].
    apply charges_ret.
Qed.

Lemma run_keeps_gas_accounted fuel : forall i : Interpreter.t,
  withoutStorageAndLog (Interpreter.bytecode i) ->
  let i' := fst (Interpreter.run fuel i) in
  MachineState.gasRemaining (Interpreter.getState i')
  + totalGasCharged (Interpreter.getTrace i')
  = MachineState.gasRemaining (Interpreter.getState i)
    + totalGasCharged (Interpreter.getTrace i).
Proof.
  induction fuel as [| fuel IH]; intros i Hcode; cbn [Interpreter.run]; [reflexivity |].
  pose proof (step_keeps_gas_accounted i Hcode) as [Hb Hs].
  destruct (Interpreter.step i) as [i1 [[|] | e]]; cbn [fst] in *; try exact Hs.
  rewrite IH by (rewrite Hb; exact Hcode). exact Hs.
Qed.

(** For code without SLOAD, SSTORE and LOG bytes the invariant of the
    specification holds at every point of a run: the GasCharge amounts of
    the trace add up to the gas spent. *)
Lemma gas_accounted_without_storage_and_log (config : Interpreter.InterpreterConfig)
      (fuel : nat) :
  withoutStorageAndLog (Interpreter.config_bytecode config) ->
  let i := fst (Interpreter.run fuel (Interpreter.new config)) in
  totalGasCharged (Interpreter.getTrace i)
  = Interpreter.config_initialGas config
    - MachineState.gasRemaining (Interpreter.getState i).
Proof.
  intros Hcode i.
  pose proof (run_keeps_gas_accounted fuel (Interpreter.new config) Hcode) as Hr.
  fold i in Hr. cbn in Hr. lia.
Qed.

End StepRecordsCharges.

(** ** Two executions that the specification's universal claims miss *)

(** C1: [run] lets an exception escape on [PUSH1 0; PUSH1 0; LOG0; STOP].
    The handler of LOG0 calls [TraceEventBuilder.log], which the class does
    not define; [step] rethrows the TypeError. The machine is left running,
    with no halt reason, after the host has stored the log entry. The same
    happens with each of LOG1..LOG4 once its operands are on the stack. *)
Theorem LOG0_raises_out_of_run :
  let r := Interpreter.run 10 (interpreterFor [0x60; 0; 0x60; 0; 0xa0; 0x00] 1000000) in
  snd r = Interpreter.Raised (JS.TypeError "TraceEventBuilder.log is not a function")
  /\ Interpreter.isHalted (fst r) = false
  /\ Interpreter.getHaltReason (fst r) = None
  /\ length (getLogs (Interpreter.getHost (fst r))) = 1%nat
  /\ MachineState.gasRemaining (Interpreter.getState (fst r)) = 1000000 - 3 - 3 - 375
  /\ Forall
       (fun logN =>
          snd (Interpreter.run 10
                 (interpreterFor
                    [0x60; 0; 0x60; 0; 0x60; 0; 0x60; 0; 0x60; 0; 0x60; 0; logN; 0x00]
                    1000000))
          = Interpreter.Raised TraceEventBuilder.log_is_not_a_function)
       [Opcode.LOG0; Opcode.LOG1; Opcode.LOG2; Opcode.LOG3; Opcode.LOG4].
Proof.
  cbv zeta.
  repeat (split; [vm_compute; reflexivity |]).
  repeat (apply List.Forall_cons; [vm_compute; reflexivity |]).
  apply List.Forall_nil.
Qed.

(** C2: on [PUSH1 0; SLOAD; STOP] the machine halts with STOP having spent
    203 gas, while the GasCharge events of the trace add up to 3: SLOAD
    charges 200 gas and records no event for it. On
    [PUSH1 42; PUSH1 0; SSTORE; STOP] 20006 gas is spent and 6 recorded.
    Without SLOAD, SSTORE and LOG the two amounts agree
    ([gas_accounted_without_storage_and_log]). *)
Theorem SLOAD_charge_missing_from_trace :
  let r := Interpreter.run 10 (interpreterFor [0x60; 0; 0x54; 0x00] 1000000) in
  let w := Interpreter.run 10 (interpreterFor [0x60; 42; 0x60; 0; 0x55; 0x00] 1000000) in
  snd r = Interpreter.Returned
  /\ Interpreter.getHaltReason (fst r) = Some STOP
  /\ totalGasCharged (Interpreter.getTrace (fst r)) = 3
  /\ 1000000 - MachineState.gasRemaining (Interpreter.getState (fst r)) = 203
  /\ snd w = Interpreter.Returned
  /\ Interpreter.getHaltReason (fst w) = Some STOP
  /\ totalGasCharged (Interpreter.getTrace (fst w)) = 6
  /\ 1000000 - MachineState.gasRemaining (Interpreter.getState (fst w)) = 20006.
Proof. cbv zeta. repeat split; vm_compute; reflexivity. Qed.

(** ** Relations maintained by every handler, by [step] and by [run] *)

Section UpheldByHandlers.
Context {H : Type} {HH : Host H}.
Variable R : Objects H -> Objects H -> option JS.Exn -> Prop.
Hypothesis U : Upheld R.

Lemma upholds_ret {A} (a : A) : upholds R (@ret H A a).
Proof. intros o. apply (upheld_refl R U). Qed.

Lemma upholds_currentState : upholds R (@currentState H).
Proof. intros o. apply (upheld_refl R U). Qed.

Lemma upholds_hostGetAddress : upholds R hostGetAddress.
Proof. intros o. apply (upheld_refl R U). Qed.

Lemma upholds_hostSload a k : upholds R (hostSload a k).
Proof. intros o. apply (upheld_refl R U). Qed.

Lemma upholds_throw {A} e :
  JS.instanceof_StackError e = false -> JS.message e <> "Out of gas" ->
  upholds R (@throw H A e).
Proof. intros H1 H2 o. apply (upheld_raise R U); assumption. Qed.

Lemma upholds_bind {A B} (m : M H A) (k : A -> M H B) :
  upholds R m -> (forall a, upholds R (k a)) -> upholds R (bind m k).
Proof.
  intros Hm Hk o. unfold bind. specialize (Hm o).
  destruct (m o) as [o1 [a | e]]; cbn [fst snd thrown] in *.
  - eapply (upheld_seq R U); [exact Hm | apply Hk].
  - exact Hm.
Qed.

(** A statement after a call that always throws is not reached. *)
Lemma upholds_bind_thrown {A B} (m : M H A) (k : A -> M H B) :
  upholds R m -> (forall o, thrown (snd (m o)) <> None) -> upholds R (bind m k).
Proof.
  intros Hm Hnever o. unfold bind. specialize (Hm o). specialize (Hnever o).
  destruct (m o) as [o1 [a | e]]; cbn [fst snd thrown] in *.
  - congruence.
  - exact Hm.
Qed.

Lemma upholds_tryDispatch (m : M H unit) :
  upholds R m -> upholds R (Interpreter.tryDispatch m).
Proof.
  intros Hm o. unfold Interpreter.tryDispatch. specialize (Hm o).
  destruct (m o) as [o1 [a | e]]; cbn [fst snd thrown] in *; [exact Hm |].
  destruct (JS.instanceof_StackError e) eqn:Es.
  - destruct e; try discriminate Es.
    change (thrown (snd (halt ?r o1))) with (@None JS.Exn).
    eapply (upheld_catch_stack R U). exact Hm.
  - destruct (String.eqb_spec (JS.message e) "Out of gas") as [Em | Em];
      cbn [fst snd thrown].
    + eapply (upheld_catch_gas R U); eassumption.
    + exact Hm.
Qed.

End UpheldByHandlers.

(** Walks through a handler statement by statement. *)
Ltac upheld_step U :=
  lazymatch goal with
  | |- upholds _ (emit _) => apply (upheld_emit _ U); intros ? ? ?; reflexivity
  | |- upholds _ (bind _ _) => apply (upholds_bind _ U); [| intros ?]
  | |- upholds _ (if ?b then _ else _) => destruct b
  | |- upholds _ (let _ := _ in _) => cbv zeta
  | |- upholds _ (ret _) => apply (upholds_ret _ U)
  | |- upholds _ currentState => apply (upholds_currentState _ U)
  | |- upholds _ hostGetAddress => apply (upholds_hostGetAddress _ U)
  | |- upholds _ (hostSload _ _) => apply (upholds_hostSload _ U)
  | |- upholds _ (throw _) => apply (upholds_throw _ U); [reflexivity | discriminate]
  | |- upholds _ (chargeGas _) => apply (upheld_chargeGas _ U)
  | |- upholds _ (halt _) => apply (upheld_halt _ U)
  | |- upholds _ (setPc _) => apply (upheld_setPc _ U)
  | |- upholds _ (advancePc _) => apply (upheld_advancePc _ U)
  | |- upholds _ (setReturnData _) => apply (upheld_setReturnData _ U)
  | |- upholds _ (expandMemory _ _) => apply (upheld_expandMemory _ U)
  | |- upholds _ (readMemory _ _) => apply (upheld_readMemory _ U)
  | |- upholds _ (writeMemory _ _) => apply (upheld_writeMemory _ U)
  | |- upholds _ (push _) => apply (upheld_push _ U)
  | |- upholds _ pop => apply (upheld_pop _ U)
  | |- upholds _ (peekAt _) => apply (upheld_peekAt _ U)
  | |- upholds _ (dup _) => apply (upheld_dup _ U)
  | |- upholds _ (swap _) => apply (upheld_swap _ U)
  | |- upholds _ (hostSstore _ _ _) => apply (upheld_hostSstore _ U)
  | |- upholds _ (hostLog _) => apply (upheld_hostLog _ U)
  end.

Ltac upheld_by U := repeat upheld_step U.

Section UpheldByInterpreter.
Context {H : Type} {HH : Host H}.
Variable R : Objects H -> Objects H -> option JS.Exn -> Prop.
Hypothesis U : Upheld R.

Lemma callTraceEventBuilderLog_throws a topics data (o : Objects H) :
  thrown (snd (callTraceEventBuilderLog a topics data o)) <> None.
Proof. discriminate. Qed.

Lemma upholds_logTail offset len topicGas topics :
  upholds R (logTail offset len topicGas topics).
Proof.
  unfold logTail. cbv zeta.
  apply (upholds_bind _ U); [apply (upheld_expandMemory _ U) | intros cost].
  apply (upholds_bind _ U); [apply (upheld_chargeGas _ U) | intros _].
  apply (upholds_bind _ U); [apply (upheld_readMemory _ U) | intros data].
  apply (upholds_bind _ U); [apply (upholds_hostGetAddress _ U) | intros a].
  apply (upholds_bind _ U); [apply (upheld_hostLog _ U) | intros _].
  apply upholds_bind_thrown.
  - apply (upheld_callTraceEventBuilderLog _ U).
  - apply callTraceEventBuilderLog_throws.
Qed.

Lemma upholds_executePush code opcode :
  upholds R (Interpreter.executePush code opcode).
Proof. unfold Interpreter.executePush. upheld_by U. Qed.

Lemma upholds_executeOpcode code data dests opcode :
  upholds R (Interpreter.executeOpcode code data dests opcode).
Proof.
  pose proof upholds_logTail as Hlog.
  unfold Interpreter.executeOpcode.
  repeat match goal with
         | |- upholds _ (if ?b then _ else _) => destruct b
         end;
    try (lazymatch goal with
         | |- upholds _ (Interpreter.executePush _ _) => apply upholds_executePush
         end);
    unfold executeDUP, executeSWAP, executeStop, executeAdd, executeMul,
      executeSub, executeDiv, executePOP, executeMLOAD, executeMSTORE,
      executeMSTORE8, executeMSIZE, executeCALLDATALOAD, executeCALLDATASIZE,
      executeCALLDATACOPY, executeRETURN, executeREVERT, executePC,
      executeJUMP, executeJUMPI, executeJUMPDEST, executeSLOAD, executeSSTORE,
      executeLOG0, executeLOG1, executeLOG2, executeLOG3, executeLOG4;
    upheld_by U; apply Hlog.
Qed.

Lemma on_upholds (i : Interpreter.t) {A} (m : M H A) :
  upholds R m ->
  R (Interpreter.objs i) (Interpreter.objs (fst (Interpreter.on i m)))
    (thrown (snd (Interpreter.on i m))).
Proof.
  intros Hm. unfold Interpreter.on. specialize (Hm (Interpreter.objs i)).
  destruct (m (Interpreter.objs i)) as [o r]. exact Hm.
Qed.

Lemma step_upholds (i : Interpreter.t) :
  R (Interpreter.objs i) (Interpreter.objs (fst (Interpreter.step i)))
    (thrown (snd (Interpreter.step i))).
Proof.
  unfold Interpreter.step.
  destruct (MachineState.halted (Interpreter.getState i));
    [apply (upheld_refl R U) |].
  destruct (MachineState.pc (Interpreter.getState i)
            >=? Z.of_nat (length (Interpreter.bytecode i))).
  - apply on_upholds. upheld_by U.
  - destruct (Interpreter.byteAt (Interpreter.bytecode i)
                (MachineState.pc (Interpreter.getState i))) as [opcode |].
    + apply on_upholds.
      apply (upholds_bind _ U);
        [apply (upheld_emit _ U); intros ? ? ?; reflexivity | intros _].
      apply (upholds_bind _ U);
        [apply (upholds_tryDispatch _ U), upholds_executeOpcode | intros _].
      apply (upholds_bind _ U); [apply (upholds_currentState _ U) | intros st].
      destruct (MachineState.halted st); [| apply (upholds_ret _ U)].
      destruct (MachineState.haltReason st); upheld_by U.
    + apply (upheld_raise R U); [reflexivity | discriminate].
Qed.

Lemma run_upholds fuel : forall i : Interpreter.t,
  R (Interpreter.objs i) (Interpreter.objs (fst (Interpreter.run fuel i)))
    (raised (snd (Interpreter.run fuel i))).
Proof.
  induction fuel as [| fuel IH]; intros i; cbn [Interpreter.run].
  - apply (upheld_refl R U).
  - pose proof (step_upholds i) as Hs.
    destruct (Interpreter.step i) as [i1 [[|] | e]]; cbn [fst snd thrown raised] in *.
    + eapply (upheld_seq R U); [exact Hs | apply IH].
    + exact Hs.
    + exact Hs.
Qed.

End UpheldByInterpreter.

(** ** What the operations on the state, the stack and the trace leave alone *)

Lemma expandMemory_keeps st offset len :
  let st' := fst (MachineState.expandMemory st offset len) in
  MachineState.pc st' = MachineState.pc st
  /\ MachineState.gasRemaining st' = MachineState.gasRemaining st
  /\ MachineState.returnData st' = MachineState.returnData st
  /\ MachineState.halted st' = MachineState.halted st
  /\ MachineState.haltReason st' = MachineState.haltReason st.
Proof.
  unfold MachineState.expandMemory.
  repeat match goal with |- context [if ?b then _ else _] => destruct b end;
    cbn; auto.
Qed.

Lemma readMemory_keeps st offset len :
  let st' := fst (MachineState.readMemory st offset len) in
  MachineState.pc st' = MachineState.pc st
  /\ MachineState.gasRemaining st' = MachineState.gasRemaining st
  /\ MachineState.returnData st' = MachineState.returnData st
  /\ MachineState.halted st' = MachineState.halted st
  /\ MachineState.haltReason st' = MachineState.haltReason st.
Proof.
  unfold MachineState.readMemory.
  destruct (len =? 0); [cbn; auto |].
  destruct (offset + len >? MachineState.getMemorySize st); [| cbn; auto].
  pose proof (expandMemory_keeps st offset len) as E.
  destruct (MachineState.expandMemory st offset len) as [st1 [c | e]]; exact E.
Qed.

Lemma writeMemory_keeps st offset data :
  let st' := fst (MachineState.writeMemory st offset data) in
  MachineState.pc st' = MachineState.pc st
  /\ MachineState.gasRemaining st' = MachineState.gasRemaining st
  /\ MachineState.returnData st' = MachineState.returnData st
  /\ MachineState.halted st' = MachineState.halted st
  /\ MachineState.haltReason st' = MachineState.haltReason st.
Proof.
  unfold MachineState.writeMemory.
  destruct (Z.of_nat (length data) =? 0); [cbn; auto |].
  destruct (offset + Z.of_nat (length data) >? MachineState.getMemorySize st).
  - pose proof (expandMemory_keeps st offset (Z.of_nat (length data))) as E.
    destruct (MachineState.expandMemory st offset (Z.of_nat (length data)))
      as [st1 [c | e]]; [| exact E].
    destruct (offset + Z.of_nat (length data) >? MachineState.getMemorySize st1);
      exact E.
  - destruct (offset + Z.of_nat (length data) >? MachineState.getMemorySize st);
      cbn; auto.
Qed.

(** The memory operations throw RangeErrors only. *)
Lemma expandMemory_throws st offset len e :
  snd (MachineState.expandMemory st offset len) = Throw e ->
  e = JS.RangeError "Invalid typed array length".
Proof.
  unfold MachineState.expandMemory.
  repeat match goal with |- context [if ?b then _ else _] => destruct b end;
    cbn; congruence.
Qed.

Lemma readMemory_throws st offset len e :
  snd (MachineState.readMemory st offset len) = Throw e ->
  e = JS.RangeError "Invalid typed array length".
Proof.
  unfold MachineState.readMemory.
  destruct (len =? 0); [discriminate |].
  destruct (offset + len >? MachineState.getMemorySize st); [| discriminate].
  pose proof (expandMemory_throws st offset len) as E.
  destruct (MachineState.expandMemory st offset len) as [st1 [c | e']];
    [discriminate |].
  cbn in *. intros [= <-]. apply E. reflexivity.
Qed.

Lemma writeMemory_throws st offset data e :
  snd (MachineState.writeMemory st offset data) = Throw e ->
  e = JS.RangeError "Invalid typed array length"
  \/ e = JS.RangeError "offset is out of bounds".
Proof.
  unfold MachineState.writeMemory.
  destruct (Z.of_nat (length data) =? 0); [discriminate |].
  destruct (offset + Z.of_nat (length data) >? MachineState.getMemorySize st).
  - pose proof (expandMemory_throws st offset (Z.of_nat (length data))) as E.
    destruct (MachineState.expandMemory st offset (Z.of_nat (length data)))
      as [st1 [c | e']].
    + destruct (offset + Z.of_nat (length data) >? MachineState.getMemorySize st1);
        [| discriminate].
      intros [= <-]. right. reflexivity.
    + cbn in *. intros [= <-]. left. apply E. reflexivity.
  - destruct (offset + Z.of_nat (length data) >? MachineState.getMemorySize st);
      [| discriminate].
    intros [= <-]. right. reflexivity.
Qed.

(** The operations of [Stack] throw StackErrors only, and a failed
    operation leaves the stack as it was. *)
Lemma Stack_push_throws s w e :
  snd (Stack.push s w) = Throw e ->
  JS.instanceof_StackError e = true /\ fst (Stack.push s w) = s.
Proof.
  unfold Stack.push. destruct (Stack.depth s >=? MAX_STACK_DEPTH); [| discriminate].
  intros [= <-]. split; reflexivity.
Qed.

Lemma Stack_pop_throws s e :
  snd (Stack.pop s) = Throw e ->
  JS.instanceof_StackError e = true /\ fst (Stack.pop s) = s.
Proof.
  unfold Stack.pop. destruct (Stack.items s); [| discriminate].
  intros [= <-]. split; reflexivity.
Qed.

Lemma Stack_peekAt_throws s d e :
  Stack.peekAt s d = Throw e -> JS.instanceof_StackError e = true.
Proof.
  unfold Stack.peekAt. destruct ((d <? 0) || (d >=? Stack.depth s)).
  - intros [= <-]. reflexivity.
  - destruct (Stack.items s !! Z.to_nat d); [discriminate |].
    intros [= <-]. reflexivity.
Qed.

Lemma Stack_dup_throws s n e :
  snd (Stack.dup s n) = Throw e ->
  JS.instanceof_StackError e = true /\ fst (Stack.dup s n) = s.
Proof.
  unfold Stack.dup.
  destruct ((n <? 1) || (n >? 16)); [intros [= <-]; split; reflexivity |].
  destruct (Stack.depth s <? n); [intros [= <-]; split; reflexivity |].
  destruct (Stack.depth s >=? MAX_STACK_DEPTH); [intros [= <-]; split; reflexivity |].
  destruct (Stack.items s !! Z.to_nat (n - 1)); discriminate.
Qed.

Lemma Stack_swap_throws s n e :
  snd (Stack.swap s n) = Throw e ->
  JS.instanceof_StackError e = true /\ fst (Stack.swap s n) = s.
Proof.
  unfold Stack.swap.
  destruct ((n <? 1) || (n >? 16)); [intros [= <-]; split; reflexivity |].
  destruct (Stack.depth s <? n + 1); [intros [= <-]; split; reflexivity |].
  destruct (Stack.items s !! 0%nat); [| discriminate].
  destruct (Stack.items s !! Z.to_nat n); discriminate.
Qed.

(** Unfolds the operations down to the fields of the objects. *)
Ltac open_objects :=
  unfold upholds, chargeGas, halt, setPc, advancePc, setReturnData, expandMemory,
    readMemory, writeMemory, push, pop, peekAt, dup, swap, emit,
    callTraceEventBuilderLog, hostSstore, hostLog, getNextIndex, record,
    currentState, throw, bind, onState, onStack;
  intros;
  repeat match goal with
         | o : Objects _ |- _ => destruct o as [?st ?s [?evs ?idx] ?h]
         end;
  cbn [fst snd state stack trace host thrown TraceCollector.getNextIndex
       TraceCollector.record TraceCollector.events TraceCollector.nextIndex] in *.

(** ** The gas left is never negative *)

Lemma gasNonNegative_upheld {H : Type} {HH : Host H} : Upheld (@gasNonNegative H).
Proof.
  constructor; unfold gasNonNegative; open_objects; auto.
  - (* chargeGas *)
    unfold MachineState.chargeGas.
    destruct (Z.ltb_spec (MachineState.gasRemaining st) amount); cbn; [assumption | lia].
  - pose proof (expandMemory_keeps st offset len) as (_ & E & _).
    destruct (MachineState.expandMemory st offset len); cbn in *. lia.
  - pose proof (readMemory_keeps st offset len) as (_ & E & _).
    destruct (MachineState.readMemory st offset len); cbn in *. lia.
  - pose proof (writeMemory_keeps st offset data) as (_ & E & _).
    destruct (MachineState.writeMemory st offset data); cbn in *. lia.
  - destruct (Stack.push s w); assumption.
  - destruct (Stack.pop s); assumption.
  - destruct (Stack.dup s n); assumption.
  - destruct (Stack.swap s n); assumption.
Qed.

(** ** The depth of the operand stack *)

Lemma depthBounded_upheld {H : Type} {HH : Host H} : Upheld (@depthBounded H).
Proof.
  constructor; unfold depthBounded; open_objects; auto.
  - destruct (MachineState.chargeGas st amount); assumption.
  - destruct (MachineState.expandMemory st offset len); assumption.
  - destruct (MachineState.readMemory st offset len); assumption.
  - destruct (MachineState.writeMemory st offset data); assumption.
  - unfold Stack.push.
    destruct (Z.geb_spec (Stack.depth s) MAX_STACK_DEPTH); cbn; [assumption |].
    unfold Stack.depth, MAX_STACK_DEPTH in *. cbn [Stack.items length]. lia.
  - unfold Stack.pop. destruct s as [[| top rest]]; cbn; [assumption |].
    unfold Stack.depth, MAX_STACK_DEPTH in *. cbn [Stack.items length] in *. lia.
  - unfold Stack.dup.
    destruct ((n <? 1) || (n >? 16)); [assumption |].
    destruct (Stack.depth s <? n); [assumption |].
    destruct (Z.geb_spec (Stack.depth s) MAX_STACK_DEPTH); [assumption |].
    destruct (Stack.items s !! Z.to_nat (n - 1)); cbn; [| assumption].
    unfold Stack.depth, MAX_STACK_DEPTH in *. cbn [Stack.items length]. lia.
  - unfold Stack.swap.
    destruct ((n <? 1) || (n >? 16)); [assumption |].
    destruct (Stack.depth s <? n + 1); [assumption |].
    destruct (Stack.items s !! 0%nat); [| assumption].
    destruct (Stack.items s !! Z.to_nat n); cbn; [| assumption].
    unfold Stack.depth, MAX_STACK_DEPTH in *. cbn [Stack.items].
    rewrite !length_insert. assumption.
Qed.

(** ** The trace is append-only *)

Lemma appendOnly_upheld {H : Type} {HH : Host H} : Upheld (@appendOnly H).
Proof.
  constructor; unfold appendOnly; open_objects;
    try (split; [exists []; rewrite app_nil_r; reflexivity | lia]).
  - (* sequence *)
    destruct H0 as [[new1 E1] L1], H1 as [[new2 E2] L2].
    split; [| lia]. exists (new1 ++ new2). rewrite E2, E1, app_assoc. reflexivity.
  - assumption.
  - assumption.
  - destruct (MachineState.chargeGas st amount); cbn.
    split; [exists []; rewrite app_nil_r; reflexivity | lia].
  - destruct (MachineState.expandMemory st offset len); cbn.
    split; [exists []; rewrite app_nil_r; reflexivity | lia].
  - destruct (MachineState.readMemory st offset len); cbn.
    split; [exists []; rewrite app_nil_r; reflexivity | lia].
  - destruct (MachineState.writeMemory st offset data); cbn.
    split; [exists []; rewrite app_nil_r; reflexivity | lia].
  - destruct (Stack.push s w); cbn.
    split; [exists []; rewrite app_nil_r; reflexivity | lia].
  - destruct (Stack.pop s); cbn.
    split; [exists []; rewrite app_nil_r; reflexivity | lia].
  - destruct (Stack.dup s n); cbn.
    split; [exists []; rewrite app_nil_r; reflexivity | lia].
  - destruct (Stack.swap s n); cbn.
    split; [exists []; rewrite app_nil_r; reflexivity | lia].
  - split; [eexists; reflexivity | lia].
Qed.

(** ** A halted machine has a reason *)

Lemma keepsHaltReason_upheld {H : Type} {HH : Host H} : Upheld (@keepsHaltReason H).
Proof.
  constructor; unfold keepsHaltReason, haltedWithReason; open_objects; auto;
    try discriminate.
  - unfold MachineState.chargeGas in *.
    destruct (MachineState.gasRemaining st <? amount); cbn in *; [discriminate | auto].
  - pose proof (expandMemory_keeps st offset len) as (_ & _ & _ & E1 & E2).
    destruct (MachineState.expandMemory st offset len); cbn in *.
    rewrite E1 in *. rewrite E2. auto.
  - pose proof (readMemory_keeps st offset len) as (_ & _ & _ & E1 & E2).
    destruct (MachineState.readMemory st offset len); cbn in *.
    rewrite E1 in *. rewrite E2. auto.
  - pose proof (writeMemory_keeps st offset data) as (_ & _ & _ & E1 & E2).
    destruct (MachineState.writeMemory st offset data); cbn in *.
    rewrite E1 in *. rewrite E2. auto.
  - destruct (Stack.push s w); cbn in *; auto.
  - destruct (Stack.pop s); cbn in *; auto.
  - destruct (Stack.dup s n); cbn in *; auto.
  - destruct (Stack.swap s n); cbn in *; auto.
Qed.

(** ** The numbering of the events *)

Lemma numbered_record evs idx e :
  numbered (TraceCollector.mk evs idx) ->
  prop "index" e = Some (JSNumber idx) ->
  numbered (TraceCollector.mk (evs ++ [e]) (idx + 1)).
Proof.
  intros [Hn Hi] He. cbn in *. split; cbn.
  - intros k e' Hk.
    apply lookup_app_Some in Hk. destruct Hk as [Hold | [Hge Hnew]].
    + apply Hn. exact Hold.
    + assert (k = length evs) as ->.
      { apply lookup_lt_Some in Hnew. cbn in Hnew. unfold TraceEvent in *. lia. }
      rewrite Nat.sub_diag in Hnew. injection Hnew as <-.
      rewrite He, Hi. reflexivity.
  - rewrite length_app. cbn. lia.
Qed.

Ltac numbering_kept :=
  lazymatch goal with
  | Hn : numbered ?c |- numberedEvents ?c /\ (_ -> numbered ?c) =>
      split; [apply Hn | intros _; exact Hn]
  end.

Lemma keepsNumbering_upheld {H : Type} {HH : Host H} : Upheld (@keepsNumbering H).
Proof.
  constructor; unfold keepsNumbering; open_objects;
    try numbering_kept;
    try (match goal with
         | |- context [let '(_, _) := ?f in _] => destruct f
         end; cbn [fst snd trace]; numbering_kept).
  - (* sequence *)
    destruct (H0 H2) as [_ Hn]. apply H1, Hn. discriminate.
  - (* a StackError is caught *)
    destruct (H0 H1) as [_ Hn]. specialize (Hn ltac:(discriminate)).
    numbering_kept.
  - (* an out-of-gas error is caught *)
    destruct (H2 H3) as [_ Hn].
    assert (Hne : Some e <> Some TraceEventBuilder.log_is_not_a_function).
    { intros [= ->]. discriminate H1. }
    specialize (Hn Hne). numbering_kept.
  - (* emit *)
    pose proof (numbered_record _ _ _ H1 (H0 idx (MachineState.pc st)
                                               (MachineState.gasRemaining st))) as Hn.
    numbering_kept.
  - (* the failing call of TraceEventBuilder.log *)
    split; [apply H0 | intros Hne; exfalso; apply Hne; reflexivity].
Qed.

(** ** Out of gas means halted *)

Lemma outOfGasHalts_upheld {H : Type} {HH : Host H} : Upheld (@outOfGasHalts H).
Proof.
  constructor; unfold outOfGasHalts; open_objects; try discriminate.
  - (* sequence *) eauto.
  - (* other exceptions *) injection H2 as <-. contradiction.
  - (* chargeGas *)
    unfold MachineState.chargeGas in *.
    destruct (MachineState.gasRemaining st <? amount); [reflexivity | discriminate].
  - pose proof (expandMemory_throws st offset len e) as E.
    destruct (MachineState.expandMemory st offset len) as [st1 [c | e']];
      cbn in *; [discriminate |].
    injection H0 as ->. rewrite E in H2 by reflexivity. discriminate.
  - pose proof (readMemory_throws st offset len e) as E.
    destruct (MachineState.readMemory st offset len) as [st1 [c | e']];
      cbn in *; [discriminate |].
    injection H0 as ->. rewrite E in H2 by reflexivity. discriminate.
  - pose proof (writeMemory_throws st offset data e) as E.
    destruct (MachineState.writeMemory st offset data) as [st1 [c | e']];
      cbn in *; [discriminate |].
    injection H0 as ->. destruct E as [-> | ->]; [reflexivity | discriminate ..].
  - pose proof (Stack_push_throws s w e) as E.
    destruct (Stack.push s w) as [s1 [c | e']]; cbn in *; [discriminate |].
    injection H0 as ->. destruct E as [E _]; [reflexivity | congruence].
  - pose proof (Stack_pop_throws s e) as E.
    destruct (Stack.pop s) as [s1 [c | e']]; cbn in *; [discriminate |].
    injection H0 as ->. destruct E as [E _]; [reflexivity | congruence].
  - pose proof (Stack_peekAt_throws s d e) as E.
    destruct (Stack.peekAt s d) as [c | e']; cbn in *; [discriminate |].
    injection H0 as ->. rewrite E in H1 by reflexivity. discriminate.
  - pose proof (Stack_dup_throws s n e) as E.
    destruct (Stack.dup s n) as [s1 [c | e']]; cbn in *; [discriminate |].
    injection H0 as ->. destruct E as [E _]; [reflexivity | congruence].
  - pose proof (Stack_swap_throws s n e) as E.
    destruct (Stack.swap s n) as [s1 [c | e']]; cbn in *; [discriminate |].
    injection H0 as ->. destruct E as [E _]; [reflexivity | congruence].
  - (* the failing call of TraceEventBuilder.log *)
    injection H0 as <-. discriminate.
Qed.

(** ** Every handler halts the machine or takes gas *)

Section Spends.
Context {H : Type}.

Lemma spends_bind a b {A B} (m : M H A) (k : A -> M H B) :
  spends a m -> (forall x, spends b (k x)) -> spends (a + b) (bind m k).
Proof.
  intros Hm Hk o o' r. unfold bind.
  destruct (m o) as [o1 [x | e]] eqn:Em; [| discriminate].
  intros Hrun. specialize (Hm _ _ _ Em). specialize (Hk _ _ _ _ Hrun). lia.
Qed.

Lemma spends_weaken a b {A} (m : M H A) : spends a m -> b <= a -> spends b m.
Proof. intros Hm Hle o o' r Hrun. specialize (Hm _ _ _ Hrun). lia. Qed.

Lemma spends_chargeGas amount : spends amount (@chargeGas H amount).
Proof.
  intros [st s tr h] o' a. unfold chargeGas, onState, MachineState.chargeGas.
  cbn [state]. destruct (MachineState.gasRemaining st <? amount); [discriminate |].
  intros [= <- _]. cbn. lia.
Qed.

(** Operations that leave the gas as it is. *)
Lemma spends_onState {A} (f : MachineState.t -> MachineState.t * Completion A) :
  (forall st, MachineState.gasRemaining (fst (f st)) = MachineState.gasRemaining st) ->
  spends 0 (@onState H A f).
Proof.
  intros Hf [st s tr h] o' a. unfold onState. cbn [state].
  specialize (Hf st). destruct (f st) as [st1 r]. intros [= <- _]. cbn in *. lia.
Qed.

Lemma spends_onStack {A} (f : Stack.t -> Stack.t * Completion A) :
  spends 0 (@onStack H A f).
Proof.
  intros [st s tr h] o' a. unfold onStack. cbn [stack].
  destruct (f s) as [s1 r]. intros [= <- _]. cbn. lia.
Qed.

Lemma spends_ret {A} (a : A) : spends 0 (@ret H A a).
Proof. intros o o' r [= <- _]. lia. Qed.

Lemma spends_throw {A} n e : spends n (@throw H A e).
Proof. intros o o' r. discriminate. Qed.

Lemma spends_currentState : spends 0 (@currentState H).
Proof. intros o o' r [= <- _]. lia. Qed.

Lemma spends_emit mk : spends 0 (@emit H mk).
Proof. intros [st s [evs idx] h] o' r [= <- _]. cbn. lia. Qed.

Lemma spends_halt reason : spends 0 (@halt H reason).
Proof. apply spends_onState. reflexivity. Qed.

Lemma spends_setPc v : spends 0 (@setPc H v).
Proof. apply spends_onState. reflexivity. Qed.

Lemma spends_advancePc n : spends 0 (@advancePc H n).
Proof. apply spends_onState. reflexivity. Qed.

Lemma spends_setReturnData d : spends 0 (@setReturnData H d).
Proof. apply spends_onState. reflexivity. Qed.

Lemma spends_expandMemory offset len : spends 0 (@expandMemory H offset len).
Proof. apply spends_onState. intros st. apply expandMemory_keeps. Qed.

Lemma spends_readMemory offset len : spends 0 (@readMemory H offset len).
Proof. apply spends_onState. intros st. apply readMemory_keeps. Qed.

Lemma spends_writeMemory offset data : spends 0 (@writeMemory H offset data).
Proof. apply spends_onState. intros st. apply writeMemory_keeps. Qed.

Lemma endsHalted_bind {A B} (m : M H A) (k : A -> M H B) :
  (forall x, endsHalted (k x)) -> endsHalted (bind m k).
Proof.
  intros Hk o o' r. unfold bind.
  destruct (m o) as [o1 [x | e]]; [| discriminate]. apply Hk.
Qed.

Lemma endsHalted_halt reason : endsHalted (@halt H reason).
Proof. intros [st s tr h] o' r [= <- _]. reflexivity. Qed.

Lemma neverCompletes_bind {A B} (m : M H A) (k : A -> M H B) :
  (forall x, neverCompletes (k x)) -> neverCompletes (bind m k).
Proof.
  intros Hk o o' r. unfold bind.
  destruct (m o) as [o1 [x | e]]; [apply Hk | discriminate].
Qed.

Lemma neverCompletes_first {A B} (m : M H A) (k : A -> M H B) :
  neverCompletes m -> neverCompletes (bind m k).
Proof.
  intros Hm o o' r. unfold bind.
  destruct (m o) as [o1 [x | e]] eqn:Em; [| discriminate].
  exfalso. exact (Hm _ _ _ Em).
Qed.

Lemma spends_haltsOrSpends {A} n (m : M H A) :
  spends n m -> 1 <= n -> haltsOrSpends m.
Proof. intros Hm Hn o o' a Hrun. right. specialize (Hm _ _ _ Hrun). lia. Qed.

Lemma endsHalted_haltsOrSpends {A} (m : M H A) : endsHalted m -> haltsOrSpends m.
Proof. intros Hm o o' a Hrun. left. exact (Hm _ _ _ Hrun). Qed.

Lemma neverCompletes_haltsOrSpends {A} (m : M H A) :
  neverCompletes m -> haltsOrSpends m.
Proof. intros Hm o o' a Hrun. exfalso. exact (Hm _ _ _ Hrun). Qed.

End Spends.

(** After the first charge of a handler: what follows takes no gas back. *)
Ltac spends_step :=
  lazymatch goal with
  | |- spends 0 (emit _) => apply spends_emit
  | |- spends 0 (bind _ _) => apply (spends_bind 0 0); [| intros ?]
  | |- spends 0 (if ?a >? ?b then _ else _) => destruct (Z.gtb_spec a b)
  | |- spends 0 (if ?b then _ else _) => destruct b
  | |- spends 0 (let _ := _ in _) => cbv zeta
  | |- spends 0 (chargeGas ?c) =>
      apply (spends_weaken c 0); [apply spends_chargeGas | lia]
  | |- spends 0 (ret _) => apply spends_ret
  | |- spends 0 (throw _) => apply spends_throw
  | |- spends 0 currentState => apply spends_currentState
  | |- spends 0 (halt _) => apply spends_halt
  | |- spends 0 (setPc _) => apply spends_setPc
  | |- spends 0 (advancePc _) => apply spends_advancePc
  | |- spends 0 (setReturnData _) => apply spends_setReturnData
  | |- spends 0 (expandMemory _ _) => apply spends_expandMemory
  | |- spends 0 (readMemory _ _) => apply spends_readMemory
  | |- spends 0 (writeMemory _ _) => apply spends_writeMemory
  | |- spends 0 (push _) => apply spends_onStack
  | |- spends 0 pop => apply spends_onStack
  | |- spends 0 (peekAt _) => apply spends_onStack
  | |- spends 0 (dup _) => apply spends_onStack
  | |- spends 0 (swap _) => apply spends_onStack
  end.

(** A handler that starts with a charge of [n]. *)
Ltac spends_from_baseline n :=
  cbv zeta; apply (spends_bind n 0); [apply spends_chargeGas | intros ?];
  repeat spends_step.

(** Down to the shared tail of the LOG handlers. *)
Ltac never_completes :=
  repeat lazymatch goal with
         | |- neverCompletes (bind _ _) => apply neverCompletes_bind; intros ?
         | |- neverCompletes (let _ := _ in _) => cbv zeta
         | Hlog : forall offset len topicGas topics, neverCompletes _
           |- neverCompletes (logTail _ _ _ _) => apply Hlog
         end.

Section HandlersSpend.
Context {H : Type} {HH : Host H}.

Lemma spends_hostGetAddress : spends 0 hostGetAddress.
Proof. intros o o' r [= <- _]. lia. Qed.

Lemma spends_hostSload a k : spends 0 (hostSload a k).
Proof. intros o o' r [= <- _]. lia. Qed.

Lemma spends_hostSstore a k v : spends 0 (hostSstore a k v).
Proof. intros [st s tr h] o' r [= <- _]. cbn. lia. Qed.

Lemma executeSLOAD_spends : spends 200 executeSLOAD.
Proof.
  unfold executeSLOAD.
  apply (spends_bind 200 0); [apply spends_chargeGas | intros _].
  apply (spends_bind 0 0); [apply spends_onStack | intros key].
  apply (spends_bind 0 0); [apply spends_hostGetAddress | intros a].
  apply (spends_bind 0 0); [apply spends_hostSload | intros v].
  repeat spends_step.
Qed.

Lemma executeSSTORE_spends : spends 5000 executeSSTORE.
Proof.
  unfold executeSSTORE.
  apply (spends_bind 0 5000); [apply spends_onStack | intros key].
  apply (spends_bind 0 5000); [apply spends_onStack | intros value].
  apply (spends_bind 0 5000); [apply spends_hostGetAddress | intros a].
  apply (spends_bind 0 5000); [apply spends_hostSload | intros current].
  cbv zeta.
  apply (spends_bind 5000 0).
  - eapply spends_weaken; [apply spends_chargeGas |].
    destruct (Word256.isZero current && negb (Word256.isZero value)); lia.
  - intros _. apply (spends_bind 0 0); [apply spends_emit | intros _].
    apply (spends_bind 0 0); [apply spends_hostSstore | intros _].
    apply spends_advancePc.
Qed.

Lemma logTail_neverCompletes offset len topicGas topics :
  neverCompletes (logTail (H:=H) offset len topicGas topics).
Proof.
  unfold logTail. cbv zeta.
  do 5 (apply neverCompletes_bind; intros ?).
  apply neverCompletes_first. intros o o' r. discriminate.
Qed.

Lemma executeOpcode_haltsOrSpends code data dests opcode :
  haltsOrSpends (Interpreter.executeOpcode (H:=H) code data dests opcode).
Proof.
  pose proof logTail_neverCompletes as Hlog.
  unfold Interpreter.executeOpcode.
  repeat match goal with
         | |- haltsOrSpends (if ?b then _ else _) => destruct b
         end.
  - apply (spends_haltsOrSpends 3); [| lia].
    unfold Interpreter.executePush. spends_from_baseline 3.
  - apply (spends_haltsOrSpends 3); [| lia]. unfold executeDUP. spends_from_baseline 3.
  - apply (spends_haltsOrSpends 3); [| lia]. unfold executeSWAP. spends_from_baseline 3.
  - apply endsHalted_haltsOrSpends, endsHalted_halt.
  - apply (spends_haltsOrSpends 3); [| lia]. unfold executeAdd. spends_from_baseline 3.
  - apply (spends_haltsOrSpends 5); [| lia]. unfold executeMul. spends_from_baseline 5.
  - apply (spends_haltsOrSpends 3); [| lia]. unfold executeSub. spends_from_baseline 3.
  - apply (spends_haltsOrSpends 5); [| lia]. unfold executeDiv. spends_from_baseline 5.
  - apply (spends_haltsOrSpends 2); [| lia]. unfold executePOP. spends_from_baseline 2.
  - apply (spends_haltsOrSpends 3); [| lia]. unfold executeMLOAD. spends_from_baseline 3.
  - apply (spends_haltsOrSpends 3); [| lia]. unfold executeMSTORE. spends_from_baseline 3.
  - apply (spends_haltsOrSpends 3); [| lia]. unfold executeMSTORE8. spends_from_baseline 3.
  - apply (spends_haltsOrSpends 2); [| lia]. unfold executeMSIZE. spends_from_baseline 2.
  - apply (spends_haltsOrSpends 3); [| lia].
    unfold executeCALLDATALOAD. spends_from_baseline 3.
  - apply (spends_haltsOrSpends 2); [| lia].
    unfold executeCALLDATASIZE. spends_from_baseline 2.
  - apply (spends_haltsOrSpends 3); [| lia].
    unfold executeCALLDATACOPY. spends_from_baseline 3.
  - apply endsHalted_haltsOrSpends. unfold executeRETURN.
    repeat (apply endsHalted_bind; intros ?). apply endsHalted_halt.
  - apply endsHalted_haltsOrSpends. unfold executeREVERT.
    repeat (apply endsHalted_bind; intros ?). apply endsHalted_halt.
  - apply (spends_haltsOrSpends 2); [| lia]. unfold executePC. spends_from_baseline 2.
  - apply (spends_haltsOrSpends 8); [| lia]. unfold executeJUMP. spends_from_baseline 8.
  - apply (spends_haltsOrSpends 10); [| lia]. unfold executeJUMPI. spends_from_baseline 10.
  - apply (spends_haltsOrSpends 1); [| lia].
    unfold executeJUMPDEST. spends_from_baseline 1.
  - apply (spends_haltsOrSpends 200); [apply executeSLOAD_spends | lia].
  - apply (spends_haltsOrSpends 5000); [apply executeSSTORE_spends | lia].
  - apply neverCompletes_haltsOrSpends. unfold executeLOG0. never_completes.
  - apply neverCompletes_haltsOrSpends. unfold executeLOG1. never_completes.
  - apply neverCompletes_haltsOrSpends. unfold executeLOG2. never_completes.
  - apply neverCompletes_haltsOrSpends. unfold executeLOG3. never_completes.
  - apply neverCompletes_haltsOrSpends. unfold executeLOG4. never_completes.
  - apply endsHalted_haltsOrSpends, endsHalted_halt.
Qed.

End HandlersSpend.

(** ** Steps and runs *)

Lemma emit_eq {H : Type} (mk : Z -> Z -> Z -> TraceEvent) (o : Objects H) :
  emit mk o
  = (mkObjects (state o) (stack o)
       (TraceCollector.mk
          (TraceCollector.events (trace o)
           ++ [mk (TraceCollector.nextIndex (trace o)) (MachineState.pc (state o))
                 (MachineState.gasRemaining (state o))])
          (TraceCollector.nextIndex (trace o) + 1))
       (host o),
     Normal tt).
Proof. destruct o as [st s [evs idx] h]. reflexivity. Qed.

Section StepOutcome.
Context {H : Type} {HH : Host H}.

(** What [step] did when it asks to be called again: a handler has
    completed without halting the machine, and has taken gas. *)
Lemma step_continues (i i1 : Interpreter.t) :
  Interpreter.step i = (i1, Normal true) ->
  Interpreter.isHalted i1 = false
  /\ MachineState.gasRemaining (Interpreter.getState i1) + 1
     <= MachineState.gasRemaining (Interpreter.getState i).
Proof.
  unfold Interpreter.step, Interpreter.isHalted, Interpreter.getState.
  destruct (MachineState.halted (state (Interpreter.objs i))); [discriminate |].
  destruct (MachineState.pc (state (Interpreter.objs i))
            >=? Z.of_nat (length (Interpreter.bytecode i))).
  { unfold Interpreter.on, bind, halt, onState, ret.
    rewrite emit_eq. discriminate. }
  destruct (Interpreter.byteAt (Interpreter.bytecode i)
              (MachineState.pc (state (Interpreter.objs i)))) as [opcode |];
    [| discriminate].
  unfold Interpreter.on. unfold bind at 1. rewrite emit_eq.
  set (oa := mkObjects _ _ _ _).
  set (m := Interpreter.executeOpcode _ _ _ _).
  unfold bind at 1.
  destruct (Interpreter.tryDispatch m oa) as [ob [[] | e]] eqn:Et; [| discriminate].
  unfold bind at 1, currentState.
  destruct (MachineState.halted (state ob)) eqn:Hh.
  { destruct (MachineState.haltReason (state ob)).
    - unfold bind, ret. rewrite emit_eq. discriminate.
    - discriminate. }
  assert (Hgas : MachineState.gasRemaining (state ob) + 1
                 <= MachineState.gasRemaining (state (Interpreter.objs i))).
  { unfold Interpreter.tryDispatch in Et.
    pose proof (executeOpcode_haltsOrSpends
                  (Interpreter.bytecode i) (Interpreter.calldata i)
                  (Interpreter.validJumpDests i) opcode oa) as Hm.
    pose proof (upholds_executeOpcode _ outOfGasHalts_upheld
                  (Interpreter.bytecode i) (Interpreter.calldata i)
                  (Interpreter.validJumpDests i) opcode oa) as Hoog.
    fold m in Hm, Hoog. unfold outOfGasHalts in Hoog.
    destruct (m oa) as [o1 [[] | e]] eqn:Em; cbn [fst snd thrown] in *.
    - injection Et as <-.
      destruct (Hm _ _ eq_refl) as [Hhalt | Hsp]; [congruence | exact Hsp].
    - destruct (JS.instanceof_StackError e) eqn:Es.
      + injection Et as <-. destruct o1; discriminate Hh.
      + destruct (String.eqb_spec (JS.message e) "Out of gas") as [Emsg | Emsg];
          [| discriminate].
        injection Et as <-. rewrite (Hoog e eq_refl Es Emsg) in Hh. discriminate. }
  destruct (MachineState.haltReason (state ob)); unfold ret;
    intros [= <-]; cbn [Interpreter.objs]; split; assumption.
Qed.

End StepOutcome.

Section StepStops.
Context {H : Type} {HH : Host H}.

(** What [step] did when it returns false on a running machine: the
    machine is halted with a reason, and the Halt event that carries it
    is the last of the trace. *)
Lemma step_stops (i i1 : Interpreter.t) :
  Interpreter.isHalted i = false ->
  Interpreter.step i = (i1, Normal false) ->
  Interpreter.isHalted i1 = true
  /\ exists reason,
       Interpreter.getHaltReason i1 = Some reason
       /\ last (TraceCollector.events (Interpreter.getTrace i1))
          = Some (TraceEventBuilder.halt
                    (TraceCollector.nextIndex (Interpreter.getTrace i1) - 1)
                    (MachineState.pc (Interpreter.getState i1))
                    (MachineState.gasRemaining (Interpreter.getState i1))
                    reason).
Proof.
  unfold Interpreter.step, Interpreter.isHalted, Interpreter.getHaltReason,
    Interpreter.getState, Interpreter.getTrace.
  intros Hrun. rewrite Hrun.
  destruct (MachineState.pc (state (Interpreter.objs i))
            >=? Z.of_nat (length (Interpreter.bytecode i))).
  { unfold Interpreter.on, bind, halt, onState, ret.
    rewrite emit_eq. intros [= <-]. cbn.
    split; [reflexivity |]. exists STOP. split; [reflexivity |].
    rewrite last_snoc. do 2 f_equal. lia. }
  destruct (Interpreter.byteAt (Interpreter.bytecode i)
              (MachineState.pc (state (Interpreter.objs i)))) as [opcode |];
    [| discriminate].
  unfold Interpreter.on. unfold bind at 1. rewrite emit_eq.
  set (oa := mkObjects _ _ _ _).
  set (m := Interpreter.executeOpcode _ _ _ _).
  unfold bind at 1.
  pose proof (upholds_tryDispatch _ keepsHaltReason_upheld m
                (upholds_executeOpcode _ keepsHaltReason_upheld _ _ _ _) oa)
    as Hreason.
  unfold keepsHaltReason, haltedWithReason in Hreason.
  destruct (Interpreter.tryDispatch m oa) as [ob [[] | e]]; [| discriminate].
  cbn [fst] in Hreason.
  unfold bind at 1, currentState.
  destruct (MachineState.halted (state ob)) eqn:Hh.
  - destruct (MachineState.haltReason (state ob)) as [reason |] eqn:Hr.
    + unfold bind, ret. rewrite emit_eq. intros [= <-]. cbn.
      split; [exact Hh |]. exists reason. split; [exact Hr |].
      rewrite last_snoc. do 2 f_equal. lia.
    + exfalso. apply Hreason; [| reflexivity | reflexivity].
      subst oa. cbn. congruence.
  - destruct (MachineState.haltReason (state ob)); discriminate.
Qed.

End StepStops.

Lemma numberedEvents_indices (c : TraceCollector.t) :
  numberedEvents c ->
  map (prop "index") (TraceCollector.events c)
  = map (fun k => Some (JSNumber (Z.of_nat k)))
        (seq 0 (length (TraceCollector.events c))).
Proof.
  unfold numberedEvents. destruct c as [evs idx]. cbn [TraceCollector.events].
  clear idx. induction evs as [| e evs IH] using rev_ind; intros Hn; [reflexivity |].
  rewrite length_app, Nat.add_comm. cbn [length Nat.add].
  rewrite seq_S, !map_app. cbn [map Nat.add]. f_equal.
  - apply IH. intros k e' Hk. apply Hn. apply lookup_app_l_Some. exact Hk.
  - f_equal. apply Hn. rewrite lookup_app_r by apply Nat.le_refl.
    rewrite Nat.sub_diag. reflexivity.
Qed.

(** ** Properties of every execution *)

(** The gas left never goes below zero: from an interpreter whose gas is
    not negative, neither one step nor a run of any length makes it so. *)
Theorem gas_never_negative {H : Type} {HH : Host H} (i : Interpreter.t) (fuel : nat) :
  0 <= MachineState.gasRemaining (Interpreter.getState i) ->
  0 <= MachineState.gasRemaining (Interpreter.getState (fst (Interpreter.step i)))
  /\ 0 <= MachineState.gasRemaining
            (Interpreter.getState (fst (Interpreter.run fuel i))).
Proof.
  intros Hgas. split.
  - exact (step_upholds _ gasNonNegative_upheld i Hgas).
  - exact (run_upholds _ gasNonNegative_upheld fuel i Hgas).
Qed.

Lemma gas_never_negative_witness :
  let i := interpreterFor [0x60; 1; 0x60; 2; 0x01] 7 in
  0 <= MachineState.gasRemaining (Interpreter.getState i)
  /\ 0 <= MachineState.gasRemaining (Interpreter.getState (fst (Interpreter.step i)))
  /\ 0 <= MachineState.gasRemaining
            (Interpreter.getState (fst (Interpreter.run 10 i))).
Proof.
  intros i.
  assert (Hgas : 0 <= MachineState.gasRemaining (Interpreter.getState i))
    by (vm_compute; discriminate).
  split; [exact Hgas |]. exact (gas_never_negative i 10 Hgas).
Defined.

(** The operand stack never holds more than 1024 words: from an
    interpreter within the limit, neither one step nor a run of any length
    exceeds it. *)
Theorem stack_depth_bounded {H : Type} {HH : Host H} (i : Interpreter.t) (fuel : nat) :
  Stack.depth (Interpreter.getStack i) <= MAX_STACK_DEPTH ->
  Stack.depth (Interpreter.getStack (fst (Interpreter.step i))) <= MAX_STACK_DEPTH
  /\ Stack.depth (Interpreter.getStack (fst (Interpreter.run fuel i)))
     <= MAX_STACK_DEPTH.
Proof.
  intros Hd. split.
  - exact (step_upholds _ depthBounded_upheld i Hd).
  - exact (run_upholds _ depthBounded_upheld fuel i Hd).
Qed.

Lemma stack_depth_bounded_witness :
  let i := interpreterFor [0x5b; 0x60; 7; 0x60; 0; 0x56] 100000 in
  Stack.depth (Interpreter.getStack i) <= MAX_STACK_DEPTH
  /\ Stack.depth (Interpreter.getStack (fst (Interpreter.step i))) <= MAX_STACK_DEPTH
  /\ Stack.depth (Interpreter.getStack (fst (Interpreter.run 20 i)))
     <= MAX_STACK_DEPTH.
Proof.
  intros i.
  assert (Hd : Stack.depth (Interpreter.getStack i) <= MAX_STACK_DEPTH)
    by (vm_compute; discriminate).
  split; [exact Hd |]. exact (stack_depth_bounded i 20 Hd).
Defined.

(** The trace is append-only: after a step, and after a run of any length,
    the events recorded before are still there, in place and unchanged,
    followed by the new ones; the index counter never goes back. *)
Theorem trace_append_only {H : Type} {HH : Host H} (i : Interpreter.t) (fuel : nat) :
  let before := Interpreter.getTrace i in
  let stepped := Interpreter.getTrace (fst (Interpreter.step i)) in
  let ran := Interpreter.getTrace (fst (Interpreter.run fuel i)) in
  (exists evs,
     TraceCollector.events stepped = TraceCollector.events before ++ evs)
  /\ TraceCollector.nextIndex before <= TraceCollector.nextIndex stepped
  /\ (exists evs,
        TraceCollector.events ran = TraceCollector.events before ++ evs)
  /\ TraceCollector.nextIndex before <= TraceCollector.nextIndex ran.
Proof.
  cbv zeta.
  destruct (step_upholds _ appendOnly_upheld i) as [Hs1 Hs2].
  destruct (run_upholds _ appendOnly_upheld fuel i) as [Hr1 Hr2].
  repeat split; assumption.
Qed.

(** The events of a run are numbered by their position: in the trace of
    an interpreter that has run from its construction, the event at
    position [k] has index [k], also when the run ended in an exception. *)
Theorem trace_indices_sequential {H : Type} {HH : Host H}
        (config : Interpreter.InterpreterConfig) (fuel : nat) :
  let c := Interpreter.getTrace (fst (Interpreter.run fuel (Interpreter.new config))) in
  map (prop "index") (TraceCollector.events c)
  = map (fun k => Some (JSNumber (Z.of_nat k)))
        (seq 0 (length (TraceCollector.events c))).
Proof.
  intros c. apply numberedEvents_indices.
  pose proof (run_upholds _ keepsNumbering_upheld fuel (Interpreter.new config)) as Hk.
  unfold keepsNumbering in Hk. destruct Hk as [Hn _]; [| exact Hn].
  split; [intros k e Hk; discriminate Hk | reflexivity].
Qed.

(** When [run] returns on a machine that was running, the machine is
    halted, it has a halt reason, and the last event of the trace is the
    Halt event with that reason, the final program counter and the final
    gas. *)
Theorem run_returns_halted {H : Type} {HH : Host H} (i : Interpreter.t) (fuel : nat) :
  Interpreter.isHalted i = false ->
  snd (Interpreter.run fuel i) = Interpreter.Returned ->
  let i' := fst (Interpreter.run fuel i) in
  Interpreter.isHalted i' = true
  /\ exists reason,
       Interpreter.getHaltReason i' = Some reason
       /\ last (TraceCollector.events (Interpreter.getTrace i'))
          = Some (TraceEventBuilder.halt
                    (TraceCollector.nextIndex (Interpreter.getTrace i') - 1)
                    (MachineState.pc (Interpreter.getState i'))
                    (MachineState.gasRemaining (Interpreter.getState i'))
                    reason).
Proof.
  revert i. induction fuel as [| fuel IH]; intros i Hrun; cbn [Interpreter.run].
  - discriminate.
  - destruct (Interpreter.step i) as [i1 [[|] | e]] eqn:Es; cbn [fst snd].
    + intros Hret. apply IH; [| exact Hret].
      exact (proj1 (step_continues i i1 Es)).
    + intros _. exact (step_stops i i1 Hrun Es).
    + discriminate.
Qed.

Lemma run_returns_halted_witness :
  let i := interpreterFor [0x60; 0; 0x60; 0; 0xfd] 100 in
  let i' := fst (Interpreter.run 10 i) in
  Interpreter.isHalted i = false
  /\ snd (Interpreter.run 10 i) = Interpreter.Returned
  /\ Interpreter.isHalted i' = true
  /\ Interpreter.getHaltReason i' = Some REVERT
  /\ exists reason,
       Interpreter.getHaltReason i' = Some reason
       /\ last (TraceCollector.events (Interpreter.getTrace i'))
          = Some (TraceEventBuilder.halt
                    (TraceCollector.nextIndex (Interpreter.getTrace i') - 1)
                    (MachineState.pc (Interpreter.getState i'))
                    (MachineState.gasRemaining (Interpreter.getState i'))
                    reason).
Proof.
  intros i i'.
  assert (H1 : Interpreter.isHalted i = false) by reflexivity.
  assert (H2 : snd (Interpreter.run 10 i) = Interpreter.Returned)
    by (vm_compute; reflexivity).
  pose proof (run_returns_halted i 10 H1 H2) as [Hh Hr].
  split; [exact H1 |]. split; [exact H2 |]. split; [exact Hh |].
  split; [vm_compute; reflexivity | exact Hr].
Defined.

(** Execution always ends. A step that asks to be called again has taken
    at least one unit of gas, so with gas [g >= 0] at most [g] steps
    continue: [run] returns or raises within [g + 1] calls of [step],
    whatever the bytecode. *)
Theorem run_terminates {H : Type} {HH : Host H} (i : Interpreter.t) (fuel : nat) :
  (forall i1, Interpreter.step i = (i1, Normal true) ->
     MachineState.gasRemaining (Interpreter.getState i1) + 1
     <= MachineState.gasRemaining (Interpreter.getState i))
  /\ (0 <= MachineState.gasRemaining (Interpreter.getState i) ->
      MachineState.gasRemaining (Interpreter.getState i) < Z.of_nat fuel ->
      snd (Interpreter.run fuel i) <> Interpreter.Running).
Proof.
  split; [intros i1 Hs; exact (proj2 (step_continues i i1 Hs)) |].
  revert i. induction fuel as [| fuel IH]; intros i Hge Hlt; [lia |].
  cbn [Interpreter.run].
  pose proof (step_upholds _ gasNonNegative_upheld i Hge) as Hge1.
  destruct (Interpreter.step i) as [i1 [[|] | e]] eqn:Es; cbn [fst snd] in *;
    try discriminate.
  pose proof (proj2 (step_continues i i1 Es)) as Hsp.
  apply IH; [exact Hge1 | lia].
Qed.

Lemma run_terminates_witness :
  let i := interpreterFor [0x5b; 0x60; 0; 0x56] 100 in
  let i1 := fst (Interpreter.step i) in
  Interpreter.step i = (i1, Normal true)
  /\ MachineState.gasRemaining (Interpreter.getState i1) + 1
     <= MachineState.gasRemaining (Interpreter.getState i)
  /\ 0 <= MachineState.gasRemaining (Interpreter.getState i)
  /\ MachineState.gasRemaining (Interpreter.getState i) < Z.of_nat 101
  /\ snd (Interpreter.run 101 i) <> Interpreter.Running
  /\ snd (Interpreter.run 101 i) = Interpreter.Returned
  /\ Interpreter.getHaltReason (fst (Interpreter.run 101 i)) = Some OUT_OF_GAS.
Proof.
  intros i i1.
  assert (H0 : Interpreter.step i = (i1, Normal true)) by (vm_compute; reflexivity).
  assert (H1 : 0 <= MachineState.gasRemaining (Interpreter.getState i))
    by (vm_compute; discriminate).
  assert (H2 : MachineState.gasRemaining (Interpreter.getState i) < Z.of_nat 101)
    by (vm_compute; reflexivity).
  split; [exact H0 |].
  split; [exact (proj1 (run_terminates i 101) i1 H0) |].
  split; [exact H1 |]. split; [exact H2 |].
  split; [exact (proj2 (run_terminates i 101) H1 H2) |].
  split; vm_compute; reflexivity.
Defined.

(** Outside SLOAD, SSTORE and LOG the trace accounts for the gas: over any
    stretch of a run of code without those opcodes, the gas taken from the
    machine is the sum of the amounts of the GasCharge events recorded in
    that stretch. *)
Theorem gas_spent_is_recorded {H : Type} {HH : Host H} (i : Interpreter.t) (fuel : nat) :
  withoutStorageAndLog (Interpreter.bytecode i) ->
  let i' := fst (Interpreter.run fuel i) in
  exists evs,
    TraceCollector.events (Interpreter.getTrace i')
    = TraceCollector.events (Interpreter.getTrace i) ++ evs
    /\ MachineState.gasRemaining (Interpreter.getState i)
       - MachineState.gasRemaining (Interpreter.getState i')
       = sumCharges evs.
Proof.
  intros Hcode i'.
  pose proof (run_keeps_gas_accounted fuel i Hcode) as Hacc.
  cbv zeta in Hacc. fold i' in Hacc.
  destruct (run_upholds _ appendOnly_upheld fuel i) as [[evs Hevs] _].
  fold i' in Hevs. exists evs. split; [exact Hevs |].
  rewrite !totalGasCharged_sumCharges in Hacc.
  unfold Interpreter.getTrace in *. rewrite Hevs, sumCharges_app in Hacc. lia.
Qed.

Lemma gas_spent_is_recorded_witness :
  let i := interpreterFor [0x60; 1; 0x60; 2; 0x01; 0x00] 1000 in
  let i' := fst (Interpreter.run 10 i) in
  withoutStorageAndLog (Interpreter.bytecode i)
  /\ MachineState.gasRemaining (Interpreter.getState i') = 991
  /\ exists evs,
       TraceCollector.events (Interpreter.getTrace i')
       = TraceCollector.events (Interpreter.getTrace i) ++ evs
       /\ MachineState.gasRemaining (Interpreter.getState i)
          - MachineState.gasRemaining (Interpreter.getState i')
          = sumCharges evs.
Proof.
  intros i i'.
  assert (Hcode : withoutStorageAndLog (Interpreter.bytecode i))
    by (repeat constructor).
  split; [exact Hcode |]. split; [vm_compute; reflexivity |].
  exact (gas_spent_is_recorded i 10 Hcode).
Defined.

(** ** Single steps *)

Section StepOfHandler.
Context {H : Type} {HH : Host H}.

(** [step] on a running machine inside the code, in terms of what the
    handler of the opcode does. *)
Lemma step_of_handler (code data : list byte) (st : MachineState.t)
      (items : list Word256.t) (evs : list TraceEvent) (idx : Z) (h : H)
      (dests : gset Z) (opcode : Z) :
  MachineState.halted st = false ->
  Interpreter.byteAt code (MachineState.pc st) = Some opcode ->
  Interpreter.step
    (Interpreter.mk code data
       (mkObjects st (Stack.mk items) (TraceCollector.mk evs idx) h) dests)
  = let started :=
      mkObjects st (Stack.mk items)
        (TraceCollector.mk
           (evs ++ [TraceEventBuilder.opcodeStart idx (MachineState.pc st)
                      (MachineState.gasRemaining st) opcode
                      (Opcode.getOpcodeName opcode)])
           (idx + 1)) h in
    match Interpreter.tryDispatch
            (Interpreter.executeOpcode code data dests opcode) started with
    | (o, Throw e) => (Interpreter.mk code data o dests, Throw e)
    | (o, Normal _) =>
        match MachineState.halted (state o), MachineState.haltReason (state o) with
        | true, Some reason =>
            (Interpreter.mk code data
               (mkObjects (state o) (stack o)
                  (TraceCollector.mk
                     (TraceCollector.events (trace o)
                      ++ [TraceEventBuilder.halt
                            (TraceCollector.nextIndex (trace o))
                            (MachineState.pc (state o))
                            (MachineState.gasRemaining (state o)) reason])
                     (TraceCollector.nextIndex (trace o) + 1))
                  (host o)) dests,
             Normal false)
        | _, _ =>
            (Interpreter.mk code data o dests,
             Normal (negb (MachineState.halted (state o))))
        end
    end.
Proof.
  intros Hrun Hop. pose proof (byteAt_Some _ _ _ Hop) as [Hpc _].
  unfold Interpreter.step, Interpreter.getState.
  cbn [Interpreter.objs Interpreter.bytecode Interpreter.calldata
       Interpreter.validJumpDests state].
  rewrite Hrun.
  destruct (Z.geb_spec (MachineState.pc st) (Z.of_nat (length code))); [lia |].
  rewrite Hop. unfold Interpreter.on.
  cbn [Interpreter.objs Interpreter.bytecode Interpreter.calldata
       Interpreter.validJumpDests].
  unfold bind at 1. rewrite emit_eq. cbn [state stack trace host
    TraceCollector.events TraceCollector.nextIndex]. cbv zeta.
  unfold bind at 1.
  destruct (Interpreter.tryDispatch _ _) as [o [[] | e]]; [| reflexivity].
  unfold bind at 1, currentState.
  destruct (MachineState.halted (state o)); [| destruct (MachineState.haltReason (state o)); reflexivity].
  destruct (MachineState.haltReason (state o)); [| reflexivity].
  unfold bind, ret. rewrite emit_eq. reflexivity.
Qed.

Lemma executeOpcode_unhandled code data dests opcode :
  hasHandler opcode = false ->
  Interpreter.executeOpcode (H:=H) code data dests opcode = halt INVALID_OPCODE.
Proof.
  unfold hasHandler. intros Hno.
  repeat (apply orb_false_elim in Hno; destruct Hno as [Hno ?]).
  cbn [existsb] in *.
  repeat match goal with
         | Hx : (_ || _) = false |- _ =>
             apply orb_false_elim in Hx; destruct Hx as [? Hx]
         end.
  unfold Interpreter.executeOpcode.
  repeat match goal with
         | Hx : ?b = false |- context [if ?b then _ else _] => rewrite Hx
         end.
  reflexivity.
Qed.

End StepOfHandler.

(** An opcode without a handler halts the machine with INVALID_OPCODE: no
    gas is taken, the stack is left alone, and the trace gets the
    OpcodeStart event and the Halt event. This is so for the designated
    INVALID (0xfe) and for the opcodes that have a name but no handler. *)
Theorem unhandled_opcode_halts {H : Type} {HH : Host H} (i : Interpreter.t) (opcode : Z) :
  let st := Interpreter.getState i in
  let pc := MachineState.pc st in
  let gas := MachineState.gasRemaining st in
  Interpreter.isHalted i = false ->
  Interpreter.byteAt (Interpreter.bytecode i) pc = Some opcode ->
  hasHandler opcode = false ->
  Interpreter.step i
  = (haltedBy i 0 (Stack.items (Interpreter.getStack i))
       (fun idx =>
          [TraceEventBuilder.opcodeStart idx pc gas opcode (Opcode.getOpcodeName opcode)])
       1 INVALID_OPCODE,
     Normal false).
Proof.
  intros st pc gas Hrun Hop Hno.
  destruct i as [code data [st0 [items] [evs idx] h] dests].
  unfold Interpreter.isHalted, Interpreter.getState, Interpreter.getStack in *.
  cbn [Interpreter.objs Interpreter.bytecode state stack Stack.items] in *.
  subst st pc gas.
  rewrite (step_of_handler code data st0 items evs idx h dests opcode Hrun Hop).
  rewrite executeOpcode_unhandled by exact Hno. cbv zeta.
  unfold Interpreter.tryDispatch, halt, onState. cbn [state stack trace host fst snd].
  cbn [MachineState.halt MachineState.halted MachineState.haltReason
       TraceCollector.events TraceCollector.nextIndex MachineState.pc
       MachineState.gasRemaining].
  unfold haltedBy, Interpreter.getState, Interpreter.getTrace, Interpreter.getHost.
  cbn [Interpreter.objs Interpreter.bytecode Interpreter.calldata
       Interpreter.validJumpDests state stack trace host TraceCollector.events
       TraceCollector.nextIndex].
  rewrite <- !app_assoc, Z.sub_0_r. cbn [app].
  destruct st0; reflexivity.
Qed.

Lemma unhandled_opcode_halts_witness :
  let i := interpreterFor [0x60; 1; 0x60; 2; 0x05] 100 in
  let i2 := fst (Interpreter.step (fst (Interpreter.step i))) in
  Interpreter.isHalted i2 = false
  /\ Interpreter.byteAt (Interpreter.bytecode i2)
       (MachineState.pc (Interpreter.getState i2)) = Some 0x05
  /\ hasHandler 0x05 = false
  /\ Opcode.getOpcodeName 0x05 = "SDIV"
  /\ Interpreter.getHaltReason (fst (Interpreter.step i2)) = Some INVALID_OPCODE
  /\ MachineState.gasRemaining (Interpreter.getState (fst (Interpreter.step i2)))
     = MachineState.gasRemaining (Interpreter.getState i2).
Proof.
  intros i i2.
  assert (H1 : Interpreter.isHalted i2 = false) by (vm_compute; reflexivity).
  assert (H2 : Interpreter.byteAt (Interpreter.bytecode i2)
                 (MachineState.pc (Interpreter.getState i2)) = Some 0x05)
    by (vm_compute; reflexivity).
  assert (H3 : hasHandler 0x05 = false) by reflexivity.
  split; [exact H1 |]. split; [exact H2 |]. split; [exact H3 |].
  split; [reflexivity |].
  rewrite (unhandled_opcode_halts i2 0x05 H1 H2 H3).
  split; [reflexivity |]. cbn. lia.
Defined.

(** Runs a handler on objects given by their fields. *)
Ltac run_handler :=
  cbv beta delta
    [bind ret throw chargeGas halt setPc advancePc pop push emit getNextIndex
     record currentState onState onStack MachineState.chargeGas Stack.pop
     Stack.push Stack.depth Interpreter.tryDispatch];
  proj_simpl_goal.

(** Writes the indices of the events of a step as offsets from the first. *)
Ltac offsets idx :=
  repeat match goal with
         | |- context [idx + 1 + 1 + 1 + 1 + 1 + 1] =>
             replace (idx + 1 + 1 + 1 + 1 + 1 + 1) with (idx + 6) by lia
         | |- context [idx + 1 + 1 + 1 + 1 + 1] =>
             replace (idx + 1 + 1 + 1 + 1 + 1) with (idx + 5) by lia
         | |- context [idx + 1 + 1 + 1 + 1] =>
             replace (idx + 1 + 1 + 1 + 1) with (idx + 4) by lia
         | |- context [idx + 1 + 1 + 1] =>
             replace (idx + 1 + 1 + 1) with (idx + 3) by lia
         | |- context [idx + 1 + 1] =>
             replace (idx + 1 + 1) with (idx + 2) by lia
         end.

Ltac unfold_outcome :=
  unfold haltedBy, continuedBy, Interpreter.getState, Interpreter.getTrace,
    Interpreter.getHost;
  cbn [Interpreter.objs Interpreter.bytecode Interpreter.calldata
       Interpreter.validJumpDests];
  proj_simpl_goal; unfold TraceCollector.record; proj_simpl_goal;
  rewrite <- ?app_assoc; cbn [app].

(** ADD, MUL, SUB and DIV take the word on top of the stack as their
    right operand and the word below it as their left operand: SUB leaves
    [y - x] and DIV [y / x] for a stack [x; y; ...] listed from the top.
    The step takes the gas of the operation, records the charge, the two
    pops and the push, and moves to the next opcode. *)
Theorem binary_operation_step {H : Type} {HH : Host H} (i : Interpreter.t)
        (x y : Word256.t) (rest : list Word256.t)
        (opcode cost : Z) (name : string) (f : Word256.t -> Word256.t -> Word256.t) :
  let st := Interpreter.getState i in
  let pc := MachineState.pc st in
  let gas := MachineState.gasRemaining st in
  In (opcode, cost, name, f) binaryOperations ->
  Interpreter.isHalted i = false ->
  Interpreter.byteAt (Interpreter.bytecode i) pc = Some opcode ->
  cost <= gas ->
  Stack.items (Interpreter.getStack i) = x :: y :: rest ->
  Stack.depth (Interpreter.getStack i) <= MAX_STACK_DEPTH ->
  Interpreter.step i
  = (continuedBy i cost (pc + 1) (f y x :: rest)
       (fun idx =>
          [TraceEventBuilder.opcodeStart idx pc gas opcode name;
           TraceEventBuilder.gasCharge (idx + 1) pc (gas - cost) cost name;
           TraceEventBuilder.stackPop (idx + 2) pc (gas - cost) x;
           TraceEventBuilder.stackPop (idx + 3) pc (gas - cost) y;
           TraceEventBuilder.stackPush (idx + 4) pc (gas - cost) (f y x)])
       5,
     Normal true).
Proof.
  intros st pc gas Hop Hrun Hbyte Hgas Hstack Hdepth.
  destruct i as [code data [st0 [items] [evs idx] h] dests].
  unfold Interpreter.isHalted, Interpreter.getState, Interpreter.getStack in *.
  cbn [Interpreter.objs Interpreter.bytecode state stack Stack.items] in *.
  subst st pc gas items.
  rewrite (step_of_handler code data st0 _ evs idx h dests opcode Hrun Hbyte).
  assert (Hroom : (Z.of_nat (length rest) >=? MAX_STACK_DEPTH) = false).
  { unfold Stack.depth, MAX_STACK_DEPTH in *. cbn [Stack.items length] in Hdepth.
    destruct (Z.geb_spec (Z.of_nat (length rest)) 1024); [lia | reflexivity]. }
  destruct st0 as [pc0 gas0 sstack mem rd hl hr].
  cbn [MachineState.gasRemaining MachineState.pc MachineState.halted] in *.
  unfold binaryOperations in Hop. cbn [In] in Hop.
  destruct Hop as [Hop | [Hop | [Hop | [Hop | []]]]];
    injection Hop as <- <- <- <-; cbv zeta.
  - change (Interpreter.executeOpcode code data dests Opcode.ADD) with (@executeAdd H).
    unfold executeAdd. run_handler.
    destruct (Z.ltb_spec gas0 3); [lia |]. proj_simpl_goal.
    rewrite Hroom. proj_simpl_goal. rewrite Hrun. cbn [negb].
    unfold_outcome. offsets idx. reflexivity.
  - change (Interpreter.executeOpcode code data dests Opcode.MUL) with (@executeMul H).
    unfold executeMul. run_handler.
    destruct (Z.ltb_spec gas0 5); [lia |]. proj_simpl_goal.
    rewrite Hroom. proj_simpl_goal. rewrite Hrun. cbn [negb].
    unfold_outcome. offsets idx. reflexivity.
  - change (Interpreter.executeOpcode code data dests Opcode.SUB) with (@executeSub H).
    unfold executeSub. run_handler.
    destruct (Z.ltb_spec gas0 3); [lia |]. proj_simpl_goal.
    rewrite Hroom. proj_simpl_goal. rewrite Hrun. cbn [negb].
    unfold_outcome. offsets idx. reflexivity.
  - change (Interpreter.executeOpcode code data dests Opcode.DIV) with (@executeDiv H).
    unfold executeDiv. run_handler.
    destruct (Z.ltb_spec gas0 5); [lia |]. proj_simpl_goal.
    rewrite Hroom. proj_simpl_goal. rewrite Hrun. cbn [negb].
    unfold_outcome. offsets idx. reflexivity.
Qed.

Lemma binary_operation_step_witness :
  let i := interpreterFor [0x60; 10; 0x60; 3; 0x03] 100 in
  let i2 := fst (Interpreter.step (fst (Interpreter.step i))) in
  In (Opcode.SUB, 3, "SUB", Word256.sub) binaryOperations
  /\ Interpreter.isHalted i2 = false
  /\ Interpreter.byteAt (Interpreter.bytecode i2)
       (MachineState.pc (Interpreter.getState i2)) = Some Opcode.SUB
  /\ 3 <= MachineState.gasRemaining (Interpreter.getState i2)
  /\ Stack.items (Interpreter.getStack i2) = [Word256.from 3; Word256.from 10]
  /\ Stack.depth (Interpreter.getStack i2) <= MAX_STACK_DEPTH
  /\ Stack.items (Interpreter.getStack (fst (Interpreter.step i2))) = [Word256.from 7].
Proof.
  intros i i2.
  assert (H0 : In (Opcode.SUB, 3, "SUB", Word256.sub) binaryOperations)
    by (right; right; left; reflexivity).
  assert (H1 : Interpreter.isHalted i2 = false) by (vm_compute; reflexivity).
  assert (H2 : Interpreter.byteAt (Interpreter.bytecode i2)
                 (MachineState.pc (Interpreter.getState i2)) = Some Opcode.SUB)
    by (vm_compute; reflexivity).
  assert (H3 : 3 <= MachineState.gasRemaining (Interpreter.getState i2))
    by (vm_compute; discriminate).
  assert (H4 : Stack.items (Interpreter.getStack i2) = [Word256.from 3; Word256.from 10])
    by (vm_compute; reflexivity).
  assert (H5 : Stack.depth (Interpreter.getStack i2) <= MAX_STACK_DEPTH)
    by (vm_compute; discriminate).
  repeat (split; [assumption |]).
  rewrite (binary_operation_step i2 (Word256.from 3) (Word256.from 10) []
             Opcode.SUB 3 "SUB" Word256.sub H0 H1 H2 H3 H4 H5).
  reflexivity.
Defined.

(** A JUMP, or a JUMPI with a non-zero condition, to a destination of the
    pre-analysed set continues at that destination, which holds a JUMPDEST
    at an opcode position; a JUMPI with a zero condition continues at the
    next opcode whatever its destination is, valid or not. *)
Theorem jump_taken_or_skipped {H : Type} {HH : Host H} (i : Interpreter.t)
        (dest : Word256.t) (rest : list Word256.t) :
  let st := Interpreter.getState i in
  let pc := MachineState.pc st in
  let gas := MachineState.gasRemaining st in
  let code := Interpreter.bytecode i in
  Z.of_nat (length code) < 2 ^ 53 ->
  Interpreter.isHalted i = false ->
  Interpreter.validJumpDests i = buildJumpDestinations code ->
  (Word256.value dest ∈ Interpreter.validJumpDests i ->
   Interpreter.byteAt code (Word256.value dest) = Some Opcode.JUMPDEST
   /\ opcodePosition code (Word256.value dest)
   /\ (Interpreter.byteAt code pc = Some Opcode.JUMP ->
       8 <= gas ->
       Stack.items (Interpreter.getStack i) = dest :: rest ->
       Interpreter.step i
       = (continuedBy i 8 (Word256.value dest) rest
            (fun idx =>
               [TraceEventBuilder.opcodeStart idx pc gas Opcode.JUMP "JUMP";
                TraceEventBuilder.gasCharge (idx + 1) pc (gas - 8) 8 "JUMP";
                TraceEventBuilder.stackPop (idx + 2) pc (gas - 8) dest;
                TraceEventBuilder.jump (idx + 3) pc (gas - 8) pc
                  (Word256.value dest) false true])
            4,
          Normal true))
   /\ (forall condition,
         Interpreter.byteAt code pc = Some Opcode.JUMPI ->
         10 <= gas ->
         Word256.value condition <> 0 ->
         Stack.items (Interpreter.getStack i) = condition :: dest :: rest ->
         Interpreter.step i
         = (continuedBy i 10 (Word256.value dest) rest
              (fun idx =>
                 [TraceEventBuilder.opcodeStart idx pc gas Opcode.JUMPI "JUMPI";
                  TraceEventBuilder.gasCharge (idx + 1) pc (gas - 10) 10 "JUMPI";
                  TraceEventBuilder.stackPop (idx + 2) pc (gas - 10) condition;
                  TraceEventBuilder.stackPop (idx + 3) pc (gas - 10) dest;
                  TraceEventBuilder.jump (idx + 4) pc (gas - 10) pc
                    (Word256.value dest) true true])
              5,
            Normal true)))
  /\ (forall condition,
        Interpreter.byteAt code pc = Some Opcode.JUMPI ->
        10 <= gas ->
        Word256.value condition = 0 ->
        Stack.items (Interpreter.getStack i) = condition :: dest :: rest ->
        Interpreter.step i
        = (continuedBy i 10 (pc + 1) rest
             (fun idx =>
                [TraceEventBuilder.opcodeStart idx pc gas Opcode.JUMPI "JUMPI";
                 TraceEventBuilder.gasCharge (idx + 1) pc (gas - 10) 10 "JUMPI";
                 TraceEventBuilder.stackPop (idx + 2) pc (gas - 10) condition;
                 TraceEventBuilder.stackPop (idx + 3) pc (gas - 10) dest;
                 TraceEventBuilder.jump (idx + 4) pc (gas - 10) pc
                   (JS.Number_of_bigint (Word256.value dest)) true false])
             5,
           Normal true)).
Proof.
  intros st pc gas code0 Hlen Hrun Hdests.
  destruct i as [code data [st0 [items] [evs idx] h] dests].
  unfold Interpreter.isHalted, Interpreter.getState, Interpreter.getStack in *.
  cbn [Interpreter.objs Interpreter.bytecode Interpreter.validJumpDests
       state stack Stack.items] in *.
  subst st pc gas code0 dests.
  split.
  - intros Hin.
    pose proof (proj1 (buildJumpDestinations_spec code _) Hin) as [Hpos Hbyte].
    pose proof (byteAt_Some _ _ _ Hbyte) as [Hrange _].
    assert (Hnum : JS.Number_of_bigint (Word256.value dest) = Word256.value dest)
      by (apply Number_of_bigint_small; lia).
    assert (Hinside : (Word256.value dest >=? Z.of_nat (length code)) = false)
      by (destruct (Z.geb_spec (Word256.value dest) (Z.of_nat (length code)));
          [lia | reflexivity]).
    split; [exact Hbyte |]. split; [exact Hpos |]. split.
    + intros Hop Hgas ->.
      rewrite (step_of_handler code data _ _ evs idx h _ Opcode.JUMP Hrun Hop).
      destruct st0 as [pc0 gas0 sstack mem rd hl hr].
      cbn [MachineState.gasRemaining MachineState.pc MachineState.halted] in *.
      change (Interpreter.executeOpcode code data (buildJumpDestinations code)
                Opcode.JUMP)
        with (executeJUMP (H:=H) code (buildJumpDestinations code)).
      unfold executeJUMP. run_handler.
      destruct (Z.ltb_spec gas0 8); [lia |]. proj_simpl_goal.
      cbv zeta. rewrite Hnum, Hinside, (bool_decide_eq_true_2 _ Hin).
      cbn [negb]. run_handler. rewrite Hrun. cbn [negb].
      unfold_outcome. offsets idx. reflexivity.
    + intros condition Hop Hgas Hcond ->.
      rewrite (step_of_handler code data _ _ evs idx h _ Opcode.JUMPI Hrun Hop).
      destruct st0 as [pc0 gas0 sstack mem rd hl hr].
      cbn [MachineState.gasRemaining MachineState.pc MachineState.halted] in *.
      change (Interpreter.executeOpcode code data (buildJumpDestinations code)
                Opcode.JUMPI)
        with (executeJUMPI (H:=H) code (buildJumpDestinations code)).
      unfold executeJUMPI. run_handler.
      destruct (Z.ltb_spec gas0 10); [lia |]. proj_simpl_goal.
      cbv zeta. rewrite Hnum, Hinside, (bool_decide_eq_true_2 _ Hin).
      destruct (Z.eqb_spec (Word256.value condition) 0); [contradiction |].
      cbn [negb]. run_handler. rewrite Hrun. cbn [negb].
      unfold_outcome. offsets idx. reflexivity.
  - intros condition Hop Hgas Hcond ->.
    rewrite (step_of_handler code data _ _ evs idx h _ Opcode.JUMPI Hrun Hop).
    destruct st0 as [pc0 gas0 sstack mem rd hl hr].
    cbn [MachineState.gasRemaining MachineState.pc MachineState.halted] in *.
    change (Interpreter.executeOpcode code data (buildJumpDestinations code)
              Opcode.JUMPI)
      with (executeJUMPI (H:=H) code (buildJumpDestinations code)).
    unfold executeJUMPI. run_handler.
    destruct (Z.ltb_spec gas0 10); [lia |]. proj_simpl_goal.
    cbv zeta. rewrite Hcond. cbn [Z.eqb negb]. run_handler.
    rewrite Hrun. cbn [negb].
    unfold_outcome. offsets idx. reflexivity.
Qed.

Lemma jump_taken_or_skipped_witness :
  let i := fst (Interpreter.step (interpreterFor [0x60; 3; 0x56; 0x5b; 0x00] 100)) in
  Z.of_nat (length (Interpreter.bytecode i)) < 2 ^ 53
  /\ Interpreter.isHalted i = false
  /\ Interpreter.validJumpDests i = buildJumpDestinations (Interpreter.bytecode i)
  /\ Word256.value (Word256.from 3) ∈ Interpreter.validJumpDests i
  /\ Interpreter.byteAt (Interpreter.bytecode i)
       (MachineState.pc (Interpreter.getState i)) = Some Opcode.JUMP
  /\ 8 <= MachineState.gasRemaining (Interpreter.getState i)
  /\ Stack.items (Interpreter.getStack i) = [Word256.from 3]
  /\ MachineState.pc (Interpreter.getState (fst (Interpreter.step i))) = 3.
Proof.
  intros i.
  assert (Hlen : Z.of_nat (length (Interpreter.bytecode i)) < 2 ^ 53)
    by (vm_compute; reflexivity).
  assert (Hrun : Interpreter.isHalted i = false) by (vm_compute; reflexivity).
  assert (Hdests : Interpreter.validJumpDests i
                   = buildJumpDestinations (Interpreter.bytecode i))
    by (vm_compute; reflexivity).
  assert (Hin : Word256.value (Word256.from 3) ∈ Interpreter.validJumpDests i).
  { apply (proj1 (bool_decide_eq_true _)). vm_compute. reflexivity. }
  assert (Hop : Interpreter.byteAt (Interpreter.bytecode i)
                  (MachineState.pc (Interpreter.getState i)) = Some Opcode.JUMP)
    by (vm_compute; reflexivity).
  assert (Hgas : 8 <= MachineState.gasRemaining (Interpreter.getState i))
    by (vm_compute; discriminate).
  assert (Hstack : Stack.items (Interpreter.getStack i) = [Word256.from 3])
    by (vm_compute; reflexivity).
  repeat (split; [assumption |]).
  destruct (proj1 (jump_taken_or_skipped i (Word256.from 3) [] Hlen Hrun Hdests) Hin)
    as (_ & _ & Hjump & _).
  rewrite (Hjump Hop Hgas Hstack).
  reflexivity.
Defined.

(** Decides which halt reason the step gives to a caught error. *)
Ltac classify_error :=
  cbn [JS.instanceof_StackError JS.message];
  repeat match goal with
         | |- context [JS.includes ?a ?b] =>
             let v := eval vm_compute in (JS.includes a b) in
             change (JS.includes a b) with v
         end;
  cbv iota.

Section StackMisuse.
Context {H : Type} {HH : Host H}.

Lemma binary_underflow (m : M H unit) (cost : Z) (name : string)
      (f : Word256.t -> Word256.t -> Word256.t) :
  m = (chargeGas cost ;;
       emit (fun i pc gas => TraceEventBuilder.gasCharge i pc gas cost name) ;;
       b <- pop ;;
       emit (fun i pc gas => TraceEventBuilder.stackPop i pc gas b) ;;
       a <- pop ;;
       emit (fun i pc gas => TraceEventBuilder.stackPop i pc gas a) ;;
       let result := f a b in
       push result ;;
       emit (fun i pc gas => TraceEventBuilder.stackPush i pc gas result) ;;
       advancePc 1) ->
  forall st items evs idx (h : H),
    cost <= MachineState.gasRemaining st ->
    (length items <= 1)%nat ->
    m (mkObjects st (Stack.mk items) (TraceCollector.mk evs idx) h)
    = (mkObjects
         (MachineState.set_gasRemaining st (MachineState.gasRemaining st - cost))
         (Stack.mk [])
         (TraceCollector.mk
            (evs ++ TraceEventBuilder.gasCharge idx (MachineState.pc st)
                      (MachineState.gasRemaining st - cost) cost name
                 :: popsBeforeUnderflow (idx + 1) (MachineState.pc st)
                      (MachineState.gasRemaining st - cost) items)
            (idx + 1 + Z.of_nat (length items)))
         h,
       Throw (JS.StackError "Stack underflow: cannot pop from empty stack")).
Proof.
  intros -> st items evs idx h Hgas Hshort.
  destruct st as [pc0 gas0 sstack mem rd hl hr].
  cbn [MachineState.gasRemaining MachineState.pc] in *.
  run_handler.
  destruct (Z.ltb_spec gas0 cost); [lia |]. proj_simpl_goal.
  destruct items as [| x [| y rest]]; cbn [length] in Hshort; [| | lia];
    run_handler; unfold TraceCollector.record; proj_simpl_goal;
    cbn [popsBeforeUnderflow length]; rewrite <- ?app_assoc; cbn [app];
    change (Z.of_nat 0) with 0; change (Z.of_nat 1) with 1;
    rewrite ?Z.add_0_r; reflexivity.
Qed.

End StackMisuse.

(** A handler that finds the stack too short or too full halts the machine
    after its gas has been taken: a binary operation on fewer than two
    words halts with STACK_UNDERFLOW and leaves the stack empty, the one
    word it had popped being lost; a PUSH on a stack of 1024 words halts
    with STACK_OVERFLOW and leaves the stack as it was. *)
Theorem stack_misuse_halts {H : Type} {HH : Host H} (i : Interpreter.t) (opcode : Z) :
  let st := Interpreter.getState i in
  let pc := MachineState.pc st in
  let gas := MachineState.gasRemaining st in
  let items := Stack.items (Interpreter.getStack i) in
  Interpreter.isHalted i = false ->
  Interpreter.byteAt (Interpreter.bytecode i) pc = Some opcode ->
  (forall cost name f,
     In (opcode, cost, name, f) binaryOperations ->
     cost <= gas ->
     (length items <= 1)%nat ->
     Interpreter.step i
     = (haltedBy i cost []
          (fun idx =>
             TraceEventBuilder.opcodeStart idx pc gas opcode name
             :: TraceEventBuilder.gasCharge (idx + 1) pc (gas - cost) cost name
             :: popsBeforeUnderflow (idx + 2) pc (gas - cost) items)
          (2 + Z.of_nat (length items)) STACK_UNDERFLOW,
        Normal false))
  /\ (Opcode.isPushOpcode opcode = true ->
      3 <= gas ->
      MAX_STACK_DEPTH <= Stack.depth (Interpreter.getStack i) ->
      Interpreter.step i
      = (haltedBy i 3 items
           (fun idx =>
              [TraceEventBuilder.opcodeStart idx pc gas opcode
                 (Opcode.getOpcodeName opcode);
               TraceEventBuilder.gasCharge (idx + 1) pc (gas - 3) 3
                 ("PUSH" +:+ JS.toString10 (Opcode.getPushBytes opcode))])
           2 STACK_OVERFLOW,
         Normal false)).
Proof.
  intros st pc gas items Hrun Hbyte.
  destruct i as [code data [st0 [items0] [evs idx] h] dests].
  unfold Interpreter.isHalted, Interpreter.getState, Interpreter.getStack in *.
  cbn [Interpreter.objs Interpreter.bytecode state stack Stack.items] in *.
  subst st pc gas items.
  rewrite (step_of_handler code data st0 _ evs idx h dests opcode Hrun Hbyte).
  split.
  - intros cost name f Hop Hgas Hshort.
    assert (Hm : Interpreter.executeOpcode code data dests opcode
                 = (chargeGas cost ;;
                    emit (fun i pc gas => TraceEventBuilder.gasCharge i pc gas cost name) ;;
                    b <- pop ;;
                    emit (fun i pc gas => TraceEventBuilder.stackPop i pc gas b) ;;
                    a <- pop ;;
                    emit (fun i pc gas => TraceEventBuilder.stackPop i pc gas a) ;;
                    let result := f a b in
                    push result ;;
                    emit (fun i pc gas => TraceEventBuilder.stackPush i pc gas result) ;;
                    advancePc 1)
                 /\ Opcode.getOpcodeName opcode = name).
    { unfold binaryOperations in Hop. cbn [In] in Hop.
      destruct Hop as [Hop | [Hop | [Hop | [Hop | []]]]];
        injection Hop as <- <- <- <-; split; reflexivity. }
    destruct Hm as [Hm Hname].
    unfold Interpreter.tryDispatch.
    rewrite (binary_underflow _ cost name f Hm) by assumption.
    rewrite Hname. classify_error.
    cbv beta delta [bind ret throw halt onState]. proj_simpl_goal.
    unfold_outcome.
    destruct items0 as [| x [| y rest]]; cbn [length] in Hshort; [| | lia];
      cbn [popsBeforeUnderflow length app];
      change (Z.of_nat 0) with 0; change (Z.of_nat 1) with 1;
      offsets idx; rewrite ?Z.add_0_r;
      repeat match goal with
             | |- context [idx + 2 + 1] => replace (idx + 2 + 1) with (idx + 3) by lia
             | |- context [idx + (2 + 1)] => replace (idx + (2 + 1)) with (idx + 3) by lia
             | |- context [idx + (2 + 0)] => replace (idx + (2 + 0)) with (idx + 2) by lia
             | |- context [idx + 3 + 1] => replace (idx + 3 + 1) with (idx + 4) by lia
             | |- context [idx + 2 + 1] => replace (idx + 2 + 1) with (idx + 3) by lia
             end;
      reflexivity.
  - intros Hpush Hgas Hfull.
    destruct st0 as [pc0 gas0 sstack mem rd hl hr].
    cbn [MachineState.gasRemaining MachineState.pc MachineState.halted] in *.
    assert (Hm : Interpreter.executeOpcode code data dests opcode
                 = Interpreter.executePush code opcode).
    { unfold Interpreter.executeOpcode. rewrite Hpush. reflexivity. }
    rewrite Hm. unfold Interpreter.executePush. run_handler.
    destruct (Z.ltb_spec gas0 3); [lia |]. proj_simpl_goal.
    cbv zeta.
    assert (Hge : (Z.of_nat (length items0) >=? MAX_STACK_DEPTH) = true).
    { unfold Stack.depth in Hfull. cbn [Stack.items] in Hfull.
      destruct (Z.geb_spec (Z.of_nat (length items0)) MAX_STACK_DEPTH);
        [reflexivity | lia]. }
    rewrite Hge. proj_simpl_goal. classify_error.
    cbv beta delta [bind ret throw halt onState]. proj_simpl_goal.
    unfold_outcome. offsets idx.
    replace (idx + 2 + 1) with (idx + 3) by lia. reflexivity.
Qed.

Lemma stack_misuse_halts_witness :
  let i := fst (Interpreter.step (interpreterFor [0x60; 7; 0x01] 100)) in
  Interpreter.isHalted i = false
  /\ Interpreter.byteAt (Interpreter.bytecode i)
       (MachineState.pc (Interpreter.getState i)) = Some Opcode.ADD
  /\ In (Opcode.ADD, 3, "ADD", Word256.add) binaryOperations
  /\ 3 <= MachineState.gasRemaining (Interpreter.getState i)
  /\ (length (Stack.items (Interpreter.getStack i)) <= 1)%nat
  /\ Interpreter.getHaltReason (fst (Interpreter.step i)) = Some STACK_UNDERFLOW
  /\ Stack.items (Interpreter.getStack (fst (Interpreter.step i))) = [].
Proof.
  intros i.
  assert (Hrun : Interpreter.isHalted i = false) by (vm_compute; reflexivity).
  assert (Hop : Interpreter.byteAt (Interpreter.bytecode i)
                  (MachineState.pc (Interpreter.getState i)) = Some Opcode.ADD)
    by (vm_compute; reflexivity).
  assert (Hin : In (Opcode.ADD, 3, "ADD", Word256.add) binaryOperations)
    by (left; reflexivity).
  assert (Hgas : 3 <= MachineState.gasRemaining (Interpreter.getState i))
    by (vm_compute; discriminate).
  assert (Hshort : (length (Stack.items (Interpreter.getStack i)) <= 1)%nat)
    by (vm_compute; apply le_n).
  repeat (split; [assumption |]).
  rewrite (proj1 (stack_misuse_halts i Opcode.ADD Hrun Hop) 3 "ADD" Word256.add
             Hin Hgas Hshort).
  split; reflexivity.
Defined.

(** ** Word256: algebra *)

Lemma Word256_new_eq u v : u mod 2 ^ 256 = v mod 2 ^ 256 -> Word256.new u = Word256.new v.
Proof.
  intros E. unfold Word256.new. rewrite MAX_UINT256_ones, !Z.land_ones by lia.
  rewrite E. reflexivity.
Qed.

Lemma Word256_new_small v : 0 <= v < 2 ^ 256 -> Word256.new v = Word256.mk v.
Proof.
  intros Hv. unfold Word256.new. rewrite MAX_UINT256_ones, Z.land_ones by lia.
  rewrite Z.mod_small by exact Hv. reflexivity.
Qed.

Lemma Word256_new_of_value v :
  Word256.new v = Word256.mk (Word256.value (Word256.new v)).
Proof. reflexivity. Qed.

(** An equation between residues modulo 2^256 is one between integers:
    the inner reductions are dropped, as congruences. *)
Ltac drop_mod :=
  lazymatch goal with
  | |- ?a mod ?m = ?b mod ?m => change (eqm m a b)
  end;
  repeat match goal with
         | |- eqm ?m _ _ =>
             match goal with
             | |- context [?t mod m] => rewrite (Zmod_eqm m t)
             end
         end;
  unfold eqm.

Ltac word_eq :=
  unfold Word256.add, Word256.sub, Word256.mul, Word256.zero, Word256.one,
    Word256.max, Word256.from;
  apply Word256_new_eq; rewrite ?Word256_new_value; drop_mod.

(** The words with [add], [sub] and [mul] form a commutative ring: the
    operations are those of the integers modulo 2^256. *)
Theorem Word256_ring_laws (x : Z) (b c : Word256.t) :
  let a := Word256.from x in
  Word256.add a b = Word256.add b a
  /\ Word256.add (Word256.add a b) c = Word256.add a (Word256.add b c)
  /\ Word256.add a Word256.zero = a
  /\ Word256.sub a a = Word256.zero
  /\ Word256.sub a b = Word256.add a (Word256.sub Word256.zero b)
  /\ Word256.add (Word256.sub a b) b = a
  /\ Word256.sub (Word256.add a b) b = a
  /\ Word256.mul a b = Word256.mul b a
  /\ Word256.mul (Word256.mul a b) c = Word256.mul a (Word256.mul b c)
  /\ Word256.mul a Word256.one = a
  /\ Word256.mul a Word256.zero = Word256.zero
  /\ Word256.mul a (Word256.add b c)
     = Word256.add (Word256.mul a b) (Word256.mul a c).
Proof.
  intros a. subst a.
  repeat split; word_eq; f_equal; ring.
Qed.

(** For a non-zero divisor, [div] and [mod] are the quotient and the
    remainder of the Euclidean division of the values. *)
Theorem Word256_div_mod_euclid (x y : Z) :
  let a := Word256.from x in
  let b := Word256.from y in
  Word256.value b <> 0 ->
  Word256.value (Word256.div a b) = Word256.value a / Word256.value b
  /\ Word256.value (Word256.mod_ a b) = Word256.value a mod Word256.value b
  /\ Word256.value a
     = Word256.value b * Word256.value (Word256.div a b)
       + Word256.value (Word256.mod_ a b)
  /\ 0 <= Word256.value (Word256.mod_ a b) < Word256.value b.
Proof.
  intros a b Hb.
  pose proof (Word256_new_range x) as Ha. pose proof (Word256_new_range y) as Hb'.
  fold (Word256.from x) in Ha. fold (Word256.from y) in Hb'. fold a in Ha. fold b in Hb'.
  assert (Hq : Word256.value (Word256.div a b) = Word256.value a / Word256.value b).
  { unfold Word256.div. destruct (Z.eqb_spec (Word256.value b) 0); [contradiction |].
    rewrite Word256_new_value, Z.quot_div_nonneg by lia.
    apply Z.mod_small. split; [apply Z.div_pos; lia |].
    apply Z.le_lt_trans with (Word256.value a); [| lia].
    apply Z.div_le_upper_bound; nia. }
  assert (Hr : Word256.value (Word256.mod_ a b) = Word256.value a mod Word256.value b).
  { unfold Word256.mod_. destruct (Z.eqb_spec (Word256.value b) 0); [contradiction |].
    rewrite Word256_new_value, Z.rem_mod_nonneg by lia.
    pose proof (Z.mod_pos_bound (Word256.value a) (Word256.value b) ltac:(lia)).
    apply Z.mod_small. lia. }
  split; [exact Hq |]. split; [exact Hr |].
  rewrite Hq, Hr. split.
  - apply Z.div_mod. exact Hb.
  - apply Z.mod_pos_bound. lia.
Qed.

Lemma Word256_div_mod_euclid_witness :
  let a := Word256.from 17 in
  let b := Word256.from 5 in
  Word256.value b <> 0
  /\ Word256.value (Word256.div a b) = 3
  /\ Word256.value (Word256.mod_ a b) = 2.
Proof.
  intros a b.
  assert (Hb : Word256.value b <> 0) by (vm_compute; discriminate).
  destruct (Word256_div_mod_euclid 17 5 Hb) as (Hq & Hr & _).
  split; [exact Hb |].
  split; [etransitivity; [exact Hq | reflexivity]
         | etransitivity; [exact Hr | reflexivity]].
Defined.

(** ** Word256: exponentiation *)

Lemma exp_loop_spec fuel : forall base e r,
  0 <= e < 2 ^ Z.of_nat fuel -> 0 <= r < 2 ^ 256 ->
  Word256.exp_loop fuel base e r = (r * base ^ e) mod 2 ^ 256.
Proof.
  induction fuel as [| fuel IH]; intros base e r He Hr.
  - change (2 ^ Z.of_nat 0) with 1 in He. assert (e = 0) as -> by lia.
    cbn [Word256.exp_loop]. rewrite Z.pow_0_r, Z.mul_1_r, Z.mod_small by lia.
    reflexivity.
  - cbn [Word256.exp_loop].
    destruct (Z.gtb_spec e 0) as [Hpos | Hzero].
    + rewrite Nat2Z.inj_succ, Z.pow_succ_r in He by lia.
      rewrite MAX_UINT256_ones, !Z.land_ones by lia.
      change (Z.land e 1) with (Z.land e (Z.ones 1)). rewrite Z.land_ones by lia.
      change (2 ^ 1) with 2. rewrite Z.shiftr_div_pow2 by lia. change (2 ^ 1) with 2.
      pose proof (Z.div_mod e 2 ltac:(lia)) as Hdm.
      pose proof (Z.mod_pos_bound e 2 ltac:(lia)) as Hm.
      assert (Hhalf : 0 <= e / 2 < 2 ^ Z.of_nat fuel).
      { split; [apply Z.div_pos; lia | apply Z.div_lt_upper_bound; lia]. }
      assert (Hsq : forall q, 0 <= q ->
                (base * base mod 2 ^ 256) ^ q mod 2 ^ 256
                = base ^ (2 * q) mod 2 ^ 256).
      { intros q Hq. rewrite Z.mod_pow_l.
        rewrite Z.pow_mul_r by lia. rewrite Z.pow_2_r. reflexivity. }
      destruct (Z.eqb_spec (e mod 2) 0) as [Heven | Hodd]; cbn [negb].
      * rewrite IH by (try exact Hhalf; exact Hr).
        rewrite <- Zmult_mod_idemp_r, Hsq, Zmult_mod_idemp_r by lia.
        replace (2 * (e / 2)) with e by lia. reflexivity.
      * rewrite IH by (try exact Hhalf; apply Z.mod_pos_bound; lia).
        rewrite Zmult_mod_idemp_l.
        rewrite <- Zmult_mod_idemp_r, Hsq, Zmult_mod_idemp_r by lia.
        f_equal. rewrite <- Z.mul_assoc. f_equal.
        replace e with (2 * (e / 2) + 1) at 2 by lia.
        rewrite Z.pow_add_r, Z.pow_1_r by lia. ring.
    + assert (e = 0) as -> by lia.
      rewrite Z.pow_0_r, Z.mul_1_r, Z.mod_small by lia. reflexivity.
Qed.

(** [exp] is exponentiation modulo 2^256. Its loop ends: any number of
    iterations above the bit length of the exponent gives the result. *)
Theorem Word256_exp_modular (a b : Word256.t) :
  0 <= Word256.value b ->
  Word256.value (Word256.exp a b)
  = (Word256.value a ^ Word256.value b) mod 2 ^ 256
  /\ forall fuel : nat,
       Z.log2 (Word256.value b) < Z.of_nat fuel ->
       Word256.exp_loop fuel (Word256.value a) (Word256.value b) 1
       = (Word256.value a ^ Word256.value b) mod 2 ^ 256.
Proof.
  intros Hb.
  assert (Hloop : forall fuel : nat,
             Z.log2 (Word256.value b) < Z.of_nat fuel ->
             Word256.exp_loop fuel (Word256.value a) (Word256.value b) 1
             = (Word256.value a ^ Word256.value b) mod 2 ^ 256).
  { intros fuel Hf. rewrite exp_loop_spec; [f_equal; lia | | lia].
    split; [exact Hb |].
    destruct (Z.eq_dec (Word256.value b) 0) as [-> | Hnz];
      [apply Z.pow_pos_nonneg; lia |].
    apply Z.lt_le_trans with (2 ^ (Z.succ (Z.log2 (Word256.value b)))).
    - apply Z.log2_spec. lia.
    - apply Z.pow_le_mono_r; lia. }
  split; [| exact Hloop].
  unfold Word256.exp. rewrite Word256_new_value, Hloop.
  - apply Z.mod_mod. lia.
  - rewrite Nat2Z.inj_succ, Z2Nat.id by apply Z.log2_nonneg. lia.
Qed.

Lemma Word256_exp_modular_witness :
  0 <= Word256.value (Word256.from 300)
  /\ Word256.value (Word256.exp (Word256.from 2) (Word256.from 300)) = 0
  /\ Word256.value (Word256.exp (Word256.from 3) (Word256.from 5)) = 243.
Proof.
  assert (H300 : 0 <= Word256.value (Word256.from 300)) by (vm_compute; discriminate).
  assert (H5 : 0 <= Word256.value (Word256.from 5)) by (vm_compute; discriminate).
  split; [exact H300 |]. split.
  - rewrite (proj1 (Word256_exp_modular (Word256.from 2) (Word256.from 300) H300)).
    vm_compute. reflexivity.
  - rewrite (proj1 (Word256_exp_modular (Word256.from 3) (Word256.from 5) H5)).
    vm_compute. reflexivity.
Defined.

(** ** Word256: bits *)

Lemma testbit_ones_256 i : 0 <= i -> Z.testbit (Z.ones 256) i = (i <? 256).
Proof.
  intros Hi. rewrite Z.testbit_ones by lia.
  destruct (Z.leb_spec 0 i); [reflexivity | lia].
Qed.

(** Compares two words bit by bit. *)
Ltac word_bits :=
  unfold Word256.and, Word256.or, Word256.xor, Word256.not, Word256.zero,
    Word256.max, Word256.from, Word256.new;
  cbn [Word256.value]; rewrite ?MAX_UINT256_ones; f_equal;
  apply Z.bits_inj'; intros i Hi;
  repeat first
    [ rewrite Z.land_spec | rewrite Z.lor_spec | rewrite Z.lxor_spec
    | rewrite Z.lnot_spec by exact Hi | rewrite testbit_ones_256 by exact Hi
    | rewrite Z.bits_0 ];
  repeat match goal with
         | |- context [Z.testbit ?v i] => destruct (Z.testbit v i)
         end;
  destruct (i <? 256); reflexivity.

(** The bitwise operations obey the laws of a Boolean algebra on 256
    bits, and the complement is the subtraction from the maximal word. *)
Theorem Word256_bitwise_laws (x : Z) (b : Word256.t) :
  let a := Word256.from x in
  Word256.not (Word256.not a) = a
  /\ Word256.not (Word256.and a b) = Word256.or (Word256.not a) (Word256.not b)
  /\ Word256.not (Word256.or a b) = Word256.and (Word256.not a) (Word256.not b)
  /\ Word256.xor a b
     = Word256.or (Word256.and a (Word256.not b)) (Word256.and (Word256.not a) b)
  /\ Word256.xor a a = Word256.zero
  /\ Word256.and a (Word256.not a) = Word256.zero
  /\ Word256.or a (Word256.not a) = Word256.max
  /\ Word256.and a Word256.max = a
  /\ Word256.or a Word256.zero = a
  /\ Word256.not a = Word256.sub Word256.max a.
Proof.
  intros a. subst a.
  do 9 (split; [word_bits |]).
  unfold Word256.not, Word256.sub, Word256.max, Word256.from.
  apply Word256_new_eq. rewrite !Word256_new_value.
  unfold Z.lnot. rewrite <- Z.sub_1_r. drop_mod.
  change MAX_UINT256 with (2 ^ 256 - 1).
  replace (2 ^ 256 - 1 - x) with (- x - 1 + 1 * 2 ^ 256) by lia.
  rewrite Z.mod_add by lia. reflexivity.
Qed.

(** ** Word256: shifts *)

Lemma Word256_shr_value (a s : Word256.t) :
  0 <= Word256.value a < 2 ^ 256 -> 0 <= Word256.value s < 256 ->
  Word256.value (Word256.shr a s) = Word256.value a / 2 ^ Word256.value s.
Proof.
  intros Ha Hs. unfold Word256.shr.
  destruct (Z.geb_spec (Word256.value s) 256); [lia |].
  rewrite Word256_new_value, Z.shiftr_div_pow2 by lia.
  assert (0 < 2 ^ Word256.value s) by (apply Z.pow_pos_nonneg; lia).
  apply Z.mod_small. split; [apply Z.div_pos; lia |].
  apply Z.le_lt_trans with (Word256.value a); [| lia].
  apply Z.div_le_upper_bound; nia.
Qed.

(** A shift by less than 256 bits multiplies or divides by a power of
    two; shifting left and back right clears the bits that left the word. *)
Theorem Word256_shifts (x n : Z) :
  let a := Word256.from x in
  let s := Word256.from n in
  Word256.value s < 256 ->
  Word256.value (Word256.shl a s)
  = (Word256.value a * 2 ^ Word256.value s) mod 2 ^ 256
  /\ Word256.value (Word256.shr a s) = Word256.value a / 2 ^ Word256.value s
  /\ Word256.value (Word256.shr (Word256.shl a s) s)
     = Word256.value a mod 2 ^ (256 - Word256.value s).
Proof.
  intros a s Hlt.
  pose proof (Word256_new_range x) as Ha. pose proof (Word256_new_range n) as Hs.
  fold (Word256.from x) in Ha. fold (Word256.from n) in Hs. fold a in Ha. fold s in Hs.
  assert (Hshl : Word256.value (Word256.shl a s)
                 = (Word256.value a * 2 ^ Word256.value s) mod 2 ^ 256).
  { unfold Word256.shl. destruct (Z.geb_spec (Word256.value s) 256); [lia |].
    rewrite Word256_new_value, Z.shiftl_mul_pow2 by lia. reflexivity. }
  split; [exact Hshl |].
  split; [apply Word256_shr_value; lia |].
  rewrite Word256_shr_value; [| | lia].
  - rewrite Hshl.
    assert (Hp : 0 < 2 ^ Word256.value s) by (apply Z.pow_pos_nonneg; lia).
    assert (Hq : 0 < 2 ^ (256 - Word256.value s)) by (apply Z.pow_pos_nonneg; lia).
    replace (2 ^ 256) with (2 ^ (256 - Word256.value s) * 2 ^ Word256.value s).
    + rewrite Z.mul_mod_distr_r by lia. apply Z.div_mul. lia.
    + rewrite <- Z.pow_add_r by lia. f_equal. lia.
  - rewrite Hshl. apply Z.mod_pos_bound. lia.
Qed.

Lemma Word256_shifts_witness :
  let a := Word256.from (2 ^ 255 + 5) in
  let s := Word256.from 4 in
  Word256.value s < 256
  /\ Word256.value (Word256.shl a s) = 80
  /\ Word256.value (Word256.shr (Word256.shl a s) s) = 5.
Proof.
  intros a s.
  assert (Hs : Word256.value s < 256) by (vm_compute; reflexivity).
  destruct (Word256_shifts (2 ^ 255 + 5) 4 Hs) as (H1 & _ & H3).
  split; [exact Hs |].
  split; [etransitivity; [exact H1 | vm_compute; reflexivity]
         | etransitivity; [exact H3 | vm_compute; reflexivity]].
Defined.

(** ** Word256: bytes and strings *)

Lemma byte_of_to_Z b : JS.byte_of_Z (JS.byte_to_Z b) = b.
Proof.
  unfold JS.byte_of_Z. pose proof (byte_to_Z_range b) as Hr.
  rewrite Z.mod_small by exact Hr. unfold JS.byte_to_Z.
  rewrite N2Z.id, Byte.of_to_N. reflexivity.
Qed.

Lemma toBytes_loop_zero n : forall acc,
  Word256.toBytes_loop n 0 acc = repeat x00 n ++ acc.
Proof.
  induction n as [| n IH]; intros acc; [reflexivity |].
  cbn [Word256.toBytes_loop]. change (Z.shiftr 0 8) with 0.
  change (JS.byte_of_Z (Z.land 0 255)) with x00.
  rewrite IH. change (x00 :: acc) with ([x00] ++ acc).
  rewrite app_assoc, <- repeat_cons. reflexivity.
Qed.

Lemma bigEndian_snoc bs b init :
  fold_left (fun value b => Z.lor (Z.shiftl value 8) (JS.byte_to_Z b)) (bs ++ [b]) init
  = fold_left (fun value b => Z.lor (Z.shiftl value 8) (JS.byte_to_Z b)) bs init * 256
    + JS.byte_to_Z b.
Proof. rewrite fold_left_app. cbn [fold_left]. apply push_byte_add. Qed.

Lemma bigEndian_range bs :
  0 <= fold_left (fun value b => Z.lor (Z.shiftl value 8) (JS.byte_to_Z b)) bs 0
    < 2 ^ (8 * Z.of_nat (length bs)).
Proof.
  induction bs as [| b bs IH] using rev_ind; [cbn; lia |].
  rewrite bigEndian_snoc, length_app. cbn [length].
  pose proof (byte_to_Z_range b).
  replace (8 * Z.of_nat (length bs + 1)) with (8 * Z.of_nat (length bs) + 8) by lia.
  rewrite Z.pow_add_r by lia. change (2 ^ 8) with 256. nia.
Qed.

Lemma toBytes_loop_bigEndian bs : forall (n : nat) acc,
  (length bs <= n)%nat ->
  Word256.toBytes_loop n
    (fold_left (fun value b => Z.lor (Z.shiftl value 8) (JS.byte_to_Z b)) bs 0) acc
  = repeat x00 (n - length bs) ++ bs ++ acc.
Proof.
  induction bs as [| b bs IH] using rev_ind; intros n acc Hn.
  - cbn [fold_left length app]. rewrite Nat.sub_0_r. apply toBytes_loop_zero.
  - rewrite length_app in *. cbn [length] in *.
    destruct n as [| n]; [lia |].
    rewrite bigEndian_snoc. cbn [Word256.toBytes_loop].
    pose proof (byte_to_Z_range b) as Hb.
    rewrite Z.shiftr_div_pow2 by lia. change (2 ^ 8) with 256.
    rewrite Z.div_add_l, Z.div_small, Z.add_0_r by lia.
    change 255 with (Z.ones 8). rewrite Z.land_ones by lia. change (2 ^ 8) with 256.
    rewrite Z.add_comm, Z.mod_add, Z.mod_small by lia.
    rewrite byte_of_to_Z, IH by lia.
    replace (S n - (length bs + 1))%nat with (n - length bs)%nat by lia.
    rewrite <- !app_assoc. reflexivity.
Qed.

(** [fromBytes] reads up to 32 bytes as a big-endian number, as if the
    array were padded with zeros on the left: [toBytes] gives the bytes
    back after the padding. A longer array is refused. *)
Theorem Word256_fromBytes_padded (bs : list byte) :
  ((length bs <= 32)%nat ->
   exists w,
     Word256.fromBytes bs = Normal w
     /\ Word256.toBytes w = repeat x00 (32 - length bs) ++ bs)
  /\ ((32 < length bs)%nat ->
      Word256.fromBytes bs
      = Throw (JS.Error ("Byte array too long: "
                         +:+ JS.toString10 (Z.of_nat (length bs)) +:+ " > 32"))).
Proof.
  unfold Word256.fromBytes. split; intros Hlen.
  - destruct (Z.gtb_spec (Z.of_nat (length bs)) 32); [lia |].
    eexists. split; [reflexivity |].
    unfold Word256.toBytes. rewrite Word256_new_value.
    pose proof (bigEndian_range bs) as Hr.
    rewrite Z.mod_small.
    + rewrite toBytes_loop_bigEndian by exact Hlen. rewrite app_nil_r. reflexivity.
    + split; [lia |]. apply Z.lt_le_trans with (2 ^ (8 * Z.of_nat (length bs))); [lia |].
      apply Z.pow_le_mono_r; lia.
  - destruct (Z.gtb_spec (Z.of_nat (length bs)) 32); [reflexivity | lia].
Qed.

Lemma Word256_fromBytes_padded_witness :
  (length [x01; x02] <= 32)%nat
  /\ (32 < length (repeat xff 33))%nat
  /\ (exists w,
        Word256.fromBytes [x01; x02] = Normal w
        /\ Word256.toBytes w = repeat x00 30 ++ [x01; x02])
  /\ Word256.fromBytes (repeat xff 33)
     = Throw (JS.Error "Byte array too long: 33 > 32").
Proof.
  assert (H1 : (length [x01; x02] <= 32)%nat) by (cbn; lia).
  assert (H2 : (32 < length (repeat xff 33))%nat) by (cbn; lia).
  split; [exact H1 |]. split; [exact H2 |]. split.
  - exact (proj1 (Word256_fromBytes_padded [x01; x02]) H1).
  - exact (proj2 (Word256_fromBytes_padded (repeat xff 33)) H2).
Defined.

(** What a word prints as reads back as the word: the hexadecimal form
    with its [0x] prefix (also the result of [toString]) through
    [fromHex], the decimal form through [BigInt]. The empty string and
    the bare prefix read as zero. *)
Theorem Word256_strings_roundtrip (v : Z) :
  let w := Word256.new v in
  Word256.fromHex (Word256.toHexWith0x w) = Normal w
  /\ String.length (Word256.toHexWith0x w) = 66%nat
  /\ JS.BigInt_of_decimal (Word256.toDecimalString w) = Some (Word256.value w)
  /\ Word256.fromHex "" = Normal Word256.zero
  /\ Word256.fromHex "0x" = Normal Word256.zero.
Proof.
  intros w. pose proof (Word256_new_range v) as Hr. fold w in Hr.
  assert (Hhex : JS.isHexString (Word256.toHex w) = true).
  { unfold Word256.toHex, JS.padStart. rewrite isHexString_zeros.
    apply toString16_isHex. lia. }
  split; [| split; [| split; [| split; reflexivity]]].
  - unfold Word256.fromHex, Word256.toHexWith0x.
    change (JS.startsWith "0x" ("0x" +:+ Word256.toHex w)) with true.
    change (JS.slice_from 2 ("0x" +:+ Word256.toHex w)) with (Word256.toHex w).
    cbv iota zeta. rewrite Hhex. cbn [negb].
    rewrite bigint_of_empty_or_hex. f_equal.
    unfold JS.BigInt_of_hex, Word256.toHex, JS.padStart.
    rewrite parse_hex_zeros by reflexivity. rewrite toString16_parse by lia.
    apply Word256_new_idem.
  - unfold Word256.toHexWith0x, Word256.toHex, JS.padStart.
    rewrite !string_length_app, length_repeat_char.
    pose proof (toString16_length (Word256.value w) 64 ltac:(lia)) as Hl.
    change (16 ^ Z.of_nat 64) with (2 ^ 256) in Hl. specialize (Hl Hr).
    cbn [String.length]. lia.
  - apply toString10_reads_back.
Qed.

(** ** Address *)

Lemma Address_new_value v : Address.value (Address.new v) = v mod 2 ^ 160.
Proof.
  unfold Address.new; cbn [Address.value].
  change (Z.shiftl 1 160 - 1) with (Z.ones 160). apply Z.land_ones. lia.
Qed.

Lemma Address_new_small v : 0 <= v < 2 ^ 160 -> Address.new v = Address.mk v.
Proof.
  intros Hv. unfold Address.new.
  change (Z.shiftl 1 160 - 1) with (Z.ones 160).
  rewrite Z.land_ones, Z.mod_small by lia. reflexivity.
Qed.

Lemma Address_new_idem v : Address.new (Address.value (Address.new v)) = Address.new v.
Proof.
  unfold Address.new; cbn [Address.value]. f_equal.
  rewrite <- Z.land_assoc, Z.land_diag. reflexivity.
Qed.

Lemma indexFrom_range c digits : forall i v,
  JS.indexFrom c digits i = Some v -> i <= v < i + Z.of_nat (String.length digits).
Proof.
  induction digits as [| d rest IH]; intros i v; cbn [JS.indexFrom String.length];
    [discriminate |].
  destruct (Ascii.eqb c d).
  - intros [= <-]. lia.
  - intros Hv. apply IH in Hv. lia.
Qed.

Lemma hex_value_range c d : JS.hex_value c = Some d -> 0 <= d < 16.
Proof.
  unfold JS.hex_value.
  destruct (JS.indexFrom c JS.lowerHexDigits 0) as [v |] eqn:El.
  - intros [= <-]. apply indexFrom_range in El. cbn in El. lia.
  - intros Hu. apply indexFrom_range in Hu. cbn in Hu. lia.
Qed.

Lemma parse_hex_range s : forall acc,
  JS.isHexString s = true -> 0 <= acc ->
  0 <= JS.parse_hex s acc < (acc + 1) * 16 ^ Z.of_nat (String.length s).
Proof.
  induction s as [| c s IH]; intros acc Hs Hacc; cbn [JS.parse_hex String.length].
  - change (16 ^ Z.of_nat 0) with 1. lia.
  - cbn [JS.isHexString] in Hs.
    destruct (JS.hex_value c) as [d |] eqn:Ed; [| discriminate].
    apply hex_value_range in Ed. cbn [from_option id].
    specialize (IH (acc * 16 + d) Hs ltac:(lia)).
    rewrite Nat2Z.inj_succ, Z.pow_succ_r by lia.
    assert (0 < 16 ^ Z.of_nat (String.length s)) by (apply Z.pow_pos_nonneg; lia).
    nia.
Qed.

(** An address is 160 bits wide; its conversions to hexadecimal (40
    digits, with or without the prefix) and to bytes (20 of them) are
    lossless. *)
Theorem Address_conversions_roundtrip (v : Z) :
  let a := Address.new v in
  0 <= Address.value a < 2 ^ 160
  /\ Address.fromHex (Address.toHex a) = Normal a
  /\ Address.fromHex (Address.toHexWith0x a) = Normal a
  /\ Address.fromBytes (Address.toBytes a) = Normal a
  /\ length (Address.toBytes a) = 20%nat
  /\ String.length (Address.toHex a) = 40%nat.
Proof.
  intros a.
  assert (Hr : 0 <= Address.value a < 2 ^ 160).
  { unfold a. rewrite Address_new_value. apply Z.mod_pos_bound. lia. }
  assert (Hlen : length (Address.toBytes a) = 20%nat).
  { unfold Address.toBytes. rewrite toBytes_loop_length. reflexivity. }
  assert (Hchars : String.length (Address.toHex a) = 40%nat).
  { unfold Address.toHex, JS.padStart. rewrite string_length_app, length_repeat_char.
    pose proof (toString16_length (Address.value a) 40 ltac:(lia)) as Hl.
    change (16 ^ Z.of_nat 40) with (2 ^ 160) in Hl. specialize (Hl Hr). lia. }
  assert (Hhex : JS.isHexString (Address.toHex a) = true).
  { unfold Address.toHex, JS.padStart. rewrite isHexString_zeros.
    apply toString16_isHex. lia. }
  assert (Hparse : Address.new (JS.BigInt_of_hex (Address.toHex a)) = a).
  { unfold JS.BigInt_of_hex, Address.toHex, JS.padStart.
    rewrite parse_hex_zeros by reflexivity. rewrite toString16_parse by lia.
    apply Address_new_idem. }
  assert (Hclean : Address.fromHex (Address.toHex a) = Normal a).
  { unfold Address.fromHex. rewrite (hex_string_no_0x _ Hhex), Hhex. cbn [negb].
    rewrite Hchars. change (Z.of_nat 40 >? 40) with false. cbv iota.
    rewrite bigint_of_empty_or_hex, Hparse. reflexivity. }
  split; [exact Hr |]. split; [exact Hclean |].
  split; [| split; [| split; [exact Hlen | exact Hchars]]].
  - unfold Address.fromHex, Address.toHexWith0x.
    change (JS.startsWith "0x" ("0x" +:+ Address.toHex a)) with true.
    change (JS.slice_from 2 ("0x" +:+ Address.toHex a)) with (Address.toHex a).
    cbv iota zeta. rewrite Hhex. cbn [negb].
    rewrite Hchars. change (Z.of_nat 40 >? 40) with false. cbv iota.
    rewrite bigint_of_empty_or_hex, Hparse. reflexivity.
  - unfold Address.fromBytes. rewrite Hlen.
    change (Z.of_nat 20 >? 20) with false. cbv iota.
    f_equal. unfold Address.toBytes. rewrite toBytes_loop_fold. cbn [fold_left].
    rewrite Z.mul_0_l, Z.add_0_l.
    change (8 * Z.of_nat 20) with 160. rewrite Z.mod_small by lia.
    apply Address_new_idem.
Qed.

(** An address is never cut to size silently: a string of up to 40
    hexadecimal digits, or an array of up to 20 bytes, gives the address
    with exactly the number it denotes; anything longer is refused,
    where [Word256] would reduce it modulo 2^256. *)
Theorem Address_input_not_truncated (digits : string) (bs : list byte) :
  JS.isHexString digits = true ->
  ((String.length digits <= 40)%nat ->
   Address.fromHex digits = Normal (Address.mk (JS.BigInt_of_hex digits)))
  /\ ((40 < String.length digits)%nat ->
      Address.fromHex digits
      = Throw (JS.Error ("Address hex string too long: "
                         +:+ JS.toString10 (Z.of_nat (String.length digits))
                         +:+ " > 40")))
  /\ ((length bs <= 20)%nat ->
      Address.fromBytes bs
      = Normal (Address.mk
                  (fold_left (fun value b => Z.lor (Z.shiftl value 8) (JS.byte_to_Z b))
                             bs 0)))
  /\ ((20 < length bs)%nat ->
      Address.fromBytes bs
      = Throw (JS.Error ("Byte array too long: "
                         +:+ JS.toString10 (Z.of_nat (length bs)) +:+ " > 20"))).
Proof.
  intros Hhex. unfold Address.fromHex, Address.fromBytes.
  rewrite (hex_string_no_0x _ Hhex), Hhex. cbn [negb].
  split; [| split; [| split]]; intros Hlen.
  - destruct (Z.gtb_spec (Z.of_nat (String.length digits)) 40); [lia |].
    rewrite bigint_of_empty_or_hex. f_equal. apply Address_new_small.
    pose proof (parse_hex_range digits 0 Hhex ltac:(lia)) as Hr.
    unfold JS.BigInt_of_hex. split; [lia |].
    apply Z.lt_le_trans with (16 ^ Z.of_nat (String.length digits)); [lia |].
    change (2 ^ 160) with (16 ^ 40). apply Z.pow_le_mono_r; lia.
  - destruct (Z.gtb_spec (Z.of_nat (String.length digits)) 40); [reflexivity | lia].
  - destruct (Z.gtb_spec (Z.of_nat (length bs)) 20); [lia |].
    f_equal. apply Address_new_small.
    pose proof (bigEndian_range bs) as Hr. split; [lia |].
    apply Z.lt_le_trans with (2 ^ (8 * Z.of_nat (length bs))); [lia |].
    apply Z.pow_le_mono_r; lia.
  - destruct (Z.gtb_spec (Z.of_nat (length bs)) 20); [reflexivity | lia].
Qed.

Lemma Address_input_not_truncated_witness :
  JS.isHexString "00000000000000000000000000000000000000000000000000000000deadbeef" = true
  /\ JS.isHexString "DeadBeef" = true
  /\ (String.length "DeadBeef" <= 40)%nat
  /\ (length [x12; x34] <= 20)%nat
  /\ (20 < length (repeat x01 21))%nat
  /\ Address.fromHex "DeadBeef" = Normal (Address.mk 0xdeadbeef)
  /\ Address.fromHex "00000000000000000000000000000000000000000000000000000000deadbeef"
     = Throw (JS.Error "Address hex string too long: 64 > 40")
  /\ Address.fromBytes [x12; x34] = Normal (Address.mk 0x1234)
  /\ Address.fromBytes (repeat x01 21)
     = Throw (JS.Error "Byte array too long: 21 > 20").
Proof.
  set (long := "00000000000000000000000000000000000000000000000000000000deadbeef").
  assert (H1 : JS.isHexString long = true) by reflexivity.
  assert (H2 : JS.isHexString "DeadBeef" = true) by reflexivity.
  assert (H3 : (String.length "DeadBeef" <= 40)%nat) by (cbn; lia).
  assert (H4 : (length [x12; x34] <= 20)%nat) by (cbn; lia).
  assert (H5 : (20 < length (repeat x01 21))%nat) by (cbn; lia).
  assert (H6 : (40 < String.length long)%nat) by (cbn; lia).
  destruct (Address_input_not_truncated "DeadBeef" [x12; x34] H2) as (Ha & _ & Hb & _).
  destruct (Address_input_not_truncated long (repeat x01 21) H1) as (_ & Hc & _ & Hd).
  repeat (split; [assumption |]).
  split; [exact (Ha H3) |]. split; [exact (Hc H6) |].
  split; [exact (Hb H4) | exact (Hd H5)].
Defined.

(** ** MemoryHost *)

Lemma Word256_toHex_parse v :
  Word256.new (JS.BigInt_of_hex (Word256.toHex (Word256.new v))) = Word256.new v.
Proof.
  pose proof (Word256_new_range v) as Hr.
  unfold JS.BigInt_of_hex, Word256.toHex, JS.padStart.
  rewrite parse_hex_zeros by reflexivity. rewrite toString16_parse by lia.
  apply Word256_new_idem.
Qed.

Lemma Address_toHex_parse v :
  Address.new (JS.BigInt_of_hex (Address.toHex (Address.new v))) = Address.new v.
Proof.
  assert (Hr : 0 <= Address.value (Address.new v) < 2 ^ 160).
  { rewrite Address_new_value. apply Z.mod_pos_bound. lia. }
  unfold JS.BigInt_of_hex, Address.toHex, JS.padStart.
  rewrite parse_hex_zeros by reflexivity. rewrite toString16_parse by lia.
  apply Address_new_idem.
Qed.

Lemma Address_toHex_length v : String.length (Address.toHex (Address.new v)) = 40%nat.
Proof.
  assert (Hr : 0 <= Address.value (Address.new v) < 2 ^ 160).
  { rewrite Address_new_value. apply Z.mod_pos_bound. lia. }
  unfold Address.toHex, JS.padStart. rewrite string_length_app, length_repeat_char.
  pose proof (toString16_length (Address.value (Address.new v)) 40 ltac:(lia)) as Hl.
  change (16 ^ Z.of_nat 40) with (2 ^ 160) in Hl. specialize (Hl Hr). lia.
Qed.

Lemma string_app_inj (a a' b b' : string) :
  String.length a = String.length a' -> a +:+ b = a' +:+ b' -> a = a' /\ b = b'.
Proof.
  revert a'. induction a as [| c a IH]; intros [| c' a'] Hlen; try discriminate.
  - intros E. split; [reflexivity | exact E].
  - cbn in Hlen. injection Hlen as Hlen.
    change (String c a +:+ b) with (String c (a +:+ b)).
    change (String c' a' +:+ b') with (String c' (a' +:+ b')).
    intros [= -> E]. destruct (IH a' Hlen E) as [-> ->]. split; reflexivity.
Qed.

(** Distinct slots have distinct keys in the map of the host. *)
Lemma storageKey_inj (x x' y y' : Z) :
  MemoryHost.storageKey (Address.new x) (Word256.new y)
  = MemoryHost.storageKey (Address.new x') (Word256.new y') ->
  Address.new x = Address.new x' /\ Word256.new y = Word256.new y'.
Proof.
  unfold MemoryHost.storageKey. intros E.
  apply string_app_inj in E; [| rewrite !Address_toHex_length; reflexivity].
  destruct E as [Ea Ek].
  change (":" +:+ ?s) with (String ":" s) in Ek. injection Ek as Ek.
  split.
  - rewrite <- (Address_toHex_parse x), <- (Address_toHex_parse x'), Ea. reflexivity.
  - rewrite <- (Word256_toHex_parse y), <- (Word256_toHex_parse y'), Ek. reflexivity.
Qed.

(** A slot holds the last word stored in it. Storing zero removes the
    slot from the map, and a missing slot reads as zero, so this holds for
    zero too, and the size of the storage counts the non-zero slots only.
    Storing touches neither the logs nor the address. *)
Theorem MemoryHost_sstore_then_sload
        (h : MemoryHost.t) (a : Address.t) (key value : Word256.t) :
  let h' := MemoryHost.sstore h a key value in
  MemoryHost.sload h' a key = value
  /\ (Word256.isZero value = true ->
      MemoryHost.storage h' !! MemoryHost.storageKey a key = None
      /\ MemoryHost.getStorageSize h' <= MemoryHost.getStorageSize h)
  /\ (Word256.isZero value = false ->
      MemoryHost.storage h' !! MemoryHost.storageKey a key = Some value)
  /\ MemoryHost.getLogs h' = MemoryHost.getLogs h
  /\ MemoryHost.getAddress h' = MemoryHost.getAddress h.
Proof.
  intros h'. subst h'. unfold MemoryHost.sstore, MemoryHost.sload.
  destruct (Word256.isZero value) eqn:Ez; cbn [MemoryHost.storage MemoryHost.logs
    MemoryHost.address MemoryHost.getLogs MemoryHost.getAddress
    MemoryHost.getStorageSize].
  - rewrite lookup_delete_eq. cbn [from_option id].
    split; [| split; [| split; [discriminate | split; reflexivity]]].
    + unfold Word256.isZero in Ez. apply Z.eqb_eq in Ez.
      destruct value as [v]. cbn in Ez. subst v. reflexivity.
    + intros _. split; [reflexivity |].
      apply inj_le. apply map_subseteq_size. apply delete_subseteq.
  - rewrite lookup_insert_eq. cbn [from_option id].
    split; [reflexivity |]. split; [discriminate |].
    split; [reflexivity |]. split; reflexivity.
Qed.

Lemma MemoryHost_sstore_then_sload_witness :
  let h := MemoryHost.sstore (MemoryHost.new None) Address.zero Word256.one
             (Word256.from 7) in
  Word256.isZero Word256.zero = true
  /\ Word256.isZero (Word256.from 7) = false
  /\ MemoryHost.sload h Address.zero Word256.one = Word256.from 7
  /\ MemoryHost.getStorageSize h = 1
  /\ MemoryHost.sload (MemoryHost.sstore h Address.zero Word256.one Word256.zero)
       Address.zero Word256.one = Word256.zero
  /\ MemoryHost.storage (MemoryHost.sstore h Address.zero Word256.one Word256.zero)
     !! MemoryHost.storageKey Address.zero Word256.one = None.
Proof.
  intros h.
  assert (H1 : Word256.isZero Word256.zero = true) by reflexivity.
  assert (H2 : Word256.isZero (Word256.from 7) = false) by reflexivity.
  split; [exact H1 |]. split; [exact H2 |].
  destruct (MemoryHost_sstore_then_sload (MemoryHost.new None) Address.zero
              Word256.one (Word256.from 7)) as (Hload & _ & _).
  destruct (MemoryHost_sstore_then_sload h Address.zero Word256.one Word256.zero)
    as (Hzero & Hgone & _).
  split; [exact Hload |]. split; [vm_compute; reflexivity |].
  split; [exact Hzero | exact (proj1 (Hgone H1))].
Defined.

(** Slots do not alias: storing into one slot leaves the word read from
    any other slot, of the same or of another address, as it was. *)
Theorem MemoryHost_slots_independent
        (h : MemoryHost.t) (x x' y y' : Z) (value : Word256.t) :
  let a := Address.from x in
  let a' := Address.from x' in
  let key := Word256.from y in
  let key' := Word256.from y' in
  a <> a' \/ key <> key' ->
  MemoryHost.sload (MemoryHost.sstore h a key value) a' key'
  = MemoryHost.sload h a' key'.
Proof.
  intros a a' key key' Hne.
  assert (Hkeys : MemoryHost.storageKey a key <> MemoryHost.storageKey a' key').
  { intros E. apply storageKey_inj in E. destruct E as [Ea Ek].
    destruct Hne as [Hne | Hne]; apply Hne; assumption. }
  unfold MemoryHost.sstore, MemoryHost.sload.
  destruct (Word256.isZero value); cbn [MemoryHost.storage].
  - rewrite lookup_delete_ne by exact Hkeys. reflexivity.
  - rewrite lookup_insert_ne by exact Hkeys. reflexivity.
Qed.

Lemma MemoryHost_slots_independent_witness :
  let h := MemoryHost.sstore (MemoryHost.new None) (Address.from 1) (Word256.from 2)
             (Word256.from 7) in
  (Address.from 1 <> Address.from 1 \/ Word256.from 3 <> Word256.from 2)
  /\ MemoryHost.sload
       (MemoryHost.sstore h (Address.from 1) (Word256.from 3) (Word256.from 9))
       (Address.from 1) (Word256.from 2)
     = Word256.from 7.
Proof.
  intros h.
  assert (Hne : Address.from 1 <> Address.from 1 \/ Word256.from 3 <> Word256.from 2)
    by (right; discriminate).
  split; [exact Hne |].
  rewrite (MemoryHost_slots_independent h 1 1 3 2 (Word256.from 9) Hne).
  vm_compute. reflexivity.
Defined.

(** ** Stack *)

Lemma Stack_eta (s : Stack.t) : Stack.mk (Stack.items s) = s.
Proof. destruct s. reflexivity. Qed.

Lemma Stack_peekAt_lookup (s : Stack.t) (d : Z) :
  0 <= d < Stack.depth s ->
  exists w, Stack.items s !! Z.to_nat d = Some w /\ Stack.peekAt s d = Normal w.
Proof.
  intros Hd. unfold Stack.peekAt.
  destruct (Z.ltb_spec d 0); [lia |].
  destruct (Z.geb_spec d (Stack.depth s)); [lia |]. cbn [orb].
  destruct (Stack.items s !! Z.to_nat d) as [w |] eqn:E.
  - exists w. split; reflexivity.
  - apply lookup_ge_None in E. unfold Stack.depth in Hd. lia.
Qed.

(** A word pushed is the word popped next, and the stack is back as it
    was. A push on a full stack and a pop or a peek on an empty one fail,
    and leave the stack alone. *)
Theorem Stack_push_pop (s : Stack.t) (w : Word256.t) :
  (Stack.depth s < MAX_STACK_DEPTH ->
   exists s',
     Stack.push s w = (s', Normal tt)
     /\ Stack.depth s' = Stack.depth s + 1
     /\ Stack.peek s' = Normal w
     /\ Stack.pop s' = (s, Normal w))
  /\ (MAX_STACK_DEPTH <= Stack.depth s ->
      Stack.push s w
      = (s, Throw (JS.StackError "Stack overflow: cannot push beyond 1024 items")))
  /\ (Stack.depth s = 0 ->
      Stack.pop s
      = (s, Throw (JS.StackError "Stack underflow: cannot pop from empty stack"))
      /\ Stack.peek s
         = Throw (JS.StackError "Stack underflow: cannot peek empty stack")).
Proof.
  split; [| split].
  - intros Hd. unfold Stack.push.
    destruct (Z.geb_spec (Stack.depth s) MAX_STACK_DEPTH); [lia |].
    eexists. split; [reflexivity |].
    unfold Stack.depth, Stack.peek, Stack.pop. cbn [Stack.items length].
    rewrite Stack_eta. repeat split. lia.
  - intros Hd. unfold Stack.push.
    destruct (Z.geb_spec (Stack.depth s) MAX_STACK_DEPTH); [reflexivity | lia].
  - intros Hd. unfold Stack.pop, Stack.peek. unfold Stack.depth in Hd.
    destruct (Stack.items s); [split; reflexivity | cbn in Hd; lia].
Qed.

Lemma Stack_push_pop_witness :
  let s := Stack.mk [Word256.from 1] in
  Stack.depth s < MAX_STACK_DEPTH
  /\ MAX_STACK_DEPTH <= Stack.depth (Stack.mk (repeat Word256.zero 1024))
  /\ Stack.depth Stack.new = 0
  /\ (exists s',
        Stack.push s (Word256.from 2) = (s', Normal tt)
        /\ Stack.pop s' = (s, Normal (Word256.from 2)))
  /\ fst (Stack.push (Stack.mk (repeat Word256.zero 1024)) Word256.one)
     = Stack.mk (repeat Word256.zero 1024)
  /\ Stack.peek Stack.new
     = Throw (JS.StackError "Stack underflow: cannot peek empty stack").
Proof.
  intros s. set (full := Stack.mk (repeat Word256.zero 1024)).
  assert (H1 : Stack.depth s < MAX_STACK_DEPTH) by (vm_compute; reflexivity).
  assert (H2 : MAX_STACK_DEPTH <= Stack.depth full) by (vm_compute; discriminate).
  assert (H3 : Stack.depth Stack.new = 0) by reflexivity.
  split; [exact H1 |]. split; [exact H2 |]. split; [exact H3 |].
  split; [| split].
  - destruct (proj1 (Stack_push_pop s (Word256.from 2)) H1) as (s' & Hp & _ & _ & Hq).
    exists s'. split; assumption.
  - rewrite (proj1 (proj2 (Stack_push_pop full Word256.one)) H2). reflexivity.
  - exact (proj2 (proj2 (proj2 (Stack_push_pop Stack.new Word256.one)) H3)).
Defined.

(** [swap n] exchanges the top of the stack with the word [n] below it
    and leaves every other position as it is; done twice it restores the
    stack. *)
Theorem Stack_swap_exchanges (s : Stack.t) (n : Z) :
  1 <= n <= 16 -> n < Stack.depth s ->
  exists s',
    Stack.swap s n = (s', Normal tt)
    /\ Stack.depth s' = Stack.depth s
    /\ Stack.peekAt s' 0 = Stack.peekAt s n
    /\ Stack.peekAt s' n = Stack.peekAt s 0
    /\ (forall d, d <> 0 -> d <> n -> Stack.peekAt s' d = Stack.peekAt s d)
    /\ Stack.swap s' n = (s, Normal tt).
Proof.
  intros Hn Hd.
  destruct (Stack_peekAt_lookup s 0 ltac:(lia)) as (top & Ltop & Ptop).
  destruct (Stack_peekAt_lookup s n ltac:(lia)) as (other & Loth & Poth).
  change (Z.to_nat 0) with 0%nat in Ltop.
  assert (Hne : Z.to_nat n <> 0%nat) by lia.
  assert (Hlen : (Z.to_nat n < length (Stack.items s))%nat)
    by (unfold Stack.depth in Hd; lia).
  set (l' := <[Z.to_nat n := top]> (<[0%nat := other]> (Stack.items s))).
  assert (Hswap : Stack.swap s n = (Stack.mk l', Normal tt)).
  { unfold Stack.swap.
    destruct (Z.ltb_spec n 1); [lia |]. destruct (Z.gtb_spec n 16); [lia |].
    destruct (Z.ltb_spec (Stack.depth s) (n + 1)); [lia |]. cbn [orb].
    rewrite Ltop, Loth. reflexivity. }
  assert (Hdepth : Stack.depth (Stack.mk l') = Stack.depth s).
  { unfold Stack.depth, l'. cbn [Stack.items]. rewrite !length_insert. reflexivity. }
  assert (L0 : l' !! 0%nat = Some other).
  { unfold l'. rewrite list_lookup_insert_ne by exact Hne.
    apply list_lookup_insert_eq. lia. }
  assert (Ln : l' !! Z.to_nat n = Some top).
  { unfold l'. apply list_lookup_insert_eq. rewrite length_insert. exact Hlen. }
  exists (Stack.mk l'). split; [exact Hswap |]. split; [exact Hdepth |].
  split; [| split; [| split]].
  - rewrite Poth. unfold Stack.peekAt. rewrite Hdepth.
    destruct (Z.ltb_spec 0 0); [lia |].
    destruct (Z.geb_spec 0 (Stack.depth s)); [lia |]. cbn [orb Stack.items].
    change (Z.to_nat 0) with 0%nat. rewrite L0. reflexivity.
  - rewrite Ptop. unfold Stack.peekAt. rewrite Hdepth.
    destruct (Z.ltb_spec n 0); [lia |].
    destruct (Z.geb_spec n (Stack.depth s)); [lia |]. cbn [orb Stack.items].
    rewrite Ln. reflexivity.
  - intros d Hd0 Hdn. unfold Stack.peekAt. rewrite Hdepth.
    destruct ((d <? 0) || (d >=? Stack.depth s)) eqn:Eout; [reflexivity |].
    apply orb_false_elim in Eout. destruct Eout as [E1 E2].
    apply Z.ltb_ge in E1. cbn [Stack.items]. unfold l'.
    rewrite !list_lookup_insert_ne by lia. reflexivity.
  - unfold Stack.swap. rewrite Hdepth.
    destruct (Z.ltb_spec n 1); [lia |]. destruct (Z.gtb_spec n 16); [lia |].
    destruct (Z.ltb_spec (Stack.depth s) (n + 1)); [lia |]. cbn [orb Stack.items].
    rewrite L0, Ln.
    assert (Hback : <[Z.to_nat n := other]> (<[0%nat := top]> l') = Stack.items s).
    { unfold l'. rewrite (list_insert_insert_ne _ 0%nat) by lia.
      rewrite !list_insert_insert_eq, (list_insert_id _ 0%nat) by exact Ltop.
      apply list_insert_id. exact Loth. }
    rewrite Hback, Stack_eta. reflexivity.
Qed.

Lemma Stack_swap_exchanges_witness :
  let s := Stack.mk [Word256.from 1; Word256.from 2; Word256.from 3] in
  1 <= 2 <= 16
  /\ 2 < Stack.depth s
  /\ exists s',
       Stack.swap s 2 = (s', Normal tt)
       /\ Stack.peekAt s' 0 = Normal (Word256.from 3)
       /\ Stack.swap s' 2 = (s, Normal tt).
Proof.
  intros s.
  assert (H1 : 1 <= 2 <= 16) by lia.
  assert (H2 : 2 < Stack.depth s) by (vm_compute; reflexivity).
  split; [exact H1 |]. split; [exact H2 |].
  destruct (Stack_swap_exchanges s 2 H1 H2) as (s' & Hs & _ & H0 & _ & _ & Hback).
  exists s'. split; [exact Hs |]. split; [| exact Hback].
  rewrite H0. reflexivity.
Defined.

(** [dup n] pushes a copy of the word at depth [n - 1]: the rest of the
    stack is untouched, and popping the copy gives the stack back. *)
Theorem Stack_dup_copies (s : Stack.t) (n : Z) :
  1 <= n <= 16 -> n <= Stack.depth s -> Stack.depth s < MAX_STACK_DEPTH ->
  exists w s',
    Stack.peekAt s (n - 1) = Normal w
    /\ Stack.dup s n = (s', Normal tt)
    /\ Stack.items s' = w :: Stack.items s
    /\ Stack.pop s' = (s, Normal w).
Proof.
  intros Hn Hd Hfull.
  destruct (Stack_peekAt_lookup s (n - 1) ltac:(lia)) as (w & Lw & Pw).
  exists w, (Stack.mk (w :: Stack.items s)).
  split; [exact Pw |]. split; [| split].
  - unfold Stack.dup.
    destruct (Z.ltb_spec n 1); [lia |]. destruct (Z.gtb_spec n 16); [lia |].
    destruct (Z.ltb_spec (Stack.depth s) n); [lia |].
    destruct (Z.geb_spec (Stack.depth s) MAX_STACK_DEPTH); [lia |]. cbn [orb].
    rewrite Lw. reflexivity.
  - reflexivity.
  - unfold Stack.pop. cbn [Stack.items]. rewrite Stack_eta. reflexivity.
Qed.

Lemma Stack_dup_copies_witness :
  let s := Stack.mk [Word256.from 1; Word256.from 2; Word256.from 3] in
  1 <= 3 <= 16
  /\ 3 <= Stack.depth s
  /\ Stack.depth s < MAX_STACK_DEPTH
  /\ exists w s',
       Stack.peekAt s (3 - 1) = Normal w
       /\ Stack.dup s 3 = (s', Normal tt)
       /\ Stack.items s' = w :: Stack.items s
       /\ Stack.pop s' = (s, Normal w).
Proof.
  intros s.
  assert (H1 : 1 <= 3 <= 16) by lia.
  assert (H2 : 3 <= Stack.depth s) by (vm_compute; discriminate).
  assert (H3 : Stack.depth s < MAX_STACK_DEPTH) by (vm_compute; reflexivity).
  split; [exact H1 |]. split; [exact H2 |]. split; [exact H3 |].
  exact (Stack_dup_copies s 3 H1 H2 H3).
Defined.

(** A failing stack operation throws a StackError and leaves the stack as
    it was. Its message contains "overflow" exactly when the stack was
    full, which is how [step] tells STACK_OVERFLOW from STACK_UNDERFLOW. *)
Theorem Stack_errors_classified (s : Stack.t) (w : Word256.t) (n d : Z) (e : JS.Exn) :
  1 <= n <= 16 ->
  (snd (Stack.push s w) = Throw e ->
   fst (Stack.push s w) = s /\ JS.instanceof_StackError e = true
   /\ JS.includes "overflow" (JS.message e) = true
   /\ MAX_STACK_DEPTH <= Stack.depth s)
  /\ (snd (Stack.pop s) = Throw e ->
      fst (Stack.pop s) = s /\ JS.instanceof_StackError e = true
      /\ JS.includes "overflow" (JS.message e) = false
      /\ Stack.depth s = 0)
  /\ (Stack.peekAt s d = Throw e ->
      JS.instanceof_StackError e = true
      /\ (d < 0 \/ Stack.depth s <= d))
  /\ (snd (Stack.dup s n) = Throw e ->
      fst (Stack.dup s n) = s /\ JS.instanceof_StackError e = true
      /\ (JS.includes "overflow" (JS.message e) = true ->
          n <= Stack.depth s /\ MAX_STACK_DEPTH <= Stack.depth s)
      /\ (JS.includes "overflow" (JS.message e) = false -> Stack.depth s < n))
  /\ (snd (Stack.swap s n) = Throw e ->
      fst (Stack.swap s n) = s /\ JS.instanceof_StackError e = true
      /\ JS.includes "overflow" (JS.message e) = false
      /\ Stack.depth s <= n).
Proof.
  intros Hn.
  assert (Hcases : n = 1 \/ n = 2 \/ n = 3 \/ n = 4 \/ n = 5 \/ n = 6 \/ n = 7
                   \/ n = 8 \/ n = 9 \/ n = 10 \/ n = 11 \/ n = 12 \/ n = 13
                   \/ n = 14 \/ n = 15 \/ n = 16) by lia.
  split; [| split; [| split; [| split]]].
  - unfold Stack.push.
    destruct (Z.geb_spec (Stack.depth s) MAX_STACK_DEPTH) as [Hfull |];
      [| discriminate].
    intros [= <-]. repeat split. exact Hfull.
  - unfold Stack.pop, Stack.depth. destruct (Stack.items s); [| discriminate].
    intros [= <-]. repeat split.
  - unfold Stack.peekAt.
    destruct (Z.ltb_spec d 0); cbn [orb].
    + intros [= <-]. split; [reflexivity | lia].
    + destruct (Z.geb_spec d (Stack.depth s)).
      * intros [= <-]. split; [reflexivity | lia].
      * destruct (Stack.items s !! Z.to_nat d) eqn:E; [discriminate |].
        apply lookup_ge_None in E. unfold Stack.depth in *. lia.
  - unfold Stack.dup.
    destruct (Z.ltb_spec n 1); [lia |]. destruct (Z.gtb_spec n 16); [lia |].
    cbn [orb].
    destruct (Z.ltb_spec (Stack.depth s) n).
    + intros [= <-]. split; [reflexivity |]. split; [reflexivity |].
      split; [| intros _; assumption].
      intros Hov. exfalso. revert Hov.
      repeat (destruct Hcases as [-> | Hcases]; [vm_compute; discriminate |]).
      subst n. vm_compute. discriminate.
    + destruct (Z.geb_spec (Stack.depth s) MAX_STACK_DEPTH).
      * intros [= <-]. split; [reflexivity |]. split; [reflexivity |].
        split; [intros _; split; assumption |].
        intros Hov. exfalso. revert Hov.
        repeat (destruct Hcases as [-> | Hcases]; [vm_compute; discriminate |]).
        subst n. vm_compute. discriminate.
      * destruct (Stack.items s !! Z.to_nat (n - 1)); discriminate.
  - unfold Stack.swap.
    destruct (Z.ltb_spec n 1); [lia |]. destruct (Z.gtb_spec n 16); [lia |].
    cbn [orb].
    destruct (Z.ltb_spec (Stack.depth s) (n + 1)).
    + intros [= <-]. split; [reflexivity |]. split; [reflexivity |].
      split; [| lia].
      repeat (destruct Hcases as [-> | Hcases]; [vm_compute; reflexivity |]).
      subst n. vm_compute. reflexivity.
    + destruct (Stack.items s !! 0%nat); [| discriminate].
      destruct (Stack.items s !! Z.to_nat n); discriminate.
Qed.

Lemma Stack_errors_classified_witness :
  1 <= 2 <= 16
  /\ snd (Stack.dup (Stack.mk [Word256.one]) 2)
     = Throw (JS.StackError "Stack underflow: need 2 items for DUP2")
  /\ fst (Stack.dup (Stack.mk [Word256.one]) 2) = Stack.mk [Word256.one]
  /\ JS.instanceof_StackError (JS.StackError "Stack underflow: need 2 items for DUP2")
     = true.
Proof.
  assert (H1 : 1 <= 2 <= 16) by lia.
  assert (H2 : snd (Stack.dup (Stack.mk [Word256.one]) 2)
               = Throw (JS.StackError "Stack underflow: need 2 items for DUP2"))
    by reflexivity.
  split; [exact H1 |]. split; [exact H2 |].
  destruct (Stack_errors_classified (Stack.mk [Word256.one]) Word256.one 2 0
              (JS.StackError "Stack underflow: need 2 items for DUP2") H1)
    as (_ & _ & _ & Hdup & _).
  destruct (Hdup H2) as (Hs & He & _). split; assumption.
Defined.

(** ** MachineState: memory *)

Lemma ceil32_bounds req :
  req <= JS.ceil_div32 req * 32 < req + 32
  /\ (JS.ceil_div32 req * 32) mod 32 = 0
  /\ JS.ceil_div32 req * 32 / 32 = JS.ceil_div32 req.
Proof.
  unfold JS.ceil_div32.
  pose proof (Z.div_mod (req + 31) 32 ltac:(lia)).
  pose proof (Z.mod_pos_bound (req + 31) 32 ltac:(lia)).
  split; [lia |]. split; [apply Z.mod_mul; lia | apply Z.div_mul; lia].
Qed.

Lemma memoryCost_mono a b :
  0 <= a <= b -> MachineState.memoryCost a <= MachineState.memoryCost b.
Proof.
  intros Hab. unfold MachineState.memoryCost. rewrite !Z.pow_2_r.
  assert (a * a / 512 <= b * b / 512) by (apply Z.div_le_mono; nia).
  lia.
Qed.

Lemma getMemorySize_set_memory st m :
  MachineState.getMemorySize (MachineState.set_memory st m) = Z.of_nat (length m).
Proof. reflexivity. Qed.

(** The two ways in which [expandMemory] completes. *)
Lemma expandMemory_completes st offset len st' cost :
  MachineState.expandMemory st offset len = (st', Normal cost) ->
  (st' = st /\ cost = 0
   /\ (len = 0 \/ offset + len <= MachineState.getMemorySize st))
  \/ (len <> 0
      /\ MachineState.getMemorySize st < offset + len
      /\ JS.ceil_div32 (offset + len) * 32 <= JS.MAX_TYPED_ARRAY_LENGTH
      /\ st' = MachineState.set_memory st
                 (MachineState.memory st
                  ++ repeat x00 (Z.to_nat (JS.ceil_div32 (offset + len) * 32
                                           - MachineState.getMemorySize st)))
      /\ cost = MachineState.memoryCost (JS.ceil_div32 (offset + len) * 32 / 32)
                - MachineState.memoryCost (MachineState.getMemorySize st / 32)).
Proof.
  unfold MachineState.expandMemory.
  destruct (Z.eqb_spec len 0) as [-> | Hlen].
  { intros [= <- <-]. left. auto. }
  destruct (Z.leb_spec (offset + len) (MachineState.getMemorySize st)) as [Hfit | Hbig].
  { intros [= <- <-]. left. auto. }
  destruct (Z.gtb_spec (JS.ceil_div32 (offset + len) * 32) JS.MAX_TYPED_ARRAY_LENGTH);
    [discriminate |].
  intros [= <- <-]. right. repeat split; assumption.
Qed.

(** [expandMemory] only appends zeros: the bytes already there stay. The
    new size covers the requested range and, when memory grew, is a
    multiple of 32. The cost is never negative and is the difference of
    the cost function between the new and the old size in words. Nothing
    else in the state changes. *)
Theorem expandMemory_extends_with_zeros
        (st st' : MachineState.t) (offset len cost : Z) :
  MachineState.expandMemory st offset len = (st', Normal cost) ->
  exists grown : nat,
    MachineState.memory st' = MachineState.memory st ++ repeat x00 grown
    /\ (len <> 0 -> offset + len <= MachineState.getMemorySize st')
    /\ ((0 < grown)%nat -> MachineState.getMemorySize st' mod 32 = 0)
    /\ cost = MachineState.memoryCost (MachineState.getMemorySize st' / 32)
              - MachineState.memoryCost (MachineState.getMemorySize st / 32)
    /\ 0 <= cost
    /\ MachineState.pc st' = MachineState.pc st
    /\ MachineState.gasRemaining st' = MachineState.gasRemaining st
    /\ MachineState.halted st' = MachineState.halted st.
Proof.
  intros Hrun.
  destruct (expandMemory_completes _ _ _ _ _ Hrun)
    as [(-> & -> & Hfit) | (Hlen & Hbig & Hmax & -> & ->)].
  - exists 0%nat. rewrite app_nil_r.
    repeat split; lia.
  - pose proof (ceil32_bounds (offset + len)) as (Hb & Hm & Hd).
    set (n := JS.ceil_div32 (offset + len) * 32) in *.
    assert (Hsize : MachineState.getMemorySize
                      (MachineState.set_memory st
                         (MachineState.memory st
                          ++ repeat x00 (Z.to_nat (n - MachineState.getMemorySize st))))
                    = n).
    { rewrite getMemorySize_set_memory, length_app, repeat_length.
      unfold MachineState.getMemorySize in *. lia. }
    exists (Z.to_nat (n - MachineState.getMemorySize st)).
    rewrite Hsize. repeat split; try lia.
    apply Z.le_0_sub. apply memoryCost_mono.
    unfold MachineState.getMemorySize in *.
    split; [apply Z.div_pos; lia | apply Z.div_le_mono; lia].
Qed.

Lemma expandMemory_extends_with_zeros_witness :
  let st := MachineState.new 100 in
  exists st',
    MachineState.expandMemory st 10 40 = (st', Normal 6)
    /\ MachineState.memory st' = repeat x00 64
    /\ exists grown : nat,
         MachineState.memory st' = MachineState.memory st ++ repeat x00 grown
         /\ (40 <> 0 -> 10 + 40 <= MachineState.getMemorySize st').
Proof.
  intros st. eexists.
  assert (Hrun : MachineState.expandMemory st 10 40
                 = (MachineState.set_memory st (repeat x00 64), Normal 6))
    by reflexivity.
  split; [exact Hrun |]. split; [reflexivity |].
  destruct (expandMemory_extends_with_zeros _ _ _ _ _ Hrun) as (grown & Hm & Hc & _).
  exists grown. split; assumption.
Defined.

(** Memory is paid for by its final size: two expansions in a row cost
    together what the second one costs alone when it asks for at least
    as much, and leave the same memory. *)
Theorem expandMemory_twice_as_once
        (st st1 st2 : MachineState.t) (o1 l1 o2 l2 c1 c2 : Z) :
  MachineState.expandMemory st o1 l1 = (st1, Normal c1) ->
  MachineState.expandMemory st1 o2 l2 = (st2, Normal c2) ->
  l1 <> 0 -> l2 <> 0 -> o1 + l1 <= o2 + l2 ->
  MachineState.expandMemory st o2 l2 = (st2, Normal (c1 + c2)).
Proof.
  intros H1 H2 Hl1 Hl2 Hle.
  pose proof (ceil32_bounds (o1 + l1)) as (Hb1 & Hm1 & Hd1).
  pose proof (ceil32_bounds (o2 + l2)) as (Hb2 & Hm2 & Hd2).
  destruct (expandMemory_completes _ _ _ _ _ H1)
    as [(-> & -> & Hfit1) | (_ & Hbig1 & Hmax1 & -> & ->)].
  { rewrite H2. reflexivity. }
  set (n1 := JS.ceil_div32 (o1 + l1) * 32) in *.
  set (n2 := JS.ceil_div32 (o2 + l2) * 32) in *.
  set (cur := MachineState.getMemorySize st) in *.
  assert (Hcur : 0 <= cur) by (unfold cur, MachineState.getMemorySize; lia).
  assert (Hsize1 : MachineState.getMemorySize
                     (MachineState.set_memory st
                        (MachineState.memory st ++ repeat x00 (Z.to_nat (n1 - cur))))
                   = n1).
  { rewrite getMemorySize_set_memory, length_app, repeat_length.
    unfold cur, MachineState.getMemorySize in *. lia. }
  destruct (expandMemory_completes _ _ _ _ _ H2)
    as [(-> & -> & Hfit2) | (_ & Hbig2 & Hmax2 & -> & ->)].
  - (* the first expansion already covers the second request *)
    rewrite Hsize1 in Hfit2. destruct Hfit2 as [? | Hfit2]; [contradiction |].
    assert (Hsame : n2 = n1).
    { unfold n1, n2, JS.ceil_div32 in *.
      assert ((o2 + l2 + 31) / 32 = (o1 + l1 + 31) / 32); [| lia].
      apply Z.le_antisymm; [| apply Z.div_le_mono; lia].
      apply Z.lt_succ_r. apply Z.div_lt_upper_bound; lia. }
    unfold MachineState.expandMemory.
    destruct (Z.eqb_spec l2 0); [contradiction |].
    destruct (Z.leb_spec (o2 + l2) (MachineState.getMemorySize st)); [unfold cur in *; lia |].
    fold n2 cur. rewrite Hsame.
    destruct (Z.gtb_spec n1 JS.MAX_TYPED_ARRAY_LENGTH); [lia |].
    rewrite Z.add_0_r. reflexivity.
  - (* both expansions grow the memory *)
    rewrite Hsize1 in *. fold n2 in Hmax2 |- *.
    unfold MachineState.expandMemory.
    destruct (Z.eqb_spec l2 0); [contradiction |].
    destruct (Z.leb_spec (o2 + l2) (MachineState.getMemorySize st)); [unfold cur in *; lia |].
    fold n2 cur.
    destruct (Z.gtb_spec n2 JS.MAX_TYPED_ARRAY_LENGTH); [lia |].
    f_equal; [| f_equal; lia].
    unfold MachineState.set_memory. cbn [MachineState.pc MachineState.gasRemaining
      MachineState.stack MachineState.memory MachineState.returnData
      MachineState.halted MachineState.haltReason].
    f_equal. rewrite <- app_assoc, <- repeat_app. do 2 f_equal. lia.
Qed.

Lemma expandMemory_twice_as_once_witness :
  let st := MachineState.new 100 in
  exists st1 st2,
    MachineState.expandMemory st 0 32 = (st1, Normal 3)
    /\ MachineState.expandMemory st1 64 32 = (st2, Normal 6)
    /\ 32 <> 0 /\ 0 + 32 <= 64 + 32
    /\ MachineState.expandMemory st 64 32 = (st2, Normal (3 + 6)).
Proof.
  intros st. do 2 eexists.
  assert (H1 : MachineState.expandMemory st 0 32
               = (MachineState.set_memory st (repeat x00 32), Normal 3))
    by reflexivity.
  assert (H2 : MachineState.expandMemory (MachineState.set_memory st (repeat x00 32)) 64 32
               = (MachineState.set_memory st (repeat x00 96), Normal 6))
    by reflexivity.
  assert (H3 : 32 <> 0) by lia.
  assert (H4 : 0 + 32 <= 64 + 32) by lia.
  split; [exact H1 |]. split; [exact H2 |]. split; [exact H3 |]. split; [exact H4 |].
  exact (expandMemory_twice_as_once _ _ _ _ _ _ _ _ _ H1 H2 H3 H3 H4).
Defined.

Lemma lookup_repeat {A} (x : A) (n i : nat) :
  (i < n)%nat -> repeat x n !! i = Some x.
Proof.
  revert i. induction n as [| n IH]; intros i Hi; [lia |].
  destruct i as [| i]; [reflexivity |]. cbn. apply IH. lia.
Qed.

(** A byte of the zero-extended memory. *)
Lemma lookup_zero_extended (m : list byte) (grown k : nat) :
  (k < length m + grown)%nat ->
  (m ++ repeat x00 grown) !! k = Some (nth k m x00).
Proof.
  intros Hk. rewrite nth_lookup.
  destruct (m !! k) as [b |] eqn:E.
  - rewrite (lookup_app_l_Some _ _ _ _ E). reflexivity.
  - apply lookup_ge_None in E. rewrite lookup_app_r by exact E.
    rewrite lookup_repeat by lia. reflexivity.
Qed.

(** The memory on which [readMemory] and [writeMemory] operate once they
    have made room. *)
Lemma expand_if_needed st offset len st1 r :
  (if offset + len >? MachineState.getMemorySize st
   then MachineState.expandMemory st offset len
   else (st, Normal 0)) = (st1, Normal r) ->
  len <> 0 ->
  exists grown : nat,
    MachineState.memory st1 = MachineState.memory st ++ repeat x00 grown
    /\ offset + len <= MachineState.getMemorySize st1
    /\ st1 = MachineState.set_memory st (MachineState.memory st1).
Proof.
  intros Hrun Hlen.
  destruct (Z.gtb_spec (offset + len) (MachineState.getMemorySize st)) as [Hbig | Hfit].
  - destruct (expandMemory_completes _ _ _ _ _ Hrun)
      as [(-> & _ & [? | ?]) | (_ & _ & _ & -> & _)]; try lia.
    pose proof (ceil32_bounds (offset + len)) as (Hb & _).
    eexists. split; [reflexivity |]. split; [| reflexivity].
    rewrite getMemorySize_set_memory, length_app, repeat_length.
    unfold MachineState.getMemorySize in *. lia.
  - injection Hrun as <- _. exists 0%nat. rewrite app_nil_r.
    split; [reflexivity |]. split; [lia |]. destruct st. reflexivity.
Qed.

(** What was written is what is read back from the same place. The write
    changes the bytes of its range only: every other byte is the one of
    the old memory, extended with zeros when the write made it grow. *)
Theorem writeMemory_then_readMemory
        (st st' : MachineState.t) (offset : Z) (data : list byte) :
  0 <= offset -> data <> [] ->
  MachineState.writeMemory st offset data = (st', Normal tt) ->
  MachineState.readMemory st' offset (Z.of_nat (length data)) = (st', Normal data)
  /\ exists grown : nat,
       let old := MachineState.memory st ++ repeat x00 grown in
       length (MachineState.memory st') = length old
       /\ forall i : nat,
            MachineState.memory st' !! i
            = if ((Z.to_nat offset <=? i) && (i <? Z.to_nat offset + length data))%nat
              then data !! (i - Z.to_nat offset)%nat
              else old !! i.
Proof.
  intros Hoff Hdata. unfold MachineState.writeMemory.
  assert (Hlen : Z.of_nat (length data) <> 0) by (destruct data; [congruence | cbn; lia]).
  destruct (Z.eqb_spec (Z.of_nat (length data)) 0); [contradiction |].
  destruct (if offset + Z.of_nat (length data) >? MachineState.getMemorySize st
            then MachineState.expandMemory st offset (Z.of_nat (length data))
            else (st, Normal 0)) as [st1 [c | e]] eqn:Eroom; [| discriminate].
  destruct (expand_if_needed _ _ _ _ _ Eroom Hlen) as (grown & Hmem & Hroom & _).
  destruct (Z.gtb_spec (offset + Z.of_nat (length data)) (MachineState.getMemorySize st1));
    [lia |].
  intros [= <-].
  set (old := MachineState.memory st ++ repeat x00 grown) in *.
  assert (Hold : (Z.to_nat offset + length data <= length old)%nat).
  { rewrite <- Hmem. unfold MachineState.getMemorySize in Hroom. lia. }
  assert (Htake : length (take (Z.to_nat offset) old) = Z.to_nat offset).
  { rewrite length_take. lia. }
  split.
  - unfold MachineState.readMemory.
    destruct (Z.eqb_spec (Z.of_nat (length data)) 0); [contradiction |].
    rewrite getMemorySize_set_memory.
    cbn [MachineState.memory MachineState.set_memory]. rewrite Hmem.
    rewrite !length_app, Htake, length_drop.
    destruct (Z.gtb_spec (offset + Z.of_nat (length data))
                (Z.of_nat (Z.to_nat offset + (length data
                           + (length old - (Z.to_nat offset + length data))))));
      [lia |].
    f_equal. f_equal. unfold MachineState.slice.
    cbn [MachineState.memory MachineState.set_memory].
    rewrite drop_app_length' by (symmetry; exact Htake).
    apply take_app_length'. lia.
  - exists grown. fold old. cbn [MachineState.memory MachineState.set_memory].
    rewrite Hmem. split.
    + rewrite !length_app, Htake, length_drop. lia.
    + intros i.
      destruct (Nat.leb_spec (Z.to_nat offset) i) as [Hge | Hlt]; cbn [andb].
      * rewrite lookup_app_r by (rewrite Htake; exact Hge). rewrite Htake.
        destruct (Nat.ltb_spec i (Z.to_nat offset + length data)) as [Hin | Hout].
        -- apply lookup_app_l. lia.
        -- rewrite lookup_app_r by lia. rewrite lookup_drop. f_equal. lia.
      * rewrite lookup_app_l by (rewrite Htake; exact Hlt).
        apply lookup_take_lt. exact Hlt.
Qed.

Lemma writeMemory_then_readMemory_witness :
  let st := MachineState.new 100 in
  let data := [x01; x02; x03] in
  exists st',
    0 <= 30 /\ data <> []
    /\ MachineState.writeMemory st 30 data = (st', Normal tt)
    /\ MachineState.getMemorySize st' = 64
    /\ MachineState.readMemory st' 30 (Z.of_nat (length data)) = (st', Normal data).
Proof.
  intros st data. eexists.
  assert (H1 : 0 <= 30) by lia.
  assert (H2 : data <> []) by discriminate.
  assert (H3 : MachineState.writeMemory st 30 data
               = (MachineState.set_memory st
                    (repeat x00 30 ++ data ++ repeat x00 31), Normal tt))
    by reflexivity.
  split; [exact H1 |]. split; [exact H2 |]. split; [exact H3 |].
  split; [reflexivity |].
  exact (proj1 (writeMemory_then_readMemory _ _ _ _ H1 H2 H3)).
Defined.

(** [readMemory] returns exactly [len] bytes: those of the memory, and
    zeros past its end. Reading past the end makes the memory grow, but
    takes no gas. *)
Theorem readMemory_zero_extends
        (st st' : MachineState.t) (offset len : Z) (data : list byte) :
  0 <= offset -> 0 < len ->
  MachineState.readMemory st offset len = (st', Normal data) ->
  data = map (fun i => nth (Z.to_nat offset + i) (MachineState.memory st) x00)
             (seq 0 (Z.to_nat len))
  /\ (exists grown : nat,
        MachineState.memory st' = MachineState.memory st ++ repeat x00 grown)
  /\ offset + len <= MachineState.getMemorySize st'
  /\ MachineState.gasRemaining st' = MachineState.gasRemaining st.
Proof.
  intros Hoff Hlen. unfold MachineState.readMemory.
  destruct (Z.eqb_spec len 0); [lia |].
  destruct (if offset + len >? MachineState.getMemorySize st
            then MachineState.expandMemory st offset len
            else (st, Normal 0)) as [st1 [c | e]] eqn:Eroom; [| discriminate].
  destruct (expand_if_needed _ _ _ _ _ Eroom ltac:(lia)) as (grown & Hmem & Hroom & Hst).
  intros [= <- <-].
  split; [| split; [exists grown; exact Hmem | split; [exact Hroom |]]].
  - unfold MachineState.slice. rewrite Hmem.
    replace (offset + len - offset) with len by lia.
    assert (Hold : (Z.to_nat offset + Z.to_nat len
                    <= length (MachineState.memory st) + grown)%nat).
    { unfold MachineState.getMemorySize in Hroom.
      rewrite Hmem, length_app, repeat_length in Hroom. lia. }
    apply list_eq. intros i.
    destruct (Nat.lt_ge_cases i (Z.to_nat len)) as [Hi | Hi].
    + rewrite lookup_take_lt, lookup_drop by exact Hi.
      rewrite lookup_zero_extended by lia.
      rewrite list_lookup_fmap, lookup_seq_lt by exact Hi. reflexivity.
    + rewrite lookup_take_ge by exact Hi.
      rewrite list_lookup_fmap, lookup_seq_ge by exact Hi. reflexivity.
  - rewrite Hst. reflexivity.
Qed.

Lemma readMemory_zero_extends_witness :
  let st := MachineState.set_memory (MachineState.new 100) (repeat xff 32) in
  exists st',
    0 <= 30 /\ 0 < 4
    /\ MachineState.readMemory st 30 4 = (st', Normal [xff; xff; x00; x00])
    /\ MachineState.getMemorySize st' = 64
    /\ MachineState.gasRemaining st' = MachineState.gasRemaining st.
Proof.
  intros st. eexists.
  assert (H1 : 0 <= 30) by lia.
  assert (H2 : 0 < 4) by lia.
  assert (H3 : MachineState.readMemory st 30 4
               = (MachineState.set_memory st (repeat xff 32 ++ repeat x00 32),
                  Normal [xff; xff; x00; x00]))
    by reflexivity.
  split; [exact H1 |]. split; [exact H2 |]. split; [exact H3 |].
  split; [reflexivity |].
  exact (proj2 (proj2 (proj2 (readMemory_zero_extends _ _ _ _ _ H1 H2 H3)))).
Defined.
